(** * Annotation re-anchoring engine of legal-codex-v2

    A shallow embedding of the position-resolution subsystem
    (PositionService.ts, TextMatchingAlgorithm.ts, StructuralAnalyzer.ts,
    ContextAnalyzer.ts, hashUtils.ts and annotation.types.ts) together with
    the properties of its resolution cascade.

    Modelling conventions.
    - A JavaScript string is the list of its UTF-16 code units ([jsstring]);
      [length], [slice], [indexOf] and [charCodeAt] all count code units.
    - Offsets and other integral numbers are [Z].  Scores and confidences,
      which the source computes in double precision, are exact rationals
      ([Q]); every threshold the source compares against (0.3, 0.5, 0.6,
      0.7, 0.8, ...) is written as the corresponding fraction.
    - The parts of the JavaScript runtime whose behaviour depends on the
      Unicode case tables or on the regular-expression compiler are
      parameters of the development (Section variables): the canonical form
      used by a case-insensitive RegExp, String.prototype.toLowerCase on
      raw text, and the first match of a RegExp compiled from a pattern
      string.  [BasicLatinHost] instantiates them for closed examples.
    - A strategy either returns, throws, or is still running when the fuel
      of the only unbounded loop (the [exec] loop of [findMatches]) is
      exhausted. *)

From Stdlib Require Import ZArith QArith Qminmax List Bool Lia Lqa String Ascii.
Import ListNotations.
Local Open Scope Z_scope.

Set Implicit Arguments.

(** ** JavaScript strings *)

Module JS.

Definition jsstring := list Z.

(** An ASCII literal as a JavaScript string. *)
Definition lit (s : string) : jsstring :=
  map (fun a => Z.of_N (N_of_ascii a)) (list_ascii_of_string s).

Definition len (s : jsstring) : Z := Z.of_nat (List.length s).

Fixpoint streq (a b : jsstring) : bool :=
  match a, b with
  | [], [] => true
  | x :: a', y :: b' => (x =? y) && streq a' b'
  | _, _ => false
  end.

(** [s.slice(a, b)]: negative indices count from the end, both are clamped. *)
Definition clampIndex (n i : Z) : Z :=
  if i <? 0 then Z.max (n + i) 0 else Z.min i n.

Definition slice (s : jsstring) (a b : Z) : jsstring :=
  let from := clampIndex (len s) a in
  let to := clampIndex (len s) b in
  firstn (Z.to_nat (to - from)) (skipn (Z.to_nat from) s).

(** [s.slice(a)] *)
Definition sliceFrom (s : jsstring) (a : Z) : jsstring := slice s a (len s).

Fixpoint isPrefix (p s : jsstring) : bool :=
  match p, s with
  | [], _ => true
  | x :: p', y :: s' => (x =? y) && isPrefix p' s'
  | _ :: _, [] => false
  end.

Fixpoint indexOfFrom (s target : jsstring) (i : Z) : Z :=
  match s with
  | [] => if isPrefix target [] then i else -1
  | _ :: s' => if isPrefix target s then i else indexOfFrom s' target (i + 1)
  end.

(** [s.indexOf(target)], [-1] when absent. *)
Definition indexOf (s target : jsstring) : Z := indexOfFrom s target 0.

(** Character classes of the regular expressions in the source. *)
Definition isSpace (c : Z) : bool :=          (* \s *)
  ((9 <=? c) && (c <=? 13)) || (c =? 32) || (c =? 160) || (c =? 5760)
  || ((8192 <=? c) && (c <=? 8202)) || (c =? 8232) || (c =? 8233)
  || (c =? 8239) || (c =? 8287) || (c =? 12288) || (c =? 65279).

Definition isWord (c : Z) : bool :=           (* \w *)
  ((48 <=? c) && (c <=? 57)) || ((65 <=? c) && (c <=? 90)) || (c =? 95)
  || ((97 <=? c) && (c <=? 122)).

Definition isCJK (c : Z) : bool :=            (* \u4e00-\u9fff *)
  (19968 <=? c) && (c <=? 40959).

Definition isLineTerminator (c : Z) : bool := (* what . does not match *)
  (c =? 10) || (c =? 13) || (c =? 8232) || (c =? 8233).

(** [s.replace(/\s+/g, ' ')] *)
Fixpoint collapseSpaces (inRun : bool) (s : jsstring) : jsstring :=
  match s with
  | [] => []
  | c :: s' =>
      if isSpace c
      then (if inRun then collapseSpaces true s' else 32 :: collapseSpaces true s')
      else c :: collapseSpaces false s'
  end.

(** [s.split(/\s+/)]: the pieces between maximal runs of white space; a
    leading or trailing run leaves an empty piece, the empty string gives
    one empty piece. *)
Fixpoint splitSpacesAux (cur : jsstring) (inRun : bool) (s : jsstring)
  : list jsstring :=
  match s with
  | [] => [rev cur]
  | c :: s' =>
      if isSpace c
      then (if inRun then splitSpacesAux cur true s'
            else rev cur :: splitSpacesAux [] true s')
      else splitSpacesAux (c :: cur) false s'
  end.

Definition splitSpaces (s : jsstring) : list jsstring :=
  splitSpacesAux [] false s.

(** [s.split(sep)] for a one-character separator. *)
Fixpoint splitCharAux (sep : Z) (cur : jsstring) (s : jsstring)
  : list jsstring :=
  match s with
  | [] => [rev cur]
  | c :: s' =>
      if c =? sep then rev cur :: splitCharAux sep [] s'
      else splitCharAux sep (c :: cur) s'
  end.

Definition splitChar (sep : Z) (s : jsstring) : list jsstring :=
  splitCharAux sep [] s.

(** [xs.join(sep)] *)
Fixpoint join (sep : jsstring) (xs : list jsstring) : jsstring :=
  match xs with
  | [] => []
  | [x] => x
  | x :: rest => x ++ sep ++ join sep rest
  end.

(** [s.trim()] *)
Fixpoint trimStart (s : jsstring) : jsstring :=
  match s with
  | [] => []
  | c :: s' => if isSpace c then trimStart s' else s
  end.

Definition trim (s : jsstring) : jsstring := rev (trimStart (rev (trimStart s))).

(** toLowerCase restricted to the Basic Latin letters. *)
Definition lowerBasic (c : Z) : Z :=
  if (65 <=? c) && (c <=? 90) then c + 32 else c.

Definition upperBasic (c : Z) : Z :=
  if (97 <=? c) && (c <=? 122) then c - 32 else c.

(** [new Set(xs)]: the distinct elements in insertion order. *)
Definition has (xs : list jsstring) (x : jsstring) : bool :=
  existsb (streq x) xs.

Fixpoint setOfAux (seen : list jsstring) (xs : list jsstring) : list jsstring :=
  match xs with
  | [] => rev seen
  | x :: rest => if has seen x then setOfAux seen rest else setOfAux (x :: seen) rest
  end.

Definition setOf (xs : list jsstring) : list jsstring := setOfAux [] xs.

Definition size (xs : list jsstring) : Z := Z.of_nat (List.length xs).

(** Digits of a non-negative integer in the given radix
    ([Number.prototype.toString(radix)] on integers). *)
Definition digitChar (d : Z) : Z := if d <? 10 then 48 + d else 87 + d.

Fixpoint digitsAux (fuel : nat) (radix n : Z) (acc : jsstring) : jsstring :=
  match fuel with
  | O => acc
  | S f =>
      if n <? radix then digitChar n :: acc
      else digitsAux f radix (n / radix) (digitChar (n mod radix) :: acc)
  end.

Definition natToString (radix n : Z) : jsstring :=
  digitsAux (S (Z.to_nat (Z.log2 n))) radix n [].

(** Template-literal conversion of an integer. *)
Definition numberToString (n : Z) : jsstring :=
  if n <? 0 then 45 :: natToString 10 (- n) else natToString 10 n.

End JS.


Import JS.

(** ** Shared data types (annotation.types.ts) *)

Inductive PositioningMethod :=
| primary_position
| context_match
| text_fingerprint
| structural_path
| fuzzy_match.

Definition methodName (m : PositioningMethod) : jsstring :=
  match m with
  | primary_position => lit "primary_position"
  | context_match => lit "context_match"
  | text_fingerprint => lit "text_fingerprint"
  | structural_path => lit "structural_path"
  | fuzzy_match => lit "fuzzy_match"
  end.

Module Primary.
Record t := { startOffset : Z; endOffset : Z; selectedText : jsstring }.
End Primary.

Module ContextInfo.
Record t := { before : jsstring; after : jsstring; hash : jsstring }.
End ContextInfo.

Module StructuralPath.
Record t := {
  chapterId : option jsstring;
  articleId : option jsstring;
  sectionId : option jsstring;
  paragraphIndex : option Z;
  elementPath : option jsstring
}.
End StructuralPath.

Module Metadata.
Record t := {
  createdAt : Z;
  textLength : Z;
  confidence : Q;
  version : option jsstring
}.
End Metadata.

Module AnnotationPosition.
Record t := {
  primary : Primary.t;
  context : ContextInfo.t;
  structural : StructuralPath.t;
  fingerprint : jsstring;
  metadata : Metadata.t
}.
End AnnotationPosition.

Module SelectionData.
Record t := {
  selectedText : jsstring;
  startOffset : Z;
  endOffset : Z;
  contextBefore : jsstring;
  contextAfter : jsstring;
  elementPath : option jsstring;
  pageUrl : option jsstring
}.
End SelectionData.

Module TextRange.
Record t := {
  startOffset : Z;
  endOffset : Z;
  text : jsstring;
  confidence : option Q
}.
End TextRange.

Module TextMatch.
Record t := {
  startOffset : Z;
  endOffset : Z;
  text : jsstring;
  score : Q;
  method : PositioningMethod
}.
End TextMatch.

Module AnnotationMatch.
Record t := {
  range : TextRange.t;
  confidence : Q;
  method : PositioningMethod;
  strategy : PositioningMethod;       (* metadata.strategy *)
  validationPassed : bool             (* metadata.validationPassed *)
}.
End AnnotationMatch.

Module ResultMetadata.
Record t := {
  totalAttempts : Z;
  strategiesUsed : list PositioningMethod;
  processingTime : Z;
  confidence : Q
}.
End ResultMetadata.

Module PositioningResult.
Record t := {
  success : bool;
  position : option AnnotationPosition.t;
  matches : list AnnotationMatch.t;
  errors : option (list jsstring);
  metadata : ResultMetadata.t
}.
End PositioningResult.

(** Truthiness of optional strings and numbers ([if (x)], [!x], [x || d]). *)
Definition truthyString (o : option jsstring) : bool :=
  match o with
  | Some (_ :: _) => true
  | _ => false
  end.

Definition truthyNumber (o : option Z) : bool :=
  match o with
  | Some n => negb (n =? 0)
  | None => false
  end.

(** What running a piece of code can do: return a value, throw an [Error]
    with a message, or still be running when the fuel is spent. *)
Inductive exec (A : Type) :=
| Returns (a : A)
| Throws (message : jsstring)
| OutOfFuel.
Arguments Throws {A} message.
Arguments OutOfFuel {A}.

Definition bind {A B} (x : exec A) (k : A -> exec B) : exec B :=
  match x with
  | Returns a => k a
  | Throws m => Throws m
  | OutOfFuel => OutOfFuel
  end.

(** Rational helpers: [Math.max], [Math.min], [>], and fractions of
    integral numbers. *)
Definition qmax (a b : Q) : Q := if Qle_bool a b then b else a.
Definition qmin (a b : Q) : Q := if Qle_bool a b then a else b.
Definition Qgt_bool (a b : Q) : bool := negb (Qle_bool a b).
Definition Qge_bool (a b : Q) : bool := Qle_bool b a.
Definition ofZ (z : Z) : Q := inject_Z z.

(** ** hashUtils.ts *)

Module HashUtil.

(** [x | 0]: wrap to a signed 32-bit integer. *)
Definition toInt32 (z : Z) : Z := (z + 2 ^ 31) mod 2 ^ 32 - 2 ^ 31.

Definition step (hash char : Z) : Z :=
  let hash := (toInt32 (hash * 32) - hash) + char in   (* ((hash << 5) - hash) + char *)
  toInt32 hash.                                        (* hash & hash *)

Definition sha256 (input : jsstring) : jsstring :=
  let hash := fold_left step input 0 in
  natToString 16 (Z.abs hash).

Definition md5 (input : jsstring) : jsstring := slice (sha256 input) 0 8.

End HashUtil.

(** ** ContextAnalyzer.ts *)

Module ContextAnalyzer.

Definition generateHash (text : jsstring) : jsstring :=
  natToString 16 (Z.abs (fold_left HashUtil.step text 0)).

Definition analyzeContext (textContent : jsstring) (startOffset endOffset : Z)
  : ContextInfo.t :=
  let contextBefore := slice textContent (Z.max 0 (startOffset - 100)) startOffset in
  let contextAfter :=
    slice textContent endOffset (Z.min (len textContent) (endOffset + 100)) in
  let selectedText := slice textContent startOffset endOffset in
  {| ContextInfo.before := sliceFrom contextBefore (-50);
     ContextInfo.after := slice contextAfter 0 50;
     ContextInfo.hash := generateHash (contextBefore ++ selectedText ++ contextAfter) |}.

End ContextAnalyzer.

(** ** StructuralAnalyzer.ts *)

Module StructuralAnalyzer.

Definition calculateParagraphIndex (offset : Z) : Z := offset / 300.

Definition findChapterId (textId : jsstring) (offset : Z) : option jsstring :=
  Some (lit "chapter_" ++ numberToString (offset / 5000)).

Definition findArticleId (textId : jsstring) (offset : Z) : option jsstring :=
  Some (lit "article_" ++ numberToString (offset / 1000)).

Definition analyze (textId : jsstring) (startOffset endOffset : Z)
    (elementPath : option jsstring) : StructuralPath.t :=
  {| StructuralPath.paragraphIndex := Some (calculateParagraphIndex startOffset);
     StructuralPath.elementPath :=
       if truthyString elementPath then elementPath else None;
     StructuralPath.chapterId :=
       let chapterId := findChapterId textId startOffset in
       if truthyString chapterId then chapterId else None;
     StructuralPath.articleId :=
       let articleId := findArticleId textId startOffset in
       if truthyString articleId then articleId else None;
     StructuralPath.sectionId := None |}.

Definition findByParagraphIndex (textContent : jsstring) (paragraphIndex : Z)
    (targetText : jsstring) : option TextRange.t :=
  let estimatedOffset := paragraphIndex * 300 in
  let searchStart := Z.max 0 (estimatedOffset - 100) in
  let searchEnd := Z.min (len textContent) (estimatedOffset + 600) in
  let searchArea := slice textContent searchStart searchEnd in
  let targetIndex := indexOf searchArea targetText in
  if negb (targetIndex =? -1) then
    let absoluteStart := searchStart + targetIndex in
    Some {| TextRange.startOffset := absoluteStart;
            TextRange.endOffset := absoluteStart + len targetText;
            TextRange.text := targetText;
            TextRange.confidence := Some (8 # 10) |}
  else None.

Definition findByElementPath (textContent elementPath targetText : jsstring)
  : option TextRange.t :=
  let index := indexOf textContent targetText in
  if negb (index =? -1) then
    Some {| TextRange.startOffset := index;
            TextRange.endOffset := index + len targetText;
            TextRange.text := targetText;
            TextRange.confidence := Some (9 # 10) |}
  else None.

Definition findByStructuralPath (textContent : jsstring)
    (position : AnnotationPosition.t) : option TextRange.t :=
  let structural := AnnotationPosition.structural position in
  let selectedText := Primary.selectedText (AnnotationPosition.primary position) in
  match StructuralPath.paragraphIndex structural with
  | Some paragraphIndex =>                      (* paragraphIndex !== undefined *)
      findByParagraphIndex textContent paragraphIndex selectedText
  | None =>
      match StructuralPath.elementPath structural with
      | Some (c :: path) =>                     (* truthy elementPath *)
          findByElementPath textContent (c :: path) selectedText
      | _ => None
      end
  end.

End StructuralAnalyzer.

(** ** TextMatchingAlgorithm.ts *)

(** What [new RegExp(pattern, 'gi')] followed by the first element of
    [text.matchAll(regex)] gives: the constructor throws a SyntaxError, or
    there is no match, or the first match with its index and text. *)
Inductive RegExpOutcome :=
| RegExpSyntaxError
| RegExpNoMatch
| RegExpMatch (index : Z) (matched : jsstring).

Module TextMatchingAlgorithm.

(** The RegExp built by [buildContextPattern]: both context strings go
    through [escapeRegex], so the compiled pattern is the literal [before],
    then [.{0,200}], then the literal [after], with flags [gi]. *)
Module ContextPattern.
Record t := { before : jsstring; after : jsstring }.
End ContextPattern.

Definition buildContextPattern (context : ContextInfo.t) : ContextPattern.t :=
  {| ContextPattern.before := ContextInfo.before context;    (* context.before || '' *)
     ContextPattern.after := ContextInfo.after context |}.   (* context.after || '' *)

Definition normalizeText (text : jsstring) : jsstring :=
  let text := collapseSpaces false text in                           (* /\s+/g -> ' ' *)
  let text := filter (fun c => isWord c || isCJK c || isSpace c) text in
  (* only [A-Za-z0-9_], CJK ideographs and white space are left, on which
     toLowerCase changes the Basic Latin capitals and nothing else *)
  let text := map lowerBasic text in
  trim text.

Definition calculateTextSimilarity (text1 text2 : jsstring) : Q :=
  if streq text1 text2 then 1
  else
    let norm1 := normalizeText text1 in
    let norm2 := normalizeText text2 in
    if streq norm1 norm2 then 95 # 100
    else
      let words1 := setOf (splitSpaces norm1) in
      let words2 := setOf (splitSpaces norm2) in
      let intersection := setOf (filter (has words2) words1) in
      let union := setOf (words1 ++ words2) in
      (ofZ (size intersection)
       / ofZ (if size union =? 0 then 1 else size union))%Q.

Definition calculatePositionSimilarity (m : TextMatch.t)
    (position : AnnotationPosition.t) : Q :=
  let originalStart := Primary.startOffset (AnnotationPosition.primary position) in
  let distance := Z.abs (TextMatch.startOffset m - originalStart) in
  let maxDistance := qmax 1000 (ofZ originalStart * (1 # 10)) in
  qmax 0 (1 - ofZ distance / maxDistance)%Q.

Definition calculateLengthSimilarity (m : TextMatch.t)
    (position : AnnotationPosition.t) : Q :=
  let originalLength := len (Primary.selectedText (AnnotationPosition.primary position)) in
  let matchLength := len (TextMatch.text m) in
  if originalLength =? 0 then (if matchLength =? 0 then 1 else 0)
  else (ofZ (Z.min matchLength originalLength)
        / ofZ (Z.max matchLength originalLength))%Q.

Definition calculateMatchScore (m : TextMatch.t) (position : AnnotationPosition.t) : Q :=
  let score := 0%Q in
  let score := (score + calculatePositionSimilarity m position * (3 # 10))%Q in
  let score :=
    (score + calculateTextSimilarity (TextMatch.text m)
               (Primary.selectedText (AnnotationPosition.primary position))
             * (4 # 10))%Q in
  let score := (score + calculateLengthSimilarity m position * (3 # 10))%Q in
  score.

Definition selectBestMatch (matches : list TextMatch.t)
    (position : AnnotationPosition.t) : exec TextMatch.t :=
  match matches with
  | [] => Throws (lit "No matches provided")
  | [m] => Returns m
  | m0 :: _ =>
      Returns
        (fold_left
           (fun best current =>
              let bestScore := calculateMatchScore best position in
              let currentScore := calculateMatchScore current position in
              if Qgt_bool currentScore bestScore then current else best)
           matches m0)
  end.

Definition locateExactText (textContent : jsstring) (m : TextMatch.t)
    (targetText : jsstring) : option TextRange.t :=
  let searchArea :=
    slice textContent (TextMatch.startOffset m) (TextMatch.endOffset m) in
  let targetIndex := indexOf searchArea targetText in
  if negb (targetIndex =? -1) then
    let absoluteStart := TextMatch.startOffset m + targetIndex in
    Some {| TextRange.startOffset := absoluteStart;
            TextRange.endOffset := absoluteStart + len targetText;
            TextRange.text := targetText;
            TextRange.confidence := Some (95 # 100) |}
  else
    Some {| TextRange.startOffset := TextMatch.startOffset m;
            TextRange.endOffset := TextMatch.endOffset m;
            TextRange.text := TextMatch.text m;
            TextRange.confidence := Some (7 # 10) |}.

Definition compareFingerprints (fp1 fp2 : jsstring) : bool :=
  let trigrams1 := setOf (splitChar 124 fp1) in
  let trigrams2 := setOf (splitChar 124 fp2) in
  let intersection := setOf (filter (has trigrams2) trigrams1) in
  let union := setOf (trigrams1 ++ trigrams2) in
  let similarity :=
    (ofZ (size intersection)
     / ofZ (if size union =? 0 then 1 else size union))%Q in
  Qgt_bool similarity (3 # 10).

(** [words.slice(i, i + 3).join(' ')] for [i] from [0] to [words.length - 3]. *)
Fixpoint trigramsOf (words : list jsstring) : list jsstring :=
  match words with
  | a :: ((b :: c :: _) as rest) => join [32] [a; b; c] :: trigramsOf rest
  | _ => []
  end.

Definition findOriginalPosition (originalText : jsstring)
    (normalizedIndex normalizedLength : Z) : Z := normalizedIndex.

Definition findBestSubstringMatch (textContent targetText : jsstring)
  : option TextRange.t :=
  let normalizedTarget := normalizeText targetText in
  let normalizedContent := normalizeText textContent in
  let index := indexOf normalizedContent normalizedTarget in
  if negb (index =? -1) then
    let originalIndex :=
      findOriginalPosition textContent index (len normalizedTarget) in
    if negb (originalIndex =? -1) then
      Some {| TextRange.startOffset := originalIndex;
              TextRange.endOffset := originalIndex + len targetText;
              TextRange.text :=
                slice textContent originalIndex (originalIndex + len targetText);
              TextRange.confidence := Some (8 # 10) |}
    else None
  else None.

Section Host.

(** Canonicalize of a case-insensitive (non-unicode) RegExp, on code units. *)
Variable canonicalize : Z -> Z.
(** String.prototype.toLowerCase. *)
Variable toLowerCase : jsstring -> jsstring.
(** RegExp construction from a pattern string with flags [gi], and the
    first match in a text. *)
Variable regExpFirstMatch : jsstring -> jsstring -> RegExpOutcome.

(** A literal of the pattern against the head of the text. *)
Fixpoint matchLiteral (literal s : jsstring) : bool :=
  match literal, s with
  | [], _ => true
  | a :: literal', b :: s' =>
      (canonicalize a =? canonicalize b) && matchLiteral literal' s'
  | _ :: _, [] => false
  end.

(** How many characters [.] can consume at the head of the text, up to
    [limit]. *)
Fixpoint dotRun (limit : nat) (s : jsstring) : nat :=
  match limit, s with
  | S limit', c :: s' => if isLineTerminator c then O else S (dotRun limit' s')
  | _, _ => O
  end.

(** The greedy [.{0,200}] followed by the literal [after]: the longest gap
    first, then backtracking one character at a time. *)
Fixpoint matchGap (k : nat) (after s : jsstring) : option nat :=
  if matchLiteral after (skipn k s) then Some k
  else match k with
       | O => None
       | S k' => matchGap k' after s
       end.

(** Length of the match of the whole pattern at the head of [s]. *)
Definition matchHere (pattern : ContextPattern.t) (s : jsstring) : option Z :=
  let before := ContextPattern.before pattern in
  let after := ContextPattern.after pattern in
  if matchLiteral before s then
    let s1 := skipn (List.length before) s in
    match matchGap (dotRun 200 s1) after s1 with
    | Some k => Some (len before + Z.of_nat k + len after)
    | None => None
    end
  else None.

(** The scan of [pattern.exec]: the first position from [i] on where the
    pattern matches ([s] is the text from [i] on). *)
Fixpoint execFrom (pattern : ContextPattern.t) (s : jsstring) (i : Z)
  : option (Z * Z) :=
  match s with
  | [] =>
      match matchHere pattern [] with
      | Some l => Some (i, l)
      | None => None
      end
  | _ :: s' =>
      match matchHere pattern s with
      | Some l => Some (i, l)
      | None => execFrom pattern s' (i + 1)
      end
  end.

(** [pattern.exec(text)] with [pattern.lastIndex = lastIndex]: the index
    and the length of the match, or [null]. *)
Definition regExpExec (pattern : ContextPattern.t) (text : jsstring)
    (lastIndex : Z) : option (Z * Z) :=
  if lastIndex >? len text then None
  else execFrom pattern (skipn (Z.to_nat lastIndex) text) lastIndex.

(** The [while ((match = pattern.exec(text)) !== null)] loop; [exec] leaves
    [lastIndex] at the end of the match. *)
Fixpoint findMatchesLoop (fuel : nat) (text : jsstring)
    (pattern : ContextPattern.t) (lastIndex : Z) (matches : list TextMatch.t)
  : exec (list TextMatch.t) :=
  match fuel with
  | O => OutOfFuel
  | S fuel' =>
      match regExpExec pattern text lastIndex with
      | None => Returns matches
      | Some (index, length) =>
          findMatchesLoop fuel' text pattern (index + length)
            (matches ++
             [{| TextMatch.startOffset := index;
                 TextMatch.endOffset := index + length;
                 TextMatch.text := slice text index (index + length);
                 TextMatch.score := 1;
                 TextMatch.method := context_match |}])
      end
  end.

Definition findMatches (fuel : nat) (text : jsstring) (pattern : ContextPattern.t)
  : exec (list TextMatch.t) :=
  findMatchesLoop fuel text pattern 0 [].

Definition findByContextMatch (fuel : nat) (textContent : jsstring)
    (position : AnnotationPosition.t) : exec (option TextRange.t) :=
  let context := AnnotationPosition.context position in
  let primary := AnnotationPosition.primary position in
  let contextPattern := buildContextPattern context in
  bind (findMatches fuel textContent contextPattern) (fun matches =>
  if Z.of_nat (List.length matches) =? 0 then Returns None
  else
    bind (selectBestMatch matches position) (fun bestMatch =>
    Returns (locateExactText textContent bestMatch (Primary.selectedText primary)))).

Definition generateTextFingerprint (text : jsstring) : jsstring :=
  let words :=
    filter (fun word => len word >? 2) (splitSpaces (toLowerCase text)) in
  join [124] (trigramsOf words).

(** The [for (let i = 0; i <= textContent.length - windowSize; i += step)]
    loop. *)
Fixpoint fingerprintLoop (fuel : nat) (textContent targetText fingerprint : jsstring)
    (windowSize step i : Z) : option TextRange.t :=
  match fuel with
  | O => None
  | S fuel' =>
      if i <=? len textContent - windowSize then
        let candidate := slice textContent i (i + windowSize) in
        let candidateFingerprint := generateTextFingerprint candidate in
        if compareFingerprints fingerprint candidateFingerprint then
          let similarity := calculateTextSimilarity targetText candidate in
          if Qgt_bool similarity (8 # 10) then
            Some {| TextRange.startOffset := i;
                    TextRange.endOffset := i + windowSize;
                    TextRange.text := candidate;
                    TextRange.confidence := Some similarity |}
          else
            fingerprintLoop fuel' textContent targetText fingerprint
              windowSize step (i + step)
        else
          fingerprintLoop fuel' textContent targetText fingerprint
            windowSize step (i + step)
      else None
  end.

Definition findByTextFingerprint (textContent : jsstring)
    (position : AnnotationPosition.t) : option TextRange.t :=
  let targetText := Primary.selectedText (AnnotationPosition.primary position) in
  let fingerprint := AnnotationPosition.fingerprint position in
  let windowSize := len targetText in
  let step := Z.max 1 (windowSize / 4) in
  (* the index grows by at least one and stays within the text, so the
     loop body runs at most [textContent.length + 1] times *)
  fingerprintLoop (S (Z.to_nat (len textContent)))
    textContent targetText fingerprint windowSize step 0.

Definition findByFuzzyMatch (textContent : jsstring)
    (position : AnnotationPosition.t) : option TextRange.t :=
  let targetText := Primary.selectedText (AnnotationPosition.primary position) in
  let words := splitSpaces targetText in
  let searchPattern := join (lit "\s*") words in
  let fallback := findBestSubstringMatch textContent targetText in
  match regExpFirstMatch searchPattern textContent with
  | RegExpMatch index matchedText =>
      let similarity := calculateTextSimilarity targetText matchedText in
      if Qgt_bool similarity (6 # 10) then
        Some {| TextRange.startOffset := index;
                TextRange.endOffset := index + len matchedText;
                TextRange.text := matchedText;
                TextRange.confidence := Some similarity |}
      else fallback
  | RegExpNoMatch => fallback
  | RegExpSyntaxError => fallback           (* caught, falls through *)
  end.

End Host.

End TextMatchingAlgorithm.

(** ** PositionService.ts *)

Module PositionService.

(** An entry of the [strategies] array: the method tag and the thunk that
    runs the strategy (the argument is the fuel of the run). *)
Module Strategy.
Record t := {
  method : PositioningMethod;
  execute : nat -> exec (option TextRange.t)
}.
End Strategy.

(** How the [for (const strategy of strategies)] loop is left: by the
    [return] inside it, by running off the end of the array, or not at all
    within the fuel. *)
Inductive LoopExit :=
| LoopReturn (result : PositioningResult.t)
| LoopDone (matches : list AnnotationMatch.t) (errors : list jsstring)
    (strategiesUsed : list PositioningMethod)
| LoopRunning (strategiesUsed : list PositioningMethod).

(** A call of [findAnnotationPosition] either resolves its promise with a
    result or is still inside a strategy, the methods recorded so far being
    [strategiesUsed]. *)
Inductive outcome :=
| Finished (result : PositioningResult.t)
| Unfinished (strategiesUsed : list PositioningMethod).

Definition defaultMinConfidence : Q := 7 # 10.

Definition strategyOrder : list PositioningMethod :=
  [primary_position; context_match; text_fingerprint; structural_path; fuzzy_match].

Definition normalizeText (text : jsstring) : jsstring :=
  let text := collapseSpaces false text in                 (* /\s+/g -> ' ' *)
  let text := filter (fun c => isWord c || isCJK c) text in
  (* only [A-Za-z0-9_] and CJK ideographs are left, on which toLowerCase
     changes the Basic Latin capitals and nothing else *)
  let text := map lowerBasic text in
  trim text.

Definition calculateTextSimilarity (text1 text2 : jsstring) : Q :=
  if streq text1 text2 then 1
  else
    let normalized1 := normalizeText text1 in
    let normalized2 := normalizeText text2 in
    if streq normalized1 normalized2 then 95 # 100
    else
      let words1 := setOf (splitSpaces normalized1) in
      let words2 := setOf (splitSpaces normalized2) in
      let intersection := setOf (filter (has words2) words1) in
      let union := setOf (words1 ++ words2) in
      (ofZ (size intersection) / ofZ (size union))%Q.

Definition generateContextHash (contextBefore selectedText contextAfter : jsstring)
  : jsstring :=
  let combined := contextBefore ++ selectedText ++ contextAfter in
  HashUtil.sha256 combined.

Definition generateTextFingerprint (selectedText contextBefore contextAfter : jsstring)
  : jsstring :=
  let combined := contextBefore ++ selectedText ++ contextAfter in
  let words := filter (fun word => len word >? 2) (splitSpaces combined) in
  let trigrams := TextMatchingAlgorithm.trigramsOf words in
  HashUtil.sha256 (join [124] trigrams).

Definition calculatePositionConfidence (selectionData : SelectionData.t) : Q :=
  let confidence := (5 # 10)%Q in
  let confidence :=
    if len (SelectionData.selectedText selectionData) >? 10
    then (confidence + (1 # 10))%Q else confidence in
  let confidence :=
    if len (SelectionData.selectedText selectionData) >? 50
    then (confidence + (1 # 10))%Q else confidence in
  let confidence :=
    if len (SelectionData.contextBefore selectionData) >? 20
    then (confidence + (1 # 10))%Q else confidence in
  let confidence :=
    if len (SelectionData.contextAfter selectionData) >? 20
    then (confidence + (1 # 10))%Q else confidence in
  let confidence :=
    if truthyString (SelectionData.elementPath selectionData)
    then (confidence + (2 # 10))%Q else confidence in
  qmin confidence 1.

(** [now] is the value of [new Date()]. *)
Definition calculatePosition (now : Z) (textId : jsstring)
    (selectionData : SelectionData.t) : AnnotationPosition.t :=
  let selectedText := SelectionData.selectedText selectionData in
  let startOffset := SelectionData.startOffset selectionData in
  let endOffset := SelectionData.endOffset selectionData in
  let contextBefore := SelectionData.contextBefore selectionData in
  let contextAfter := SelectionData.contextAfter selectionData in
  {| AnnotationPosition.primary :=
       {| Primary.startOffset := startOffset;
          Primary.endOffset := endOffset;
          Primary.selectedText := selectedText |};
     AnnotationPosition.context :=
       {| ContextInfo.before := sliceFrom contextBefore (-50);
          ContextInfo.after := slice contextAfter 0 50;
          ContextInfo.hash :=
            generateContextHash contextBefore selectedText contextAfter |};
     AnnotationPosition.structural :=
       StructuralAnalyzer.analyze textId startOffset endOffset
         (SelectionData.elementPath selectionData);
     AnnotationPosition.fingerprint :=
       generateTextFingerprint selectedText contextBefore contextAfter;
     AnnotationPosition.metadata :=
       {| Metadata.createdAt := now;
          Metadata.textLength := len selectedText;
          Metadata.confidence := calculatePositionConfidence selectionData;
          Metadata.version := None |} |}.

Definition findByPrimaryPosition (textContent : jsstring)
    (position : AnnotationPosition.t) : option TextRange.t :=
  let startOffset := Primary.startOffset (AnnotationPosition.primary position) in
  let endOffset := Primary.endOffset (AnnotationPosition.primary position) in
  let selectedText := Primary.selectedText (AnnotationPosition.primary position) in
  if (startOffset <? 0) || (endOffset >? len textContent) || (startOffset >=? endOffset)
  then None
  else
    let extractedText := slice textContent startOffset endOffset in
    if streq extractedText selectedText then
      Some {| TextRange.startOffset := startOffset;
              TextRange.endOffset := endOffset;
              TextRange.text := extractedText;
              TextRange.confidence := Some 1%Q |}
    else
      let normalizedExtracted := normalizeText extractedText in
      let normalizedSelected := normalizeText selectedText in
      if streq normalizedExtracted normalizedSelected then
        Some {| TextRange.startOffset := startOffset;
                TextRange.endOffset := endOffset;
                TextRange.text := extractedText;
                TextRange.confidence := Some (9 # 10) |}
      else None.

Definition findByStructuralPath (textContent : jsstring)
    (position : AnnotationPosition.t) : option TextRange.t :=
  let structural := AnnotationPosition.structural position in
  if negb (truthyString (StructuralPath.elementPath structural))
     && negb (truthyNumber (StructuralPath.paragraphIndex structural))
  then None
  else StructuralAnalyzer.findByStructuralPath textContent position.

Definition validatePosition (result : TextRange.t)
    (originalPosition : AnnotationPosition.t) : bool :=
  if len (TextRange.text result) =? 0 then false
  else
    let originalLength :=
      len (Primary.selectedText (AnnotationPosition.primary originalPosition)) in
    (* a non-empty text over an empty original has ratio Infinity *)
    if originalLength =? 0 then false
    else
      let lengthRatio := (ofZ (len (TextRange.text result)) / ofZ originalLength)%Q in
      if Qgt_bool (5 # 10) lengthRatio || Qgt_bool lengthRatio 2 then false
      else
        let similarity :=
          calculateTextSimilarity (TextRange.text result)
            (Primary.selectedText (AnnotationPosition.primary originalPosition)) in
        Qge_bool similarity (6 # 10).

Definition calculatePositionAccuracy (result : TextRange.t)
    (originalPosition : AnnotationPosition.t) : Q :=
  let originalStart := Primary.startOffset (AnnotationPosition.primary originalPosition) in
  let originalEnd := Primary.endOffset (AnnotationPosition.primary originalPosition) in
  let startDiff := Z.abs (TextRange.startOffset result - originalStart) in
  let endDiff := Z.abs (TextRange.endOffset result - originalEnd) in
  let textLength := originalEnd - originalStart in
  let maxAllowedDiff := qmax (ofZ textLength * (1 # 10)) 10 in
  let startAccuracy := qmax 0 (1 - ofZ startDiff / maxAllowedDiff)%Q in
  let endAccuracy := qmax 0 (1 - ofZ endDiff / maxAllowedDiff)%Q in
  ((startAccuracy + endAccuracy) / 2)%Q.

Definition calculateLengthConsistency (result : TextRange.t)
    (originalPosition : AnnotationPosition.t) : Q :=
  let originalLength :=
    len (Primary.selectedText (AnnotationPosition.primary originalPosition)) in
  let currentLength := len (TextRange.text result) in
  if originalLength =? 0 then (if currentLength =? 0 then 1 else 0)
  else (ofZ (Z.min currentLength originalLength)
        / ofZ (Z.max currentLength originalLength))%Q.

Definition calculateContextMatch (result : TextRange.t)
    (originalPosition : AnnotationPosition.t) : Q := 8 # 10.

Definition calculateMatchConfidence (result : TextRange.t)
    (originalPosition : AnnotationPosition.t) : Q :=
  let confidence := 0%Q in
  let textSimilarity :=
    calculateTextSimilarity (TextRange.text result)
      (Primary.selectedText (AnnotationPosition.primary originalPosition)) in
  let confidence := (confidence + textSimilarity * (4 # 10))%Q in
  let positionAccuracy := calculatePositionAccuracy result originalPosition in
  let confidence := (confidence + positionAccuracy * (3 # 10))%Q in
  let lengthConsistency := calculateLengthConsistency result originalPosition in
  let confidence := (confidence + lengthConsistency * (2 # 10))%Q in
  let contextMatch := calculateContextMatch result originalPosition in
  let confidence := (confidence + contextMatch * (1 # 10))%Q in
  qmin confidence 1.

(** [newRange.confidence || 0.8] *)
Definition confidenceOrDefault (c : option Q) : Q :=
  match c with
  | Some q => if Qeq_bool q 0 then 8 # 10 else q
  | None => 8 # 10
  end.

Definition updatePosition (originalPosition : AnnotationPosition.t)
    (newRange : TextRange.t) : AnnotationPosition.t :=
  {| AnnotationPosition.primary :=
       {| Primary.startOffset := TextRange.startOffset newRange;
          Primary.endOffset := TextRange.endOffset newRange;
          Primary.selectedText := TextRange.text newRange |};
     AnnotationPosition.context := AnnotationPosition.context originalPosition;
     AnnotationPosition.structural := AnnotationPosition.structural originalPosition;
     AnnotationPosition.fingerprint := AnnotationPosition.fingerprint originalPosition;
     AnnotationPosition.metadata :=
       {| Metadata.createdAt :=
            Metadata.createdAt (AnnotationPosition.metadata originalPosition);
          Metadata.textLength :=
            Metadata.textLength (AnnotationPosition.metadata originalPosition);
          Metadata.confidence := confidenceOrDefault (TextRange.confidence newRange);
          Metadata.version :=
            Metadata.version (AnnotationPosition.metadata originalPosition) |} |}.

(** The body of the [for] loop of [findAnnotationPosition], over the
    strategies that are left.  [startTime] and [now] are the two readings
    of [Date.now()]. *)
Fixpoint strategyLoop (fuel : nat) (position : AnnotationPosition.t)
    (minConfidence : Q) (startTime now : Z) (strategies : list Strategy.t)
    (matches : list AnnotationMatch.t) (errors : list jsstring)
    (strategiesUsed : list PositioningMethod) : LoopExit :=
  match strategies with
  | [] => LoopDone matches errors strategiesUsed
  | strategy :: rest =>
      let strategiesUsed := strategiesUsed ++ [Strategy.method strategy] in
      match Strategy.execute strategy fuel with
      | OutOfFuel => LoopRunning strategiesUsed
      | Throws errorMessage =>
          strategyLoop fuel position minConfidence startTime now rest matches
            (errors ++ [methodName (Strategy.method strategy) ++ lit ": " ++ errorMessage])
            strategiesUsed
      | Returns None =>
          strategyLoop fuel position minConfidence startTime now rest matches
            errors strategiesUsed
      | Returns (Some result) =>
          if validatePosition result position then
            let confidence := calculateMatchConfidence result position in
            let currentMatch :=
              {| AnnotationMatch.range := result;
                 AnnotationMatch.confidence := confidence;
                 AnnotationMatch.method := Strategy.method strategy;
                 AnnotationMatch.strategy := Strategy.method strategy;
                 AnnotationMatch.validationPassed := true |} in
            let matches := matches ++ [currentMatch] in
            if Qge_bool confidence minConfidence then
              LoopReturn
                {| PositioningResult.success := true;
                   PositioningResult.position := Some (updatePosition position result);
                   PositioningResult.matches := [currentMatch];
                   PositioningResult.errors := None;
                   PositioningResult.metadata :=
                     {| ResultMetadata.totalAttempts :=
                          Z.of_nat (List.length strategiesUsed);
                        ResultMetadata.strategiesUsed := strategiesUsed;
                        ResultMetadata.processingTime := now - startTime;
                        ResultMetadata.confidence := confidence |} |}
            else
              strategyLoop fuel position minConfidence startTime now rest matches
                errors strategiesUsed
          else
            strategyLoop fuel position minConfidence startTime now rest matches
              errors strategiesUsed
      end
  end.

(** [matches.reduce((best, current) => current.confidence > best.confidence
    ? current : best)] on a non-empty array. *)
Definition bestOf (first : AnnotationMatch.t) (others : list AnnotationMatch.t)
  : AnnotationMatch.t :=
  fold_left
    (fun best current =>
       if Qgt_bool (AnnotationMatch.confidence current) (AnnotationMatch.confidence best)
       then current else best)
    others first.

Definition failure (startTime now : Z) (matches : list AnnotationMatch.t)
    (errors : list jsstring) (strategiesUsed : list PositioningMethod)
  : PositioningResult.t :=
  {| PositioningResult.success := false;
     PositioningResult.position := None;
     PositioningResult.matches := matches;
     PositioningResult.errors := Some errors;
     PositioningResult.metadata :=
       {| ResultMetadata.totalAttempts := Z.of_nat (List.length strategiesUsed);
          ResultMetadata.strategiesUsed := strategiesUsed;
          ResultMetadata.processingTime := now - startTime;
          ResultMetadata.confidence := 0 |} |}.

(** What follows the loop. *)
Definition afterLoop (position : AnnotationPosition.t) (startTime now : Z)
    (matches : list AnnotationMatch.t) (errors : list jsstring)
    (strategiesUsed : list PositioningMethod) : PositioningResult.t :=
  match matches with
  | first :: others =>
      let bestMatch := bestOf first others in
      if Qge_bool (AnnotationMatch.confidence bestMatch) (5 # 10) then
        {| PositioningResult.success := true;
           PositioningResult.position :=
             Some (updatePosition position (AnnotationMatch.range bestMatch));
           PositioningResult.matches := matches;
           PositioningResult.errors := None;
           PositioningResult.metadata :=
             {| ResultMetadata.totalAttempts := Z.of_nat (List.length strategiesUsed);
                ResultMetadata.strategiesUsed := strategiesUsed;
                ResultMetadata.processingTime := now - startTime;
                ResultMetadata.confidence := AnnotationMatch.confidence bestMatch |} |}
      else failure startTime now matches errors strategiesUsed
  | [] => failure startTime now matches errors strategiesUsed
  end.

Section Host.

Variable canonicalize : Z -> Z.
Variable toLowerCase : jsstring -> jsstring.
Variable regExpFirstMatch : jsstring -> jsstring -> RegExpOutcome.

Definition findByContextMatch (fuel : nat) (textContent : jsstring)
    (position : AnnotationPosition.t) : exec (option TextRange.t) :=
  TextMatchingAlgorithm.findByContextMatch canonicalize fuel textContent position.

Definition findByTextFingerprint (textContent : jsstring)
    (position : AnnotationPosition.t) : option TextRange.t :=
  TextMatchingAlgorithm.findByTextFingerprint toLowerCase textContent position.

Definition findByFuzzyMatch (textContent : jsstring)
    (position : AnnotationPosition.t) : option TextRange.t :=
  TextMatchingAlgorithm.findByFuzzyMatch regExpFirstMatch textContent position.

(** What executing the strategy tagged [method] does. *)
Definition runStrategy (textContent : jsstring) (position : AnnotationPosition.t)
    (method : PositioningMethod) (fuel : nat) : exec (option TextRange.t) :=
  match method with
  | primary_position => Returns (findByPrimaryPosition textContent position)
  | context_match => findByContextMatch fuel textContent position
  | text_fingerprint => Returns (findByTextFingerprint textContent position)
  | structural_path => Returns (findByStructuralPath textContent position)
  | fuzzy_match => Returns (findByFuzzyMatch textContent position)
  end.

Definition strategies (textContent : jsstring) (position : AnnotationPosition.t)
  : list Strategy.t :=
  [ {| Strategy.method := primary_position;
       Strategy.execute := runStrategy textContent position primary_position |};
    {| Strategy.method := context_match;
       Strategy.execute := runStrategy textContent position context_match |};
    {| Strategy.method := text_fingerprint;
       Strategy.execute := runStrategy textContent position text_fingerprint |};
    {| Strategy.method := structural_path;
       Strategy.execute := runStrategy textContent position structural_path |};
    {| Strategy.method := fuzzy_match;
       Strategy.execute := runStrategy textContent position fuzzy_match |} ].

Definition findAnnotationPosition (fuel : nat) (startTime now : Z)
    (textContent : jsstring) (position : AnnotationPosition.t) (minConfidence : Q)
  : outcome :=
  match strategyLoop fuel position minConfidence startTime now
          (strategies textContent position) [] [] [] with
  | LoopReturn result => Finished result
  | LoopRunning strategiesUsed => Unfinished strategiesUsed
  | LoopDone matches errors strategiesUsed =>
      Finished (afterLoop position startTime now matches errors strategiesUsed)
  end.

End Host.

End PositionService.

(** ** A host for closed examples

    The three runtime parameters on texts whose only cased letters are
    Basic Latin, and on patterns made of ordinary characters and [\s*]
    (what [findByFuzzyMatch] builds from a selected text without RegExp
    syntax characters). *)

Module BasicLatinHost.

Definition canonicalize (c : Z) : Z := upperBasic c.

Definition toLowerCase (s : jsstring) : jsstring := map lowerBasic s.

Inductive item :=
| Char (c : Z)
| Spaces.          (* \s* *)

Definition isSyntaxCharacter (c : Z) : bool :=
  existsb (Z.eqb c) [94; 36; 92; 46; 42; 43; 63; 40; 41; 91; 93; 123; 125; 124].

Fixpoint parsePattern (pattern : jsstring) : option (list item) :=
  match pattern with
  | [] => Some []
  | c :: rest =>
      match isPrefix (lit "\s*") pattern, rest with
      | true, _ :: _ :: rest' => option_map (cons Spaces) (parsePattern rest')
      | _, _ =>
          if isSyntaxCharacter c then None
          else option_map (cons (Char c)) (parsePattern rest)
      end
  end.

Fixpoint spaceRun (s : jsstring) : nat :=
  match s with
  | c :: s' => if isSpace c then S (spaceRun s') else O
  | [] => O
  end.

(** Backtracking match of the items at the head of [s]: the length matched. *)
Fixpoint matchItems (items : list item) (s : jsstring) : option nat :=
  match items with
  | [] => Some O
  | Char c :: items' =>
      match s with
      | x :: s' =>
          if canonicalize c =? canonicalize x
          then option_map S (matchItems items' s')
          else None
      | [] => None
      end
  | Spaces :: items' =>
      (fix try (j : nat) : option nat :=
         match matchItems items' (skipn j s) with
         | Some l => Some (j + l)%nat
         | None => match j with
                   | O => None
                   | S j' => try j'
                   end
         end) (spaceRun s)
  end.

Fixpoint searchFrom (items : list item) (s : jsstring) (i : Z) : RegExpOutcome :=
  match s with
  | [] =>
      match matchItems items [] with
      | Some l => RegExpMatch i []
      | None => RegExpNoMatch
      end
  | _ :: s' =>
      match matchItems items s with
      | Some l => RegExpMatch i (firstn l s)
      | None => searchFrom items s' (i + 1)
      end
  end.

(** Patterns outside the fragment are not modelled; they are answered like
    a pattern the constructor rejects. *)
Definition regExpFirstMatch (pattern text : jsstring) : RegExpOutcome :=
  match parsePattern pattern with
  | Some items => searchFrom items text 0
  | None => RegExpSyntaxError
  end.

Definition findAnnotationPosition :=
  PositionService.findAnnotationPosition canonicalize toLowerCase regExpFirstMatch.

End BasicLatinHost.

(** ** Example inputs *)

Module Examples.

(** The document of the round-trip example, seventeen code units: three
    ideographs, a space, the selected two ideographs at offsets 4 and 5,
    eight more characters and three full stops. *)
Definition document : jsstring :=
  [31532; 19968; 26781; 32; 35215; 23450; 22914; 19979; 65306;
   20219; 20309; 20154; 19981; 24471; 46; 46; 46].

(** The selection [[4,6)] with the text around it as captured context. *)
Definition selection : SelectionData.t :=
  {| SelectionData.selectedText := slice document 4 6;
     SelectionData.startOffset := 4;
     SelectionData.endOffset := 6;
     SelectionData.contextBefore := slice document 0 4;
     SelectionData.contextAfter := sliceFrom document 6;
     SelectionData.elementPath := None;
     SelectionData.pageUrl := None |}.

Definition position : AnnotationPosition.t :=
  PositionService.calculatePosition 0 (lit "text-1") selection.

(** Ten unrelated characters inserted before offset 0. *)
Definition inserted : jsstring := lit "0123456789".
Definition driftedDocument : jsstring := inserted ++ document.

(** A selection that covers a whole document, so that no context is
    captured, and the document after the text has been replaced. *)
Definition wholeDocument : jsstring := lit "abc".
Definition wholeSelection : SelectionData.t :=
  {| SelectionData.selectedText := wholeDocument;
     SelectionData.startOffset := 0;
     SelectionData.endOffset := 3;
     SelectionData.contextBefore := [];
     SelectionData.contextAfter := [];
     SelectionData.elementPath := None;
     SelectionData.pageUrl := None |}.
Definition wholePosition : AnnotationPosition.t :=
  PositionService.calculatePosition 0 (lit "text-2") wholeSelection.
Definition replacedDocument : jsstring := lit "xyz".

(** The candidate that context_match finds in the drifted document. *)
Definition driftedCandidate : TextRange.t :=
  {| TextRange.startOffset := 14;
     TextRange.endOffset := 16;
     TextRange.text := [35215; 23450];
     TextRange.confidence := Some (95 # 100) |}.

(** The result of resolving the locator against the drifted document. *)
Definition driftedResult : PositioningResult.t :=
  match BasicLatinHost.findAnnotationPosition 2 0 0 driftedDocument position
          PositionService.defaultMinConfidence with
  | PositionService.Finished res => res
  | PositionService.Unfinished used => PositionService.failure 0 0 [] [] used
  end.

(** The same locator with another stored context hash. *)
Definition rehashedPosition : AnnotationPosition.t :=
  {| AnnotationPosition.primary := AnnotationPosition.primary position;
     AnnotationPosition.context :=
       {| ContextInfo.before := ContextInfo.before (AnnotationPosition.context position);
          ContextInfo.after := ContextInfo.after (AnnotationPosition.context position);
          ContextInfo.hash := lit "0" |};
     AnnotationPosition.structural := AnnotationPosition.structural position;
     AnnotationPosition.fingerprint := AnnotationPosition.fingerprint position;
     AnnotationPosition.metadata := AnnotationPosition.metadata position |}.

(** A locator whose stored fingerprint is a list of trigrams, and a
    document that holds its text at offset 5. *)
Definition trigramPosition : AnnotationPosition.t :=
  {| AnnotationPosition.primary :=
       {| Primary.startOffset := 0;
          Primary.endOffset := 22;
          Primary.selectedText := lit "alpha beta gamma delta" |};
     AnnotationPosition.context :=
       {| ContextInfo.before := []; ContextInfo.after := []; ContextInfo.hash := [] |};
     AnnotationPosition.structural :=
       {| StructuralPath.chapterId := None;
          StructuralPath.articleId := None;
          StructuralPath.sectionId := None;
          StructuralPath.paragraphIndex := None;
          StructuralPath.elementPath := None |};
     AnnotationPosition.fingerprint := lit "alpha beta gamma|beta gamma delta";
     AnnotationPosition.metadata :=
       {| Metadata.createdAt := 0;
          Metadata.textLength := 22;
          Metadata.confidence := 1;
          Metadata.version := None |} |}.
Definition trigramDocument : jsstring := lit "xxxxxalpha beta gamma delta yy".

(** A locator for the text [b!] at offsets 0 and 1, with a context that
    the two-character document [ab] does not hold. *)
Definition punctuatedPosition : AnnotationPosition.t :=
  {| AnnotationPosition.primary :=
       {| Primary.startOffset := 0;
          Primary.endOffset := 2;
          Primary.selectedText := lit "b!" |};
     AnnotationPosition.context :=
       {| ContextInfo.before := lit "zz";
          ContextInfo.after := [];
          ContextInfo.hash := lit "0" |};
     AnnotationPosition.structural :=
       {| StructuralPath.chapterId := None;
          StructuralPath.articleId := None;
          StructuralPath.sectionId := None;
          StructuralPath.paragraphIndex := None;
          StructuralPath.elementPath := None |};
     AnnotationPosition.fingerprint := lit "0";
     AnnotationPosition.metadata :=
       {| Metadata.createdAt := 0;
          Metadata.textLength := 2;
          Metadata.confidence := 1;
          Metadata.version := None |} |}.
Definition shortDocument : jsstring := lit "ab".

End Examples.

(** ** Vocabulary of the statements *)

Module Props.

(** A strategy's run produced a validated candidate that reaches the
    threshold. *)
Definition accepted (position : AnnotationPosition.t) (minConfidence : Q)
    (e : exec (option TextRange.t)) : bool :=
  match e with
  | Returns (Some result) =>
      PositionService.validatePosition result position
      && Qge_bool (PositionService.calculateMatchConfidence result position) minConfidence
  | _ => false
  end.

(** A strategy's run came to an end (it returned or threw) without such a
    candidate. *)
Definition passedOver (position : AnnotationPosition.t) (minConfidence : Q)
    (e : exec (option TextRange.t)) : Prop :=
  e <> OutOfFuel /\ accepted position minConfidence e = false.

(** The entry of [matches] made from a validated candidate. *)
Definition matchOf (position : AnnotationPosition.t) (method : PositioningMethod)
    (result : TextRange.t) : AnnotationMatch.t :=
  {| AnnotationMatch.range := result;
     AnnotationMatch.confidence :=
       PositionService.calculateMatchConfidence result position;
     AnnotationMatch.method := method;
     AnnotationMatch.strategy := method;
     AnnotationMatch.validationPassed := true |}.

(** What a strategy's run adds to [matches] and to [errors]. *)
Definition candidateOf (position : AnnotationPosition.t) (method : PositioningMethod)
    (e : exec (option TextRange.t)) : list AnnotationMatch.t :=
  match e with
  | Returns (Some result) =>
      if PositionService.validatePosition result position
      then [matchOf position method result] else []
  | _ => []
  end.

Definition errorOf (method : PositioningMethod) (e : exec (option TextRange.t))
  : list jsstring :=
  match e with
  | Throws message => [methodName method ++ lit ": " ++ message]
  | _ => []
  end.

(** Two locators that agree on every field except [context.hash]. *)
Definition differOnlyInHash (p1 p2 : AnnotationPosition.t) : Prop :=
  AnnotationPosition.primary p1 = AnnotationPosition.primary p2
  /\ ContextInfo.before (AnnotationPosition.context p1)
     = ContextInfo.before (AnnotationPosition.context p2)
  /\ ContextInfo.after (AnnotationPosition.context p1)
     = ContextInfo.after (AnnotationPosition.context p2)
  /\ AnnotationPosition.structural p1 = AnnotationPosition.structural p2
  /\ AnnotationPosition.fingerprint p1 = AnnotationPosition.fingerprint p2
  /\ AnnotationPosition.metadata p1 = AnnotationPosition.metadata p2.

Definition withHash (h : jsstring) (p : AnnotationPosition.t) : AnnotationPosition.t :=
  {| AnnotationPosition.primary := AnnotationPosition.primary p;
     AnnotationPosition.context :=
       {| ContextInfo.before := ContextInfo.before (AnnotationPosition.context p);
          ContextInfo.after := ContextInfo.after (AnnotationPosition.context p);
          ContextInfo.hash := h |};
     AnnotationPosition.structural := AnnotationPosition.structural p;
     AnnotationPosition.fingerprint := AnnotationPosition.fingerprint p;
     AnnotationPosition.metadata := AnnotationPosition.metadata p |}.

(** The same outcome for another locator and another pair of clock
    readings: the carried-over locator fields and [processingTime] are
    replaced, nothing else. *)
Definition relabelResult (f : AnnotationPosition.t -> AnnotationPosition.t)
    (processingTime : Z) (r : PositioningResult.t) : PositioningResult.t :=
  {| PositioningResult.success := PositioningResult.success r;
     PositioningResult.position := option_map f (PositioningResult.position r);
     PositioningResult.matches := PositioningResult.matches r;
     PositioningResult.errors := PositioningResult.errors r;
     PositioningResult.metadata :=
       {| ResultMetadata.totalAttempts :=
            ResultMetadata.totalAttempts (PositioningResult.metadata r);
          ResultMetadata.strategiesUsed :=
            ResultMetadata.strategiesUsed (PositioningResult.metadata r);
          ResultMetadata.processingTime := processingTime;
          ResultMetadata.confidence :=
            ResultMetadata.confidence (PositioningResult.metadata r) |} |}.

Definition relabel (f : AnnotationPosition.t -> AnnotationPosition.t)
    (processingTime : Z) (o : PositionService.outcome) : PositionService.outcome :=
  match o with
  | PositionService.Finished r =>
      PositionService.Finished (relabelResult f processingTime r)
  | PositionService.Unfinished used => PositionService.Unfinished used
  end.

Definition relabelLoop (f : AnnotationPosition.t -> AnnotationPosition.t)
    (processingTime : Z) (o : PositionService.LoopExit) : PositionService.LoopExit :=
  match o with
  | PositionService.LoopReturn r =>
      PositionService.LoopReturn (relabelResult f processingTime r)
  | other => other
  end.

(** Two outcomes that agree on everything but [processingTime] and the
    [context.hash] carried in the updated locator. *)
Definition sameUpToHash (o1 o2 : PositionService.outcome) : Prop :=
  match o1, o2 with
  | PositionService.Finished r1, PositionService.Finished r2 =>
      PositioningResult.success r1 = PositioningResult.success r2
      /\ PositioningResult.matches r1 = PositioningResult.matches r2
      /\ PositioningResult.errors r1 = PositioningResult.errors r2
      /\ ResultMetadata.totalAttempts (PositioningResult.metadata r1)
         = ResultMetadata.totalAttempts (PositioningResult.metadata r2)
      /\ ResultMetadata.strategiesUsed (PositioningResult.metadata r1)
         = ResultMetadata.strategiesUsed (PositioningResult.metadata r2)
      /\ ResultMetadata.confidence (PositioningResult.metadata r1)
         = ResultMetadata.confidence (PositioningResult.metadata r2)
      /\ match PositioningResult.position r1, PositioningResult.position r2 with
         | Some q1, Some q2 => differOnlyInHash q1 q2
         | None, None => True
         | _, _ => False
         end
  | PositionService.Unfinished used1, PositionService.Unfinished used2 => used1 = used2
  | _, _ => False
  end.

(** The window of the fingerprint strategy at offset [i] passes both the
    fingerprint comparison and the similarity test. *)
Definition windowPasses (toLowerCase : jsstring -> jsstring)
    (textContent targetText fingerprint : jsstring) (i : Z) : bool :=
  let candidate := slice textContent i (i + len targetText) in
  TextMatchingAlgorithm.compareFingerprints fingerprint
    (TextMatchingAlgorithm.generateTextFingerprint toLowerCase candidate)
  && Qgt_bool (TextMatchingAlgorithm.calculateTextSimilarity targetText candidate) (8 # 10).


(** The range the fingerprint strategy returns for the window at [i]. *)
Definition windowRange (textContent targetText : jsstring) (i : Z) : TextRange.t :=
  let candidate := slice textContent i (i + len targetText) in
  {| TextRange.startOffset := i;
     TextRange.endOffset := i + len targetText;
     TextRange.text := candidate;
     TextRange.confidence :=
       Some (TextMatchingAlgorithm.calculateTextSimilarity targetText candidate) |}.

(** The digits that [toString(16)] writes, and the number a string of them
    denotes. *)
Definition isHexDigit (c : Z) : bool :=
  ((48 <=? c) && (c <=? 57)) || ((97 <=? c) && (c <=? 102)).

Definition digitValue (c : Z) : Z := if c <? 58 then c - 48 else c - 87.

Definition hexValue (s : jsstring) : Z :=
  fold_left (fun v c => v * 16 + digitValue c) s 0.

End Props.

(** * Properties *)

(** ** Strings and rationals *)

Lemma streq_spec (a b : jsstring) : streq a b = true <-> a = b.
Proof.
  revert b; induction a as [|x a IH]; intros [|y b]; simpl; split; intro H;
    try reflexivity; try discriminate.
  - apply andb_true_iff in H as [Hx Hab]. apply Z.eqb_eq in Hx.
    apply IH in Hab. now subst.
  - injection H as -> ->. rewrite Z.eqb_refl. simpl. now apply IH.
Qed.

Lemma streq_refl (a : jsstring) : streq a a = true.
Proof. now apply streq_spec. Qed.

Lemma streq_false (a b : jsstring) : streq a b = false <-> a <> b.
Proof.
  split.
  - intros H E. apply streq_spec in E. congruence.
  - intro H. destruct (streq a b) eqn:E; [|reflexivity].
    apply streq_spec in E. contradiction.
Qed.

Lemma len_nonneg (s : jsstring) : 0 <= len s.
Proof. unfold len. lia. Qed.


Lemma len_slice (s : jsstring) (a b : Z) :
  0 <= a <= b -> b <= len s -> len (slice s a b) = b - a.
Proof.
  intros Ha Hb. unfold slice, clampIndex, len in *.
  destruct (Z.ltb_spec a 0); [lia|]. destruct (Z.ltb_spec b 0); [lia|].
  rewrite length_firstn, length_skipn. lia.
Qed.

Lemma In_firstn (A : Type) (n : nat) (l : list A) (x : A) :
  In x (firstn n l) -> In x l.
Proof.
  intro H. rewrite <- (firstn_skipn n l). apply in_or_app. now left.
Qed.

Lemma In_skipn (A : Type) (n : nat) (l : list A) (x : A) :
  In x (skipn n l) -> In x l.
Proof.
  intro H. rewrite <- (firstn_skipn n l). apply in_or_app. now right.
Qed.

Lemma slice_incl (s : jsstring) (a b : Z) : incl (slice s a b) s.
Proof.
  unfold slice. intros c Hc. apply In_firstn in Hc. now apply In_skipn in Hc.
Qed.

Lemma Qge_bool_iff (a b : Q) : Qge_bool a b = true <-> (b <= a)%Q.
Proof. unfold Qge_bool. apply Qle_bool_iff. Qed.

Lemma Qgt_bool_iff (a b : Q) : Qgt_bool a b = true <-> (b < a)%Q.
Proof.
  unfold Qgt_bool. rewrite negb_true_iff. split.
  - intro H. apply Qnot_le_lt. intro L. apply Qle_bool_iff in L. congruence.
  - intro H. destruct (Qle_bool a b) eqn:E; [|reflexivity].
    apply Qle_bool_iff in E. exfalso. eapply Qlt_not_le; eauto.
Qed.

Lemma Qgt_bool_false_iff (a b : Q) : Qgt_bool a b = false <-> (a <= b)%Q.
Proof.
  unfold Qgt_bool. rewrite negb_false_iff. apply Qle_bool_iff.
Qed.

Lemma qmin_compat (a b c : Q) : (a == b)%Q -> (qmin a c == qmin b c)%Q.
Proof.
  intro E. unfold qmin.
  destruct (Qle_bool a c) eqn:Ha, (Qle_bool b c) eqn:Hb; try assumption;
    try reflexivity.
  - apply Qle_bool_iff in Ha. rewrite E in Ha. apply Qle_bool_iff in Ha. congruence.
  - apply Qle_bool_iff in Hb. rewrite <- E in Hb. apply Qle_bool_iff in Hb. congruence.
Qed.

Lemma qmin_le_l (a b : Q) : (a <= b)%Q -> qmin a b = a.
Proof. intro H. unfold qmin. apply Qle_bool_iff in H. now rewrite H. Qed.

Lemma qmax_0_l (a : Q) : (0 <= a)%Q -> qmax 0 a = a.
Proof. intro H. unfold qmax. apply Qle_bool_iff in H. now rewrite H. Qed.

Lemma qmax_ge_r (a b : Q) : (b <= qmax a b)%Q.
Proof.
  unfold qmax. destruct (Qle_bool a b) eqn:E.
  - apply Qle_refl.
  - apply Qlt_le_weak. apply Qgt_bool_iff. unfold Qgt_bool. now rewrite E.
Qed.

Lemma qmax_ge_l (a b : Q) : (a <= qmax a b)%Q.
Proof.
  unfold qmax. destruct (Qle_bool a b) eqn:E.
  - now apply Qle_bool_iff.
  - apply Qle_refl.
Qed.

Lemma ofZ_pos (z : Z) : 0 < z -> (0 < ofZ z)%Q.
Proof. intro H. unfold ofZ, Qlt. simpl. lia. Qed.

Lemma ofZ_div_self (z : Z) : 0 < z -> (ofZ z / ofZ z == 1)%Q.
Proof.
  intro H. apply Qmult_inv_r. intro E. apply ofZ_pos in H. rewrite E in H.
  now apply Qlt_irrefl in H.
Qed.

(** ** The primary-position recheck *)

(** C3. The primary-position recheck never throws; it yields no match when
    the stored offsets are malformed (negative start, end beyond the
    document, start not before end); otherwise the stored range with
    confidence 1.0 when the slice of the document is identical to the
    stored text, with confidence 0.9 when it is identical only after
    normalization, and no match in the remaining case. *)
Theorem findByPrimaryPosition_cases
    (textContent : jsstring) (position : AnnotationPosition.t) :
  let startOffset := Primary.startOffset (AnnotationPosition.primary position) in
  let endOffset := Primary.endOffset (AnnotationPosition.primary position) in
  let selectedText := Primary.selectedText (AnnotationPosition.primary position) in
  let extracted := slice textContent startOffset endOffset in
  let found := PositionService.findByPrimaryPosition textContent position in
  (forall canonicalize toLowerCase regExpFirstMatch fuel,
     PositionService.runStrategy canonicalize toLowerCase regExpFirstMatch
       textContent position primary_position fuel = Returns found)
  /\ (((startOffset < 0 \/ endOffset > len textContent \/ startOffset >= endOffset)
       /\ found = None)
      \/ (0 <= startOffset < endOffset /\ endOffset <= len textContent
          /\ extracted = selectedText
          /\ found = Some {| TextRange.startOffset := startOffset;
                             TextRange.endOffset := endOffset;
                             TextRange.text := extracted;
                             TextRange.confidence := Some 1%Q |})
      \/ (0 <= startOffset < endOffset /\ endOffset <= len textContent
          /\ extracted <> selectedText
          /\ PositionService.normalizeText extracted
             = PositionService.normalizeText selectedText
          /\ found = Some {| TextRange.startOffset := startOffset;
                             TextRange.endOffset := endOffset;
                             TextRange.text := extracted;
                             TextRange.confidence := Some (9 # 10) |})
      \/ (0 <= startOffset < endOffset /\ endOffset <= len textContent
          /\ extracted <> selectedText
          /\ PositionService.normalizeText extracted
             <> PositionService.normalizeText selectedText
          /\ found = None)).
Proof.
  cbv zeta. split; [reflexivity|].
  unfold PositionService.findByPrimaryPosition.
  destruct (Z.ltb_spec (Primary.startOffset (AnnotationPosition.primary position)) 0)
    as [Hs|Hs]; simpl; [left; split; [lia|reflexivity]|].
  destruct (Z.gtb_spec (Primary.endOffset (AnnotationPosition.primary position))
              (len textContent)) as [He|He]; simpl;
    [left; split; [lia|reflexivity]|].
  destruct (Z.geb_spec (Primary.startOffset (AnnotationPosition.primary position))
              (Primary.endOffset (AnnotationPosition.primary position))) as [Hse|Hse];
    [left; split; [lia|reflexivity]|].
  right.
  destruct (streq _ (Primary.selectedText _)) eqn:E1.
  - left. apply streq_spec in E1. repeat split; try lia; assumption.
  - right. apply streq_false in E1.
    destruct (streq (PositionService.normalizeText _) _) eqn:E2.
    + left. apply streq_spec in E2. repeat split; try lia; assumption.
    + right. apply streq_false in E2. repeat split; try lia; assumption.
Qed.

(** ** The confidence blend *)

Lemma validatePosition_lengths (result : TextRange.t) (position : AnnotationPosition.t) :
  PositionService.validatePosition result position = true ->
  0 < len (TextRange.text result)
  /\ 0 < len (Primary.selectedText (AnnotationPosition.primary position)).
Proof.
  unfold PositionService.validatePosition.
  destruct (Z.eqb_spec (len (TextRange.text result)) 0); [discriminate|].
  destruct (Z.eqb_spec
              (len (Primary.selectedText (AnnotationPosition.primary position))) 0);
    [discriminate|].
  intros _. pose proof (len_nonneg (TextRange.text result)).
  pose proof (len_nonneg (Primary.selectedText (AnnotationPosition.primary position))).
  lia.
Qed.

(** C6. For a validated candidate the recomputed confidence is
    0.4 textSimilarity + 0.3 positionAccuracy + 0.2 lengthConsistency
    + 0.1 * 0.8, capped at 1, where positionAccuracy is the mean of the
    start and end accuracies max(0, 1 - offsetDiff / max(0.1 span, 10)),
    lengthConsistency is the smaller of the two text lengths over the
    larger, and the context term is 0.8 whatever the candidate. *)
Theorem calculateMatchConfidence_blend
    (result : TextRange.t) (position : AnnotationPosition.t) :
  PositionService.validatePosition result position = true ->
  let original := AnnotationPosition.primary position in
  let textSimilarity :=
    PositionService.calculateTextSimilarity (TextRange.text result)
      (Primary.selectedText original) in
  let span := ofZ (Primary.endOffset original - Primary.startOffset original) in
  let maxAllowedDiff := qmax (span * (1 # 10)) 10 in
  let accuracy (offsetDiff : Z) := qmax 0 (1 - ofZ offsetDiff / maxAllowedDiff)%Q in
  let positionAccuracy :=
    ((accuracy (Z.abs (TextRange.startOffset result - Primary.startOffset original))
      + accuracy (Z.abs (TextRange.endOffset result - Primary.endOffset original)))
     / 2)%Q in
  let lengthConsistency :=
    (ofZ (Z.min (len (TextRange.text result)) (len (Primary.selectedText original)))
     / ofZ (Z.max (len (TextRange.text result)) (len (Primary.selectedText original))))%Q in
  (PositionService.calculateMatchConfidence result position
   == qmin ((4 # 10) * textSimilarity + (3 # 10) * positionAccuracy
            + (2 # 10) * lengthConsistency + (1 # 10) * (8 # 10)) 1)%Q
  /\ PositionService.calculatePositionAccuracy result position = positionAccuracy
  /\ PositionService.calculateLengthConsistency result position = lengthConsistency
  /\ (forall anyResult anyPosition,
        PositionService.calculateContextMatch anyResult anyPosition = 8 # 10).
Proof.
  intros Hv. cbv zeta.
  destruct (validatePosition_lengths _ _ Hv) as [_ Ho].
  assert (Hlc : PositionService.calculateLengthConsistency result position
                = (ofZ (Z.min (len (TextRange.text result))
                          (len (Primary.selectedText (AnnotationPosition.primary position))))
                   / ofZ (Z.max (len (TextRange.text result))
                            (len (Primary.selectedText (AnnotationPosition.primary position)))))%Q).
  { unfold PositionService.calculateLengthConsistency.
    destruct (Z.eqb_spec
                (len (Primary.selectedText (AnnotationPosition.primary position))) 0);
      [lia|reflexivity]. }
  repeat split; try assumption; try reflexivity.
  unfold PositionService.calculateMatchConfidence. cbv zeta.
  rewrite Hlc. unfold PositionService.calculateContextMatch.
  apply qmin_compat.
  unfold PositionService.calculatePositionAccuracy. cbv zeta. ring.
Qed.

(** ** The context pattern and the [exec] loop *)

Section ContextPatternFacts.

Variable canonicalize : Z -> Z.

Lemma matchLiteral_length (literal s : jsstring) :
  TextMatchingAlgorithm.matchLiteral canonicalize literal s = true ->
  (List.length literal <= List.length s)%nat.
Proof.
  revert s. induction literal as [|a l IH]; intros [|b s]; simpl; intro H;
    try lia; try discriminate.
  apply andb_true_iff in H as [_ H]. apply IH in H. lia.
Qed.

Lemma dotRun_le (limit : nat) (s : jsstring) :
  (TextMatchingAlgorithm.dotRun limit s <= List.length s)%nat.
Proof.
  revert s. induction limit as [|n IH]; intros [|c s]; simpl; try lia.
  destruct (isLineTerminator c); [lia|]. specialize (IH s). lia.
Qed.

Lemma matchGap_sound (k : nat) (after s : jsstring) (j : nat) :
  TextMatchingAlgorithm.matchGap canonicalize k after s = Some j ->
  (j <= k)%nat /\ TextMatchingAlgorithm.matchLiteral canonicalize after (skipn j s) = true.
Proof.
  induction k as [|k IH]; cbn [TextMatchingAlgorithm.matchGap].
  - destruct (TextMatchingAlgorithm.matchLiteral canonicalize after (skipn 0 s)) eqn:E;
      [|discriminate].
    intros [= <-]. split; [lia|exact E].
  - destruct (TextMatchingAlgorithm.matchLiteral canonicalize after (skipn (S k) s)) eqn:E.
    + intros [= <-]. split; [lia|exact E].
    + intro H. apply IH in H as [? ?]. split; [lia|assumption].
Qed.

Lemma matchHere_bounds (pattern : TextMatchingAlgorithm.ContextPattern.t)
    (s : jsstring) (l : Z) :
  TextMatchingAlgorithm.matchHere canonicalize pattern s = Some l ->
  len (TextMatchingAlgorithm.ContextPattern.before pattern)
  + len (TextMatchingAlgorithm.ContextPattern.after pattern) <= l <= len s.
Proof.
  unfold TextMatchingAlgorithm.matchHere.
  destruct (TextMatchingAlgorithm.matchLiteral canonicalize
              (TextMatchingAlgorithm.ContextPattern.before pattern) s) eqn:Hb;
    [|discriminate].
  destruct (TextMatchingAlgorithm.matchGap _ _ _ _) as [j|] eqn:Hg; [|discriminate].
  intros [= <-]. apply matchLiteral_length in Hb.
  apply matchGap_sound in Hg as [Hj Ha]. apply matchLiteral_length in Ha.
  pose proof (dotRun_le 200
                (skipn (List.length (TextMatchingAlgorithm.ContextPattern.before pattern)) s))
    as Hd.
  rewrite !length_skipn in Ha. rewrite length_skipn in Hd. unfold len. lia.
Qed.

Lemma execFrom_bounds (pattern : TextMatchingAlgorithm.ContextPattern.t)
    (s : jsstring) (i index l : Z) :
  TextMatchingAlgorithm.execFrom canonicalize pattern s i = Some (index, l) ->
  i <= index /\ index + l <= i + len s
  /\ len (TextMatchingAlgorithm.ContextPattern.before pattern)
     + len (TextMatchingAlgorithm.ContextPattern.after pattern) <= l.
Proof.
  revert i. induction s as [|c s IH]; intro i; simpl.
  - destruct (TextMatchingAlgorithm.matchHere canonicalize pattern []) as [l0|] eqn:E;
      [|discriminate].
    intros [= <- <-]. apply matchHere_bounds in E. lia.
  - destruct (TextMatchingAlgorithm.matchHere canonicalize pattern (c :: s)) as [l0|] eqn:E.
    + intros [= <- <-]. apply matchHere_bounds in E. lia.
    + intro H. apply IH in H. unfold len in *. simpl List.length. lia.
Qed.

Lemma regExpExec_bounds (pattern : TextMatchingAlgorithm.ContextPattern.t)
    (text : jsstring) (lastIndex index l : Z) :
  0 <= lastIndex ->
  TextMatchingAlgorithm.regExpExec canonicalize pattern text lastIndex = Some (index, l) ->
  lastIndex <= index /\ index + l <= len text
  /\ len (TextMatchingAlgorithm.ContextPattern.before pattern)
     + len (TextMatchingAlgorithm.ContextPattern.after pattern) <= l.
Proof.
  intros H0. unfold TextMatchingAlgorithm.regExpExec.
  destruct (Z.gtb_spec lastIndex (len text)) as [Hgt|Hle]; [discriminate|].
  intro Hx. apply execFrom_bounds in Hx. unfold len in *.
  rewrite length_skipn in Hx. lia.
Qed.

(** With a non-empty context every match consumes a character, and the
    loop ends within [text.length + 2] calls of [exec]. *)
Lemma findMatchesLoop_returns (pattern : TextMatchingAlgorithm.ContextPattern.t)
    (text : jsstring) :
  0 < len (TextMatchingAlgorithm.ContextPattern.before pattern)
      + len (TextMatchingAlgorithm.ContextPattern.after pattern) ->
  forall fuel lastIndex matches,
    0 <= lastIndex ->
    (Z.to_nat (len text - lastIndex) + 2 <= fuel)%nat ->
    exists found,
      TextMatchingAlgorithm.findMatchesLoop canonicalize fuel text pattern lastIndex
        matches = Returns found.
Proof.
  intros Hne. induction fuel as [|fuel IH]; intros lastIndex matches H0 Hf; [lia|].
  simpl.
  destruct (TextMatchingAlgorithm.regExpExec canonicalize pattern text lastIndex)
    as [[index l]|] eqn:E; [|eauto].
  apply regExpExec_bounds in E; [|assumption].
  apply IH; lia.
Qed.

Lemma matchHere_empty (pattern : TextMatchingAlgorithm.ContextPattern.t) (s : jsstring) :
  TextMatchingAlgorithm.ContextPattern.before pattern = [] ->
  TextMatchingAlgorithm.ContextPattern.after pattern = [] ->
  TextMatchingAlgorithm.matchHere canonicalize pattern s
  = Some (Z.of_nat (TextMatchingAlgorithm.dotRun 200 s)).
Proof.
  intros Hb Ha. unfold TextMatchingAlgorithm.matchHere.
  rewrite Hb, Ha. simpl TextMatchingAlgorithm.matchLiteral. cbv iota.
  simpl skipn.
  destruct (TextMatchingAlgorithm.dotRun 200 s); simpl; f_equal; lia.
Qed.

(** With both context strings empty [exec] always finds a match at
    [lastIndex], possibly an empty one. *)
Lemma regExpExec_empty (pattern : TextMatchingAlgorithm.ContextPattern.t)
    (text : jsstring) (lastIndex : Z) :
  TextMatchingAlgorithm.ContextPattern.before pattern = [] ->
  TextMatchingAlgorithm.ContextPattern.after pattern = [] ->
  0 <= lastIndex <= len text ->
  exists l, TextMatchingAlgorithm.regExpExec canonicalize pattern text lastIndex
            = Some (lastIndex, l)
            /\ 0 <= l /\ lastIndex + l <= len text.
Proof.
  intros Hb Ha Hi. unfold TextMatchingAlgorithm.regExpExec.
  destruct (Z.gtb_spec lastIndex (len text)); [lia|].
  set (s := skipn (Z.to_nat lastIndex) text).
  exists (Z.of_nat (TextMatchingAlgorithm.dotRun 200 s)).
  pose proof (dotRun_le 200 s) as Hd.
  assert (Hl : List.length s = (List.length text - Z.to_nat lastIndex)%nat)
    by (unfold s; apply length_skipn).
  unfold len in *.
  split; [|lia].
  destruct s as [|c s']; simpl TextMatchingAlgorithm.execFrom;
    rewrite (matchHere_empty _ _ Hb Ha); reflexivity.
Qed.

(** ... so the loop never ends: whatever the fuel, it is still running. *)
Lemma findMatchesLoop_diverges (pattern : TextMatchingAlgorithm.ContextPattern.t)
    (text : jsstring) :
  TextMatchingAlgorithm.ContextPattern.before pattern = [] ->
  TextMatchingAlgorithm.ContextPattern.after pattern = [] ->
  forall fuel lastIndex matches,
    0 <= lastIndex <= len text ->
    TextMatchingAlgorithm.findMatchesLoop canonicalize fuel text pattern lastIndex
      matches = OutOfFuel.
Proof.
  intros Hb Ha. induction fuel as [|fuel IH]; intros lastIndex matches Hi;
    [reflexivity|].
  simpl. destruct (regExpExec_empty _ text Hb Ha Hi) as (l & E & Hl0 & Hl).
  rewrite E. apply IH. lia.
Qed.


Lemma findByContextMatch_diverges (fuel : nat) (text : jsstring)
    (position : AnnotationPosition.t) :
  ContextInfo.before (AnnotationPosition.context position) = [] ->
  ContextInfo.after (AnnotationPosition.context position) = [] ->
  TextMatchingAlgorithm.findByContextMatch canonicalize fuel text position
  = OutOfFuel.
Proof.
  intros Hb Ha. unfold TextMatchingAlgorithm.findByContextMatch,
    TextMatchingAlgorithm.findMatches.
  pose proof (findMatchesLoop_diverges
                (TextMatchingAlgorithm.buildContextPattern
                   (AnnotationPosition.context position)) text Hb Ha fuel
                (lastIndex := 0) [] ) as E.
  rewrite E; [reflexivity|].
  pose proof (len_nonneg text). lia.
Qed.

End ContextPatternFacts.

(** ** The strategy loop *)

Section Cascade.

Variables (fuel : nat) (position : AnnotationPosition.t) (minConfidence : Q)
          (startTime now : Z).

Ltac known :=
  repeat match goal with
         | H : PositionService.validatePosition _ _ = _ |- _ => rewrite H
         | H : Qge_bool _ _ = _ |- _ => rewrite H
         end.

Ltac passed E :=
  split; [rewrite E; discriminate | rewrite E; simpl; known; auto].

Ltac continue IH a E :=
  match goal with
  | |- context [PositionService.strategyLoop _ _ _ _ _ ?rest ?m ?e ?u] =>
      specialize (IH m e u);
      destruct (PositionService.strategyLoop fuel position minConfidence
                  startTime now rest m e u) as [res|ms es us|us]
  end;
  [ destruct IH as (pre & s & post & r' & Hs & Hpre & Hr & Hv & Hc & Hres);
    exists (a :: pre), s, post, r';
    split; [rewrite Hs; reflexivity|];
    split; [constructor; [passed E|assumption]|];
    split; [assumption|]; split; [assumption|]; split; [assumption|];
    rewrite Hres; simpl; rewrite <- !app_assoc; reflexivity
  | destruct IH as (Hall & Hm & He & Hu);
    split; [constructor; [passed E|assumption]|];
    split; [rewrite Hm; simpl; rewrite E; simpl; known; rewrite <- ?app_assoc; reflexivity|];
    split; [rewrite He; simpl; rewrite E; simpl; rewrite <- ?app_assoc; reflexivity|];
    rewrite Hu; simpl; rewrite <- app_assoc; reflexivity
  | destruct IH as (pre & s & post & Hs & Hpre & Hr & Hu);
    exists (a :: pre), s, post;
    split; [rewrite Hs; reflexivity|];
    split; [constructor; [passed E|assumption]|];
    split; [assumption|];
    rewrite Hu; simpl; rewrite <- !app_assoc; reflexivity ].

(** The loop attempts the strategies in array order and records each one
    before running it; it is left by [return] at the first strategy whose
    candidate is validated and reaches the threshold, it is still inside
    a strategy that has not come back, or it has gone through the whole
    array, with the validated candidates and the error messages collected
    in order. *)
Lemma strategyLoop_trace (strategies : list PositionService.Strategy.t) :
  forall matches errors used,
  match PositionService.strategyLoop fuel position minConfidence startTime now
          strategies matches errors used with
  | PositionService.LoopReturn res =>
      exists pre s post r,
        strategies = pre ++ s :: post
        /\ Forall (fun s' => Props.passedOver position minConfidence
                               (PositionService.Strategy.execute s' fuel)) pre
        /\ PositionService.Strategy.execute s fuel = Returns (Some r)
        /\ PositionService.validatePosition r position = true
        /\ Qge_bool (PositionService.calculateMatchConfidence r position) minConfidence
           = true
        /\ res =
           {| PositioningResult.success := true;
              PositioningResult.position :=
                Some (PositionService.updatePosition position r);
              PositioningResult.matches :=
                [Props.matchOf position (PositionService.Strategy.method s) r];
              PositioningResult.errors := None;
              PositioningResult.metadata :=
                {| ResultMetadata.totalAttempts :=
                     Z.of_nat
                       (List.length
                          (used ++ map (fun s' => PositionService.Strategy.method s')
                                     (pre ++ [s])));
                   ResultMetadata.strategiesUsed :=
                     used ++ map (fun s' => PositionService.Strategy.method s') (pre ++ [s]);
                   ResultMetadata.processingTime := now - startTime;
                   ResultMetadata.confidence :=
                     PositionService.calculateMatchConfidence r position |} |}
  | PositionService.LoopDone found thrown recorded =>
      Forall (fun s' => Props.passedOver position minConfidence
                          (PositionService.Strategy.execute s' fuel)) strategies
      /\ found = matches
                 ++ flat_map
                      (fun s' => Props.candidateOf position
                                   (PositionService.Strategy.method s')
                                   (PositionService.Strategy.execute s' fuel))
                      strategies
      /\ thrown = errors
                  ++ flat_map
                       (fun s' => Props.errorOf (PositionService.Strategy.method s')
                                    (PositionService.Strategy.execute s' fuel))
                       strategies
      /\ recorded = used ++ map (fun s' => PositionService.Strategy.method s') strategies
  | PositionService.LoopRunning recorded =>
      exists pre s post,
        strategies = pre ++ s :: post
        /\ Forall (fun s' => Props.passedOver position minConfidence
                               (PositionService.Strategy.execute s' fuel)) pre
        /\ PositionService.Strategy.execute s fuel = OutOfFuel
        /\ recorded = used ++ map (fun s' => PositionService.Strategy.method s') (pre ++ [s])
  end.
Proof.
  induction strategies as [|a rest IH]; intros matches errors used.
  - simpl. rewrite !app_nil_r. repeat split. constructor.
  - cbn [PositionService.strategyLoop].
    destruct (PositionService.Strategy.execute a fuel) as [[r|]|message|] eqn:E.
    + destruct (PositionService.validatePosition r position) eqn:V.
      * destruct (Qge_bool (PositionService.calculateMatchConfidence r position)
                    minConfidence) eqn:G.
        -- exists [], a, rest, r. repeat split; try assumption. constructor.
        -- continue IH a E.
      * continue IH a E.
    + continue IH a E.
    + continue IH a E.
    + exists [], a, rest. repeat split; try assumption. constructor.
Qed.

End Cascade.

(** ** The resolution cascade *)

Section Resolution.

Variable canonicalize : Z -> Z.
Variable toLowerCase : jsstring -> jsstring.
Variable regExpFirstMatch : jsstring -> jsstring -> RegExpOutcome.




Lemma flat_map_methods (fuel : nat) (textContent : jsstring)
    (position : AnnotationPosition.t) :
  flat_map (fun s => Props.candidateOf position (PositionService.Strategy.method s)
                       (PositionService.Strategy.execute s fuel))
    (PositionService.strategies canonicalize toLowerCase regExpFirstMatch
       textContent position)
  = flat_map (fun m => Props.candidateOf position m
                         (PositionService.runStrategy canonicalize toLowerCase
                            regExpFirstMatch textContent position m fuel))
      PositionService.strategyOrder.
Proof. reflexivity. Qed.




End Resolution.

(** ** What a resolution changes in the locator *)

Lemma bestOf_In (first : AnnotationMatch.t) (others : list AnnotationMatch.t) :
  In (PositionService.bestOf first others) (first :: others).
Proof.
  unfold PositionService.bestOf. revert first.
  induction others as [|x others IH]; intro first; simpl; [now left|].
  destruct (Qgt_bool _ _).
  - destruct (IH x) as [E|E]; [right; left; exact E | right; right; exact E].
  - destruct (IH first) as [E|E]; [left; exact E | right; right; exact E].
Qed.

Section Frame.

Variable canonicalize : Z -> Z.
Variable toLowerCase : jsstring -> jsstring.
Variable regExpFirstMatch : jsstring -> jsstring -> RegExpOutcome.

(** C9. Whenever findAnnotationPosition returns success, the locator in
    the result is the input locator with new primary offsets and text and a
    new metadata.confidence: context, fingerprint, structural fields,
    metadata.createdAt, metadata.textLength (and version) are those of the
    input. *)
Theorem updated_position_frame (fuel : nat) (startTime now : Z)
    (textContent : jsstring) (position : AnnotationPosition.t) (minConfidence : Q)
    (res : PositioningResult.t) :
  PositionService.findAnnotationPosition canonicalize toLowerCase regExpFirstMatch
    fuel startTime now textContent position minConfidence
  = PositionService.Finished res ->
  PositioningResult.success res = true ->
  exists updated,
    PositioningResult.position res = Some updated
    /\ AnnotationPosition.context updated = AnnotationPosition.context position
    /\ AnnotationPosition.fingerprint updated = AnnotationPosition.fingerprint position
    /\ AnnotationPosition.structural updated = AnnotationPosition.structural position
    /\ Metadata.createdAt (AnnotationPosition.metadata updated)
       = Metadata.createdAt (AnnotationPosition.metadata position)
    /\ Metadata.textLength (AnnotationPosition.metadata updated)
       = Metadata.textLength (AnnotationPosition.metadata position)
    /\ Metadata.version (AnnotationPosition.metadata updated)
       = Metadata.version (AnnotationPosition.metadata position)
    /\ exists m,
         In m (PositioningResult.matches res)
         /\ Primary.startOffset (AnnotationPosition.primary updated)
            = TextRange.startOffset (AnnotationMatch.range m)
         /\ Primary.endOffset (AnnotationPosition.primary updated)
            = TextRange.endOffset (AnnotationMatch.range m)
         /\ Primary.selectedText (AnnotationPosition.primary updated)
            = TextRange.text (AnnotationMatch.range m)
         /\ Metadata.confidence (AnnotationPosition.metadata updated)
            = PositionService.confidenceOrDefault
                (TextRange.confidence (AnnotationMatch.range m)).
Proof.
  unfold PositionService.findAnnotationPosition.
  pose proof (strategyLoop_trace fuel position minConfidence startTime now
                (PositionService.strategies canonicalize toLowerCase regExpFirstMatch
                   textContent position) [] [] []) as T.
  destruct (PositionService.strategyLoop _ _ _ _ _ _ _ _ _) as [r0|found thrown used|used];
    [| |discriminate].
  - destruct T as (pre & s & post & r & _ & _ & _ & _ & _ & ->).
    intros [= <-] _. eexists. split; [reflexivity|].
    repeat (split; [reflexivity|]).
    eexists. split; [left; reflexivity|]. repeat split.
  - clear T. intros [= <-]. unfold PositionService.afterLoop.
    destruct found as [|first others]; [discriminate|].
    pose proof (bestOf_In first others) as Hin.
    destruct (Qge_bool _ _); [|discriminate].
    intros _. eexists. split; [reflexivity|].
    repeat (split; [reflexivity|]).
    exists (PositionService.bestOf first others). split; [exact Hin|].
    repeat split.
Qed.

(** ** The stored context hash *)

Lemma runStrategy_withHash (h : jsstring) (textContent : jsstring)
    (position : AnnotationPosition.t) (m : PositioningMethod) (fuel : nat) :
  PositionService.runStrategy canonicalize toLowerCase regExpFirstMatch
    textContent (Props.withHash h position) m fuel
  = PositionService.runStrategy canonicalize toLowerCase regExpFirstMatch
      textContent position m fuel.
Proof. destruct m; reflexivity. Qed.

Lemma strategyLoop_withHash (h : jsstring) (fuel : nat)
    (position : AnnotationPosition.t) (minConfidence : Q)
    (startTime now startTime' now' : Z)
    (strategies strategies' : list PositionService.Strategy.t) :
  Forall2 (fun s s' => PositionService.Strategy.method s' = PositionService.Strategy.method s
                       /\ PositionService.Strategy.execute s' fuel
                          = PositionService.Strategy.execute s fuel)
    strategies strategies' ->
  forall matches errors used,
    PositionService.strategyLoop fuel (Props.withHash h position) minConfidence
      startTime' now' strategies' matches errors used
    = Props.relabelLoop (Props.withHash h) (now' - startTime')
        (PositionService.strategyLoop fuel position minConfidence startTime now
           strategies matches errors used).
Proof.
  induction 1 as [|s s' rest rest' [Hm He] _ IH]; intros matches errors used;
    [reflexivity|].
  cbn [PositionService.strategyLoop]. rewrite Hm, He.
  destruct (PositionService.Strategy.execute s fuel) as [[r|]|message|];
    try apply IH; [|reflexivity].
  change (PositionService.validatePosition r (Props.withHash h position))
    with (PositionService.validatePosition r position).
  change (PositionService.calculateMatchConfidence r (Props.withHash h position))
    with (PositionService.calculateMatchConfidence r position).
  destruct (PositionService.validatePosition r position); [|apply IH].
  destruct (Qge_bool _ _); [reflexivity|apply IH].
Qed.

Lemma findAnnotationPosition_withHash (h : jsstring) (fuel : nat)
    (startTime now startTime' now' : Z) (textContent : jsstring)
    (position : AnnotationPosition.t) (minConfidence : Q) :
  PositionService.findAnnotationPosition canonicalize toLowerCase regExpFirstMatch
    fuel startTime' now' textContent (Props.withHash h position) minConfidence
  = Props.relabel (Props.withHash h) (now' - startTime')
      (PositionService.findAnnotationPosition canonicalize toLowerCase regExpFirstMatch
         fuel startTime now textContent position minConfidence).
Proof.
  unfold PositionService.findAnnotationPosition.
  rewrite (@strategyLoop_withHash h fuel position minConfidence startTime now
             startTime' now'
             (PositionService.strategies canonicalize toLowerCase regExpFirstMatch
                textContent position)).
  - destruct (PositionService.strategyLoop fuel position minConfidence startTime now
                _ [] [] []) as [r|found thrown used|used]; try reflexivity.
    simpl. f_equal. unfold PositionService.afterLoop.
    destruct found as [|first others]; [reflexivity|].
    destruct (Qge_bool _ _); reflexivity.
  - unfold PositionService.strategies.
    repeat (constructor; [split; [reflexivity|apply runStrategy_withHash]|]).
    constructor.
Qed.

Lemma differOnlyInHash_withHash (p1 p2 : AnnotationPosition.t) :
  Props.differOnlyInHash p1 p2 ->
  p2 = Props.withHash (ContextInfo.hash (AnnotationPosition.context p2)) p1.
Proof.
  destruct p1 as [pr1 [b1 a1 h1] s1 f1 m1], p2 as [pr2 [b2 a2 h2] s2 f2 m2].
  unfold Props.differOnlyInHash, Props.withHash. simpl.
  intros (-> & -> & -> & -> & -> & ->). reflexivity.
Qed.

(** C10. Two stored locators that differ only in context.hash give the
    same outcome on every text and threshold (the same success flag,
    matches, errors, attempted methods and confidences, the same resolved
    offsets and text), whatever the clock readings: only processingTime and
    the hash carried along in the updated locator may differ.  No strategy
    reads context.hash. *)
Theorem context_hash_noninterference (fuel : nat)
    (startTime1 now1 startTime2 now2 : Z) (textContent : jsstring)
    (position1 position2 : AnnotationPosition.t) (minConfidence : Q) :
  Props.differOnlyInHash position1 position2 ->
  Props.sameUpToHash
    (PositionService.findAnnotationPosition canonicalize toLowerCase regExpFirstMatch
       fuel startTime1 now1 textContent position1 minConfidence)
    (PositionService.findAnnotationPosition canonicalize toLowerCase regExpFirstMatch
       fuel startTime2 now2 textContent position2 minConfidence)
  /\ forall m,
       PositionService.runStrategy canonicalize toLowerCase regExpFirstMatch
         textContent position1 m fuel
       = PositionService.runStrategy canonicalize toLowerCase regExpFirstMatch
           textContent position2 m fuel.
Proof.
  intro Hd. rewrite (differOnlyInHash_withHash Hd).
  split; [|intro m; symmetry; apply runStrategy_withHash].
  rewrite (findAnnotationPosition_withHash _ fuel startTime1 now1 startTime2 now2).
  destruct (PositionService.findAnnotationPosition canonicalize toLowerCase
              regExpFirstMatch fuel startTime1 now1 textContent position1 minConfidence)
    as [r|used]; simpl; [|reflexivity].
  repeat (split; [reflexivity|]).
  destruct (PositioningResult.position r) as [q|]; simpl; [|exact I].
  unfold Props.differOnlyInHash. simpl. repeat split.
Qed.

End Frame.

(** ** The fingerprint strategy *)

Section Fingerprint.

Variable toLowerCase : jsstring -> jsstring.
Variables textContent targetText fingerprint : jsstring.
Variable step : Z.
Hypothesis step_positive : 1 <= step.

Ltac next_window IH Hshift Hacc :=
  match goal with
  | |- match ?loop with _ => _ end =>
      destruct loop as [r|];
      [ destruct IH as (j & Hj & Hok & Hbefore & ->);
        exists (S j); rewrite <- !Hshift;
        repeat split; try assumption;
        intros [|j'] Hj';
        [ simpl Z.of_nat; rewrite Z.mul_0_l, Z.add_0_r; exact Hacc
        | rewrite <- Hshift; apply Hbefore; lia ]
      | intros [|j] Hj;
        [ simpl Z.of_nat; rewrite Z.mul_0_l, Z.add_0_r; exact Hacc
        | rewrite <- Hshift; apply IH; rewrite Hshift; exact Hj ] ]
  end.

(** The loop from offset [i] on: the first window [i + j * step] that
    passes, or none. *)
Lemma fingerprintLoop_windows :
  forall fuel i,
    len textContent - len targetText - i < Z.of_nat fuel ->
    match TextMatchingAlgorithm.fingerprintLoop toLowerCase fuel textContent
            targetText fingerprint (len targetText) step i with
    | Some r =>
        exists j : nat,
          i + Z.of_nat j * step <= len textContent - len targetText
          /\ Props.windowPasses toLowerCase textContent targetText fingerprint
               (i + Z.of_nat j * step) = true
          /\ (forall j' : nat, (j' < j)%nat ->
                Props.windowPasses toLowerCase textContent targetText fingerprint
                  (i + Z.of_nat j' * step) = false)
          /\ r = Props.windowRange textContent targetText (i + Z.of_nat j * step)
    | None =>
        forall j : nat,
          i + Z.of_nat j * step <= len textContent - len targetText ->
          Props.windowPasses toLowerCase textContent targetText fingerprint
            (i + Z.of_nat j * step) = false
    end.
Proof.
  induction fuel as [|fuel IH]; intros i Hfuel.
  - simpl. intros j Hj. exfalso. nia.
  - cbn [TextMatchingAlgorithm.fingerprintLoop].
    destruct (Z.leb_spec i (len textContent - len targetText)) as [Hi|Hi];
      [|intros j Hj; exfalso; nia].
    assert (Hnext : len textContent - len targetText - (i + step) < Z.of_nat fuel)
      by lia.
    specialize (IH (i + step) Hnext).
    assert (Hshift : forall j : nat,
               i + step + Z.of_nat j * step = i + Z.of_nat (S j) * step)
      by (intro j; rewrite Nat2Z.inj_succ; ring).
    destruct (Props.windowPasses toLowerCase textContent targetText fingerprint i)
      eqn:Hacc; pose proof Hacc as Hacc'; unfold Props.windowPasses in Hacc';
      cbv zeta in Hacc'.
    + apply andb_true_iff in Hacc' as [Hgate Hsim]. rewrite Hgate, Hsim.
      exists O. simpl Z.of_nat. rewrite Z.mul_0_l, Z.add_0_r.
      repeat split; try assumption. intros j' Hj'. lia.
    + destruct (TextMatchingAlgorithm.compareFingerprints _ _);
        [simpl in Hacc'; rewrite Hacc'|]; next_window IH Hshift Hacc.
Qed.

End Fingerprint.

Section FingerprintStrategy.

Variable toLowerCase : jsstring -> jsstring.


End FingerprintStrategy.

(** ** Round trip on an unchanged document *)

Lemma accuracy_zero (maxAllowedDiff : Q) :
  (qmax 0 (1 - ofZ 0 / maxAllowedDiff) == 1)%Q.
Proof.
  assert (E : (1 - ofZ 0 / maxAllowedDiff == 1)%Q)
    by (unfold Qdiv, ofZ; simpl inject_Z; ring).
  rewrite qmax_0_l; [exact E|]. rewrite E. discriminate.
Qed.

(** A candidate with the stored offsets and the stored text is validated
    and scores 0.4 + 0.3 + 0.2 + 0.1 * 0.8. *)
Lemma exact_candidate (result : TextRange.t) (position : AnnotationPosition.t) :
  TextRange.text result = Primary.selectedText (AnnotationPosition.primary position) ->
  TextRange.startOffset result = Primary.startOffset (AnnotationPosition.primary position) ->
  TextRange.endOffset result = Primary.endOffset (AnnotationPosition.primary position) ->
  0 < len (TextRange.text result) ->
  PositionService.validatePosition result position = true
  /\ (PositionService.calculateMatchConfidence result position == 98 # 100)%Q.
Proof.
  intros Ht Hs He Hlen.
  assert (Hratio : (ofZ (len (TextRange.text result)) / ofZ (len (TextRange.text result))
                    == 1)%Q) by (apply ofZ_div_self; exact Hlen).
  assert (Hsim : PositionService.calculateTextSimilarity (TextRange.text result)
                   (Primary.selectedText (AnnotationPosition.primary position)) = 1%Q).
  { unfold PositionService.calculateTextSimilarity. rewrite Ht, streq_refl. reflexivity. }
  split.
  - unfold PositionService.validatePosition. rewrite Hsim. rewrite <- Ht.
    destruct (Z.eqb_spec (len (TextRange.text result)) 0); [lia|].
    assert (H1 : Qgt_bool (5 # 10)
                   (ofZ (len (TextRange.text result)) / ofZ (len (TextRange.text result)))
                 = false)
      by (apply Qgt_bool_false_iff; rewrite Hratio; discriminate).
    assert (H2 : Qgt_bool
                   (ofZ (len (TextRange.text result)) / ofZ (len (TextRange.text result))) 2
                 = false)
      by (apply Qgt_bool_false_iff; rewrite Hratio; discriminate).
    rewrite H1, H2. reflexivity.
  - unfold PositionService.calculateMatchConfidence. cbv zeta. rewrite Hsim.
    unfold PositionService.calculateContextMatch,
      PositionService.calculatePositionAccuracy,
      PositionService.calculateLengthConsistency. cbv zeta.
    rewrite Hs, He, !Z.sub_diag. simpl Z.abs. rewrite <- Ht.
    destruct (Z.eqb_spec (len (TextRange.text result)) 0); [lia|].
    rewrite Z.min_id, Z.max_id.
    transitivity (qmin (98 # 100) 1); [|reflexivity].
    apply qmin_compat.
    rewrite accuracy_zero, Hratio. reflexivity.
Qed.

Section RoundTrip.

Variable canonicalize : Z -> Z.
Variable toLowerCase : jsstring -> jsstring.
Variable regExpFirstMatch : jsstring -> jsstring -> RegExpOutcome.

(** C2, as the code has it.  When calculatePosition is run on a selection
    of a document (offsets within the document, start before end, the
    slice equal to the selected text) and findAnnotationPosition is run on
    the same text with the default threshold, the call returns success at
    the first strategy: primary_position is the only method attempted and
    the method of the only match, the match's range is the stored one with
    confidence 1.0, the updated locator keeps the offsets and has
    metadata.confidence 1.0, and the confidence reported in the result's
    metadata and for the match is the recomputed blend, 0.98. *)
Theorem roundtrip_primary_position (fuel : nat) (startTime now createdAt : Z)
    (textId document : jsstring) (selection : SelectionData.t) :
  0 <= SelectionData.startOffset selection < SelectionData.endOffset selection ->
  SelectionData.endOffset selection <= len document ->
  slice document (SelectionData.startOffset selection)
    (SelectionData.endOffset selection)
  = SelectionData.selectedText selection ->
  exists res m updated,
    PositionService.findAnnotationPosition canonicalize toLowerCase regExpFirstMatch
      fuel startTime now document
      (PositionService.calculatePosition createdAt textId selection)
      PositionService.defaultMinConfidence
    = PositionService.Finished res
    /\ PositioningResult.success res = true
    /\ ResultMetadata.strategiesUsed (PositioningResult.metadata res)
       = [primary_position]
    /\ ResultMetadata.totalAttempts (PositioningResult.metadata res) = 1
    /\ PositioningResult.matches res = [m]
    /\ AnnotationMatch.method m = primary_position
    /\ AnnotationMatch.range m
       = {| TextRange.startOffset := SelectionData.startOffset selection;
            TextRange.endOffset := SelectionData.endOffset selection;
            TextRange.text := SelectionData.selectedText selection;
            TextRange.confidence := Some 1%Q |}
    /\ (AnnotationMatch.confidence m == 98 # 100)%Q
    /\ (ResultMetadata.confidence (PositioningResult.metadata res) == 98 # 100)%Q
    /\ PositioningResult.position res = Some updated
    /\ AnnotationPosition.primary updated
       = {| Primary.startOffset := SelectionData.startOffset selection;
            Primary.endOffset := SelectionData.endOffset selection;
            Primary.selectedText := SelectionData.selectedText selection |}
    /\ Metadata.confidence (AnnotationPosition.metadata updated) = 1%Q.
Proof.
  intros Hoff Hend Hslice.
  set (position := PositionService.calculatePosition createdAt textId selection).
  set (range := {| TextRange.startOffset := SelectionData.startOffset selection;
                   TextRange.endOffset := SelectionData.endOffset selection;
                   TextRange.text := SelectionData.selectedText selection;
                   TextRange.confidence := Some 1%Q |}).
  assert (Hfound : PositionService.findByPrimaryPosition document position = Some range).
  { unfold PositionService.findByPrimaryPosition, position,
      PositionService.calculatePosition. simpl.
    destruct (Z.ltb_spec (SelectionData.startOffset selection) 0); [lia|].
    destruct (Z.gtb_spec (SelectionData.endOffset selection) (len document)); [lia|].
    destruct (Z.geb_spec (SelectionData.startOffset selection)
                (SelectionData.endOffset selection)); [lia|].
    simpl. rewrite Hslice, streq_refl. reflexivity. }
  assert (Hlen : 0 < len (TextRange.text range)).
  { simpl. rewrite <- Hslice, len_slice; lia. }
  destruct (@exact_candidate range position eq_refl eq_refl eq_refl Hlen) as [Hv Hc].
  assert (Hge : Qge_bool (PositionService.calculateMatchConfidence range position)
                  PositionService.defaultMinConfidence = true)
    by (apply Qge_bool_iff; rewrite Hc; discriminate).
  unfold PositionService.findAnnotationPosition, PositionService.strategies.
  cbn [PositionService.strategyLoop PositionService.Strategy.execute
       PositionService.Strategy.method PositionService.runStrategy].
  rewrite Hfound, Hv, Hge.
  eexists. eexists. eexists.
  split; [reflexivity|].
  repeat (split; [reflexivity|]).
  split; [exact Hc|]. split; [exact Hc|].
  repeat split.
Qed.

(** ** Locators without context *)

(** When the stored context is empty on both sides and the primary check
    does not settle the call, the call is still inside context_match
    whatever the fuel: the pattern built from the context matches the empty
    string where it stands, and the [exec] loop does not advance. *)
Lemma empty_context_never_returns (fuel : nat) (startTime now : Z)
    (textContent : jsstring) (position : AnnotationPosition.t) (minConfidence : Q) :
  ContextInfo.before (AnnotationPosition.context position) = [] ->
  ContextInfo.after (AnnotationPosition.context position) = [] ->
  Props.accepted position minConfidence
    (Returns (PositionService.findByPrimaryPosition textContent position)) = false ->
  PositionService.findAnnotationPosition canonicalize toLowerCase regExpFirstMatch
    fuel startTime now textContent position minConfidence
  = PositionService.Unfinished [primary_position; context_match].
Proof.
  intros Hb Ha Hp.
  unfold PositionService.findAnnotationPosition, PositionService.strategies.
  cbn [PositionService.strategyLoop PositionService.Strategy.execute
       PositionService.Strategy.method PositionService.runStrategy].
  unfold PositionService.findByContextMatch.
  rewrite (findByContextMatch_diverges canonicalize fuel textContent _ Hb Ha).
  unfold Props.accepted in Hp.
  destruct (PositionService.findByPrimaryPosition textContent position) as [r|];
    [|reflexivity].
  destruct (PositionService.validatePosition r position); [|reflexivity].
  simpl in Hp. rewrite Hp. reflexivity.
Qed.

(** C4 at a failing input.  A selection that covers a whole document has
    no context; once the document's text has been replaced, the primary
    check yields nothing and the call on the new text never returns: for
    every fuel it is still running, inside context_match, so no result
    with success false is produced.  The same holds for every text and
    every locator with an empty context that the primary check does not
    settle. *)
Theorem unresolvable_without_context_never_returns (fuel : nat) (startTime now : Z) :
  PositionService.findAnnotationPosition canonicalize toLowerCase regExpFirstMatch
    fuel startTime now Examples.replacedDocument Examples.wholePosition
    PositionService.defaultMinConfidence
  = PositionService.Unfinished [primary_position; context_match]
  /\ ContextInfo.before (AnnotationPosition.context Examples.wholePosition) = []
  /\ ContextInfo.after (AnnotationPosition.context Examples.wholePosition) = []
  /\ PositionService.findByPrimaryPosition Examples.replacedDocument
       Examples.wholePosition = None
  /\ forall textContent position minConfidence,
       ContextInfo.before (AnnotationPosition.context position) = [] ->
       ContextInfo.after (AnnotationPosition.context position) = [] ->
       Props.accepted position minConfidence
         (Returns (PositionService.findByPrimaryPosition textContent position))
       = false ->
       PositionService.findAnnotationPosition canonicalize toLowerCase regExpFirstMatch
         fuel startTime now textContent position minConfidence
       = PositionService.Unfinished [primary_position; context_match].
Proof.
  split; [apply empty_context_never_returns; reflexivity|].
  repeat (split; [reflexivity|]).
  intros textContent position minConfidence.
  apply empty_context_never_returns.
Qed.

End RoundTrip.

(** C2 as stated fails at the round-trip example: the call succeeds through
    primary_position, but the confidence it reports is 0.98, not 1.0. *)
Lemma roundtrip_confidence_is_not_one :
  ~ (exists res,
       BasicLatinHost.findAnnotationPosition 2 0 0 Examples.document
         Examples.position PositionService.defaultMinConfidence
       = PositionService.Finished res
       /\ PositioningResult.success res = true
       /\ ResultMetadata.strategiesUsed (PositioningResult.metadata res)
          = [primary_position]
       /\ (ResultMetadata.confidence (PositioningResult.metadata res) == 1)%Q).
Proof.
  intros (res & E & _ & _ & Hc).
  vm_compute in E. injection E as <-. vm_compute in Hc. discriminate Hc.
Qed.

(** ** The structural-path strategy *)

(** C7 at a failing input.  The guard of the service tests the paragraph
    index for truthiness, so a locator whose paragraphIndex is 0 and that
    has no elementPath is treated as having neither: the strategy is
    skipped although the analyzer, which tests the index against
    undefined, would search the window and return a match with confidence
    0.8.  calculatePosition stores paragraphIndex 0 for every selection
    that starts within the first 300 characters, as in the round-trip
    example resolved against the drifted document. *)
Theorem structural_path_skipped_at_paragraph_zero :
  (forall textContent position,
     StructuralPath.paragraphIndex (AnnotationPosition.structural position) = Some 0 ->
     truthyString (StructuralPath.elementPath (AnnotationPosition.structural position))
     = false ->
     PositionService.findByStructuralPath textContent position = None)
  /\ StructuralPath.paragraphIndex (AnnotationPosition.structural Examples.position)
     = Some 0
  /\ StructuralPath.elementPath (AnnotationPosition.structural Examples.position) = None
  /\ PositionService.findByStructuralPath Examples.driftedDocument Examples.position
     = None
  /\ StructuralAnalyzer.findByStructuralPath Examples.driftedDocument Examples.position
     = Some {| TextRange.startOffset := 14;
               TextRange.endOffset := 16;
               TextRange.text := [35215; 23450];
               TextRange.confidence := Some (8 # 10) |}.
Proof.
  split.
  - intros textContent position Hp He.
    unfold PositionService.findByStructuralPath. rewrite Hp, He. reflexivity.
  - repeat split; reflexivity.
Qed.

(** ** Dependence on the runtime

    The strategies consult the runtime parameters only at the code units
    of the text and of the stored context, at the windows of the text, and
    at the one pattern built from the stored text.  Two runtimes that agree
    there give the same outcome. *)

Section HostAgreement.

Variables canonicalize canonicalize' : Z -> Z.
Variables toLowerCase toLowerCase' : jsstring -> jsstring.
Variables regExpFirstMatch regExpFirstMatch' : jsstring -> jsstring -> RegExpOutcome.

Lemma matchLiteral_agree (literal s : jsstring) :
  (forall c, In c literal \/ In c s -> canonicalize c = canonicalize' c) ->
  TextMatchingAlgorithm.matchLiteral canonicalize literal s
  = TextMatchingAlgorithm.matchLiteral canonicalize' literal s.
Proof.
  revert s. induction literal as [|a l IH]; intros [|b s] H; simpl; try reflexivity.
  rewrite (H a), (H b), IH; [reflexivity| |right; now left|left; now left].
  intros c [Hc|Hc]; apply H; [left|right]; now right.
Qed.

Lemma matchGap_agree (k : nat) (after s : jsstring) :
  (forall c, In c after \/ In c s -> canonicalize c = canonicalize' c) ->
  TextMatchingAlgorithm.matchGap canonicalize k after s
  = TextMatchingAlgorithm.matchGap canonicalize' k after s.
Proof.
  intro H.
  assert (Hl : forall j,
             TextMatchingAlgorithm.matchLiteral canonicalize after (skipn j s)
             = TextMatchingAlgorithm.matchLiteral canonicalize' after (skipn j s)).
  { intro j. apply matchLiteral_agree. intros c [Hc|Hc]; apply H; [now left|right].
    now apply In_skipn in Hc. }
  induction k as [|k IH]; cbn [TextMatchingAlgorithm.matchGap]; rewrite Hl;
    [reflexivity|]. now rewrite IH.
Qed.

Lemma matchHere_agree (pattern : TextMatchingAlgorithm.ContextPattern.t) (s : jsstring) :
  (forall c, In c (TextMatchingAlgorithm.ContextPattern.before pattern)
             \/ In c (TextMatchingAlgorithm.ContextPattern.after pattern)
             \/ In c s -> canonicalize c = canonicalize' c) ->
  TextMatchingAlgorithm.matchHere canonicalize pattern s
  = TextMatchingAlgorithm.matchHere canonicalize' pattern s.
Proof.
  intro H. unfold TextMatchingAlgorithm.matchHere.
  rewrite matchLiteral_agree by (intros c [Hc|Hc]; apply H; auto).
  rewrite matchGap_agree; [reflexivity|].
  intros c [Hc|Hc]; apply H; [auto|]. right; right. now apply In_skipn in Hc.
Qed.

Lemma execFrom_agree (pattern : TextMatchingAlgorithm.ContextPattern.t)
    (s : jsstring) (i : Z) :
  (forall c, In c (TextMatchingAlgorithm.ContextPattern.before pattern)
             \/ In c (TextMatchingAlgorithm.ContextPattern.after pattern)
             \/ In c s -> canonicalize c = canonicalize' c) ->
  TextMatchingAlgorithm.execFrom canonicalize pattern s i
  = TextMatchingAlgorithm.execFrom canonicalize' pattern s i.
Proof.
  revert i. induction s as [|c0 s IH]; intros i H;
    cbn [TextMatchingAlgorithm.execFrom]; rewrite matchHere_agree by exact H;
    [reflexivity|].
  rewrite IH; [reflexivity|].
  intros c [Hc|[Hc|Hc]]; apply H; auto. right; right; now right.
Qed.

Lemma findMatchesLoop_agree (text : jsstring)
    (pattern : TextMatchingAlgorithm.ContextPattern.t) :
  (forall c, In c (TextMatchingAlgorithm.ContextPattern.before pattern)
             \/ In c (TextMatchingAlgorithm.ContextPattern.after pattern)
             \/ In c text -> canonicalize c = canonicalize' c) ->
  forall fuel lastIndex matches,
    TextMatchingAlgorithm.findMatchesLoop canonicalize fuel text pattern lastIndex matches
    = TextMatchingAlgorithm.findMatchesLoop canonicalize' fuel text pattern lastIndex
        matches.
Proof.
  intro H. induction fuel as [|fuel IH]; intros lastIndex matches; [reflexivity|].
  cbn [TextMatchingAlgorithm.findMatchesLoop].
  assert (E : TextMatchingAlgorithm.regExpExec canonicalize pattern text lastIndex
              = TextMatchingAlgorithm.regExpExec canonicalize' pattern text lastIndex).
  { unfold TextMatchingAlgorithm.regExpExec.
    destruct (lastIndex >? len text); [reflexivity|].
    apply execFrom_agree. intros c [Hc|[Hc|Hc]]; apply H; auto.
    right; right. now apply In_skipn in Hc. }
  rewrite E. destruct (TextMatchingAlgorithm.regExpExec canonicalize' pattern text lastIndex)
    as [[index l]|]; [apply IH|reflexivity].
Qed.

Lemma fingerprintLoop_agree (textContent targetText fingerprint : jsstring)
    (windowSize step : Z) :
  (forall s, incl s textContent -> toLowerCase s = toLowerCase' s) ->
  forall fuel i,
    TextMatchingAlgorithm.fingerprintLoop toLowerCase fuel textContent targetText
      fingerprint windowSize step i
    = TextMatchingAlgorithm.fingerprintLoop toLowerCase' fuel textContent targetText
        fingerprint windowSize step i.
Proof.
  intro H. induction fuel as [|fuel IH]; intro i; [reflexivity|].
  cbn [TextMatchingAlgorithm.fingerprintLoop].
  unfold TextMatchingAlgorithm.generateTextFingerprint.
  rewrite (H (slice textContent i (i + windowSize))) by apply slice_incl.
  rewrite IH. reflexivity.
Qed.


Lemma findAnnotationPosition_agree (fuel : nat) (startTime now : Z)
    (textContent : jsstring) (position : AnnotationPosition.t) (minConfidence : Q) :
  (forall c, In c (ContextInfo.before (AnnotationPosition.context position))
             \/ In c (ContextInfo.after (AnnotationPosition.context position))
             \/ In c textContent -> canonicalize c = canonicalize' c) ->
  (forall s, incl s textContent -> toLowerCase s = toLowerCase' s) ->
  regExpFirstMatch
    (join (lit "\s*")
       (splitSpaces (Primary.selectedText (AnnotationPosition.primary position))))
    textContent
  = regExpFirstMatch'
      (join (lit "\s*")
         (splitSpaces (Primary.selectedText (AnnotationPosition.primary position))))
      textContent ->
  PositionService.findAnnotationPosition canonicalize toLowerCase regExpFirstMatch
    fuel startTime now textContent position minConfidence
  = PositionService.findAnnotationPosition canonicalize' toLowerCase' regExpFirstMatch'
      fuel startTime now textContent position minConfidence.
Proof.
  intros Hc Hl Hr.
  unfold PositionService.findAnnotationPosition, PositionService.strategies,
    PositionService.runStrategy, PositionService.findByContextMatch,
    PositionService.findByTextFingerprint, PositionService.findByFuzzyMatch.
  assert (E1 : TextMatchingAlgorithm.findByContextMatch canonicalize fuel textContent
                 position
               = TextMatchingAlgorithm.findByContextMatch canonicalize' fuel textContent
                   position).
  { unfold TextMatchingAlgorithm.findByContextMatch, TextMatchingAlgorithm.findMatches.
    rewrite findMatchesLoop_agree; [reflexivity|exact Hc]. }
  assert (E2 : TextMatchingAlgorithm.findByTextFingerprint toLowerCase textContent position
               = TextMatchingAlgorithm.findByTextFingerprint toLowerCase' textContent
                   position).
  { unfold TextMatchingAlgorithm.findByTextFingerprint.
    apply fingerprintLoop_agree. exact Hl. }
  assert (E3 : TextMatchingAlgorithm.findByFuzzyMatch regExpFirstMatch textContent position
               = TextMatchingAlgorithm.findByFuzzyMatch regExpFirstMatch' textContent
                   position).
  { unfold TextMatchingAlgorithm.findByFuzzyMatch. rewrite Hr. reflexivity. }
  cbn [PositionService.strategyLoop PositionService.Strategy.execute
       PositionService.Strategy.method].
  rewrite E1, E2, E3. reflexivity.
Qed.

End HostAgreement.

(** ** Drift: text inserted before the annotation *)

Ltac listed :=
  repeat first [left; reflexivity | right].

Ltac each_member H tac :=
  repeat (destruct H as [<-|H]; [tac|]); try contradiction.

Lemma drifted_members (P : Z -> Prop) :
  Forall P Examples.driftedDocument ->
  forall c, In c Examples.driftedDocument -> P c.
Proof. intro H. apply Forall_forall. exact H. Qed.

Lemma context_within_drifted (c : Z) :
  In c (ContextInfo.before (AnnotationPosition.context Examples.position))
  \/ In c (ContextInfo.after (AnnotationPosition.context Examples.position))
  \/ In c Examples.driftedDocument ->
  In c Examples.driftedDocument.
Proof.
  intros [H|[H|H]]; [| |exact H]; vm_compute in H; each_member H ltac:(cbv; listed).
Qed.

Lemma upperBasic_drifted (c : Z) :
  In c Examples.driftedDocument -> upperBasic c = c.
Proof.
  revert c. apply drifted_members. vm_compute.
  repeat (apply Forall_cons; [reflexivity|]). apply Forall_nil.
Qed.

Lemma lowerBasic_drifted (s : jsstring) :
  incl s Examples.driftedDocument -> map lowerBasic s = s.
Proof.
  induction s as [|c s IH]; intro H; [reflexivity|]. simpl.
  rewrite IH by (intros x Hx; apply H; now right).
  f_equal. assert (Hc : In c Examples.driftedDocument) by (apply H; now left).
  clear H IH. revert c Hc. apply drifted_members. vm_compute.
  repeat (apply Forall_cons; [reflexivity|]). apply Forall_nil.
Qed.

Section Drift.

Variable canonicalize : Z -> Z.
Variable toLowerCase : jsstring -> jsstring.
Variable regExpFirstMatch : jsstring -> jsstring -> RegExpOutcome.

(** C8. For the locator of the round-trip example (the selection [4,6),
    with the text around it as context), after ten unrelated characters
    have been inserted before offset 0, findAnnotationPosition on the
    edited text returns success; the candidates are those of context_match
    and fuzzy_match, the first being used, and the updated primary range
    starts at 14 and ends at 16.  The runtime is any one in which case
    folding leaves the characters of this text alone and the RegExp built
    from the selected text finds it at 14. *)
Theorem drift_resolved_by_context_match (fuel : nat) (startTime now : Z) :
  (forall c, In c Examples.driftedDocument -> canonicalize c = c) ->
  (forall s, incl s Examples.driftedDocument -> toLowerCase s = s) ->
  regExpFirstMatch [35215; 23450] Examples.driftedDocument
  = RegExpMatch 14 [35215; 23450] ->
  (2 <= fuel)%nat ->
  exists res best updated,
    len Examples.inserted = 10
    /\ PositionService.findAnnotationPosition canonicalize toLowerCase regExpFirstMatch
         fuel startTime now Examples.driftedDocument Examples.position
         PositionService.defaultMinConfidence
       = PositionService.Finished res
    /\ PositioningResult.success res = true
    /\ ResultMetadata.strategiesUsed (PositioningResult.metadata res)
       = PositionService.strategyOrder
    /\ map (fun m => AnnotationMatch.method m) (PositioningResult.matches res)
       = [context_match; fuzzy_match]
    /\ hd_error (PositioningResult.matches res) = Some best
    /\ AnnotationMatch.method best = context_match
    /\ PositioningResult.position res = Some updated
    /\ updated = PositionService.updatePosition Examples.position
                   (AnnotationMatch.range best)
    /\ AnnotationPosition.primary updated
       = {| Primary.startOffset := 14;
            Primary.endOffset := 16;
            Primary.selectedText := [35215; 23450] |}
    /\ (ResultMetadata.confidence (PositioningResult.metadata res) == 68 # 100)%Q.
Proof.
  intros Hc Hl Hr Hf.
  rewrite (@findAnnotationPosition_agree canonicalize BasicLatinHost.canonicalize
             toLowerCase BasicLatinHost.toLowerCase
             regExpFirstMatch BasicLatinHost.regExpFirstMatch).
  - destruct fuel as [|[|fuel]]; [lia|lia|].
    eexists. eexists. eexists.
    split; [reflexivity|].
    split; [vm_compute; reflexivity|].
    repeat (split; [reflexivity|]).
    vm_compute. reflexivity.
  - intros c H. apply context_within_drifted in H.
    rewrite (Hc c H). unfold BasicLatinHost.canonicalize.
    symmetry. now apply upperBasic_drifted.
  - intros s H. rewrite (Hl s H). unfold BasicLatinHost.toLowerCase.
    symmetry. now apply lowerBasic_drifted.
  - change (join (lit "\s*")
              (splitSpaces
                 (Primary.selectedText (AnnotationPosition.primary Examples.position))))
      with [35215; 23450].
    rewrite Hr. vm_compute. reflexivity.
Qed.

End Drift.

(** ** Validated candidates and the outcome below the threshold *)

(** The service's normalization leaves no white space, so the Jaccard
    branch of its text similarity compares two one-word sets. *)

Lemma word_or_cjk_not_space (c : Z) :
  isWord c || isCJK c = true -> isSpace (lowerBasic c) = false.
Proof.
  unfold isWord, isCJK, isSpace, lowerBasic. intro H.
  repeat rewrite ?orb_true_iff, ?andb_true_iff, ?Z.leb_le, ?Z.eqb_eq in H.
  destruct ((65 <=? c) && (c <=? 90)) eqn:E.
  - apply andb_true_iff in E as [E1 E2]. apply Z.leb_le in E1, E2.
    repeat rewrite ?orb_false_iff, ?andb_false_iff, ?Z.leb_gt, ?Z.eqb_neq. lia.
  - apply andb_false_iff in E. rewrite !Z.leb_gt in E.
    repeat rewrite ?orb_false_iff, ?andb_false_iff, ?Z.leb_gt, ?Z.eqb_neq. lia.
Qed.

Lemma trimStart_Forall (P : Z -> Prop) (s : jsstring) :
  Forall P s -> Forall P (trimStart s).
Proof.
  induction 1 as [|c s Hc Hs IH]; simpl; [constructor|].
  destruct (isSpace c); [exact IH|now constructor].
Qed.

Lemma trim_Forall (P : Z -> Prop) (s : jsstring) :
  Forall P s -> Forall P (trim s).
Proof.
  intro H. unfold trim. apply Forall_rev, trimStart_Forall, Forall_rev,
    trimStart_Forall, H.
Qed.

Lemma normalizeText_no_space (text : jsstring) :
  Forall (fun c => isSpace c = false) (PositionService.normalizeText text).
Proof.
  unfold PositionService.normalizeText. apply trim_Forall.
  apply Forall_map. apply Forall_forall. intros c Hc.
  apply filter_In in Hc as [_ Hc]. now apply word_or_cjk_not_space.
Qed.

Lemma splitSpacesAux_no_space (cur s : jsstring) :
  Forall (fun c => isSpace c = false) s ->
  splitSpacesAux cur false s = [rev cur ++ s].
Proof.
  revert cur. induction s as [|c s IH]; intros cur H; simpl.
  - now rewrite app_nil_r.
  - inversion H as [|? ? Hc Hs]; subst. rewrite Hc, (IH _ Hs). simpl.
    now rewrite <- app_assoc.
Qed.

Lemma splitSpaces_no_space (s : jsstring) :
  Forall (fun c => isSpace c = false) s -> splitSpaces s = [s].
Proof. intro H. unfold splitSpaces. now rewrite splitSpacesAux_no_space. Qed.

Lemma calculateTextSimilarity_values (text1 text2 : jsstring) :
  PositionService.calculateTextSimilarity text1 text2 = 1%Q
  \/ PositionService.calculateTextSimilarity text1 text2 = (95 # 100)%Q
  \/ (PositionService.calculateTextSimilarity text1 text2 == 0)%Q.
Proof.
  unfold PositionService.calculateTextSimilarity.
  destruct (streq text1 text2); [now left|].
  destruct (streq (PositionService.normalizeText text1)
              (PositionService.normalizeText text2)) eqn:E; [right; now left|].
  right; right.
  rewrite !splitSpaces_no_space by apply normalizeText_no_space.
  unfold setOf at 3. simpl. unfold setOf at 1. simpl. rewrite E. simpl.
  unfold Qdiv. change (ofZ (size [])) with 0%Q. apply Qmult_0_l.
Qed.


Lemma ofZ_div_le (a b : Z) (q : Q) :
  0 < b -> (ofZ a / ofZ b <= q)%Q <-> (ofZ a <= q * ofZ b)%Q.
Proof.
  intro Hb. apply ofZ_pos in Hb. split; intro H.
  - apply Qmult_le_r with (z := (/ ofZ b)%Q); [now apply Qinv_lt_0_compat|].
    rewrite <- Qmult_assoc, Qmult_inv_r, Qmult_1_r; [exact H|].
    intro E. rewrite E in Hb. now apply Qlt_irrefl in Hb.
  - apply Qle_shift_div_r; assumption.
Qed.

Lemma ofZ_le_div (a b : Z) (q : Q) :
  0 < b -> (q <= ofZ a / ofZ b)%Q <-> (q * ofZ b <= ofZ a)%Q.
Proof.
  intro Hb. apply ofZ_pos in Hb. split; intro H.
  - apply Qmult_le_r with (z := (/ ofZ b)%Q); [now apply Qinv_lt_0_compat|].
    rewrite <- Qmult_assoc, Qmult_inv_r, Qmult_1_r; [exact H|].
    intro E. rewrite E in Hb. now apply Qlt_irrefl in Hb.
  - apply Qle_shift_div_l; assumption.
Qed.



Lemma qmin_ge (a b c : Q) : (c <= a)%Q -> (c <= b)%Q -> (c <= qmin a b)%Q.
Proof. intros Ha Hb. unfold qmin. destruct (Qle_bool a b); assumption. Qed.



(** No strategy throws: the only [throw] of the source, in
    [selectBestMatch], is behind the test that the list of matches is not
    empty. *)

Section NoThrow.

Variable canonicalize : Z -> Z.
Variable toLowerCase : jsstring -> jsstring.
Variable regExpFirstMatch : jsstring -> jsstring -> RegExpOutcome.

Lemma findMatchesLoop_no_throw (text : jsstring)
    (pattern : TextMatchingAlgorithm.ContextPattern.t) (message : jsstring) :
  forall fuel lastIndex matches,
    TextMatchingAlgorithm.findMatchesLoop canonicalize fuel text pattern lastIndex matches
    <> Throws message.
Proof.
  induction fuel as [|fuel IH]; intros lastIndex matches; simpl; [discriminate|].
  destruct (TextMatchingAlgorithm.regExpExec canonicalize pattern text lastIndex)
    as [[index l]|]; [apply IH|discriminate].
Qed.


End NoThrow.

Section Outcome.

Variable canonicalize : Z -> Z.
Variable toLowerCase : jsstring -> jsstring.
Variable regExpFirstMatch : jsstring -> jsstring -> RegExpOutcome.


End Outcome.

(** ** Strategies on small inputs *)

Example fingerprint_strategy_finds_second_window :
  TextMatchingAlgorithm.findByTextFingerprint BasicLatinHost.toLowerCase
    Examples.trigramDocument Examples.trigramPosition
  = Some {| TextRange.startOffset := 5;
            TextRange.endOffset := 27;
            TextRange.text := lit "alpha beta gamma delta";
            TextRange.confidence := Some 1%Q |}.
Proof. vm_compute. reflexivity. Qed.

Example fuzzy_strategy_spans_white_space :
  TextMatchingAlgorithm.findByFuzzyMatch BasicLatinHost.regExpFirstMatch
    (lit "xxxxx Alpha  beta gamma delta yy") Examples.trigramPosition
  = Some {| TextRange.startOffset := 6;
            TextRange.endOffset := 29;
            TextRange.text := lit "Alpha  beta gamma delta";
            TextRange.confidence := Some (95 # 100) |}.
Proof. vm_compute. reflexivity. Qed.

Example primary_recheck_after_normalization :
  PositionService.findByPrimaryPosition (lit "Hello, World")
    {| AnnotationPosition.primary :=
         {| Primary.startOffset := 0;
            Primary.endOffset := 12;
            Primary.selectedText := lit "hello world" |};
       AnnotationPosition.context :=
         AnnotationPosition.context Examples.trigramPosition;
       AnnotationPosition.structural :=
         AnnotationPosition.structural Examples.trigramPosition;
       AnnotationPosition.fingerprint := [];
       AnnotationPosition.metadata :=
         AnnotationPosition.metadata Examples.trigramPosition |}
  = Some {| TextRange.startOffset := 0;
            TextRange.endOffset := 12;
            TextRange.text := lit "Hello, World";
            TextRange.confidence := Some (9 # 10) |}.
Proof. vm_compute. reflexivity. Qed.

Example context_hash_of_the_example :
  ContextInfo.hash (AnnotationPosition.context Examples.position) = lit "606eaead".
Proof. vm_compute. reflexivity. Qed.

(** ** Instances on the examples *)

Lemma roundtrip_primary_position_witness :
  exists res,
    BasicLatinHost.findAnnotationPosition 2 0 0 Examples.document Examples.position
      PositionService.defaultMinConfidence
    = PositionService.Finished res
    /\ PositioningResult.success res = true
    /\ ResultMetadata.strategiesUsed (PositioningResult.metadata res)
       = [primary_position]
    /\ (ResultMetadata.confidence (PositioningResult.metadata res) == 98 # 100)%Q.
Proof.
  destruct (@roundtrip_primary_position BasicLatinHost.canonicalize
              BasicLatinHost.toLowerCase BasicLatinHost.regExpFirstMatch
              2 0 0 0 (lit "text-1") Examples.document Examples.selection)
    as (res & m & updated & E & Hs & Hu & _ & _ & _ & _ & _ & Hc & _).
  - simpl. lia.
  - vm_compute. discriminate.
  - reflexivity.
  - exists res. repeat split; assumption.
Defined.

Lemma calculateMatchConfidence_blend_witness :
  PositionService.validatePosition Examples.driftedCandidate Examples.position = true
  /\ (PositionService.calculateMatchConfidence Examples.driftedCandidate
        Examples.position
      == (4 # 10) * 1 + (3 # 10) * 0 + (2 # 10) * 1 + (1 # 10) * (8 # 10))%Q.
Proof.
  split; [reflexivity|].
  eapply Qeq_trans.
  - exact (proj1 (@calculateMatchConfidence_blend Examples.driftedCandidate
                    Examples.position eq_refl)).
  - vm_compute. reflexivity.
Defined.

Lemma drift_resolved_by_context_match_witness :
  exists res,
    BasicLatinHost.findAnnotationPosition 2 0 0 Examples.driftedDocument
      Examples.position PositionService.defaultMinConfidence
    = PositionService.Finished res
    /\ PositioningResult.success res = true
    /\ map (fun m => AnnotationMatch.method m) (PositioningResult.matches res)
       = [context_match; fuzzy_match]
    /\ option_map (fun p => Primary.startOffset (AnnotationPosition.primary p))
         (PositioningResult.position res) = Some 14.
Proof.
  destruct (@drift_resolved_by_context_match BasicLatinHost.canonicalize
              BasicLatinHost.toLowerCase BasicLatinHost.regExpFirstMatch 2 0 0)
    as (res & best & updated & _ & E & Hs & _ & Hm & _ & _ & Hp & _ & Hprimary & _).
  - exact upperBasic_drifted.
  - exact lowerBasic_drifted.
  - vm_compute. reflexivity.
  - lia.
  - exists res. repeat split; try assumption.
    rewrite Hp. simpl. rewrite Hprimary. reflexivity.
Defined.

Lemma updated_position_frame_witness :
  exists updated,
    PositioningResult.position Examples.driftedResult = Some updated
    /\ AnnotationPosition.context updated
       = AnnotationPosition.context Examples.position
    /\ AnnotationPosition.fingerprint updated
       = AnnotationPosition.fingerprint Examples.position
    /\ AnnotationPosition.structural updated
       = AnnotationPosition.structural Examples.position
    /\ Primary.startOffset (AnnotationPosition.primary updated) = 14.
Proof.
  destruct (@updated_position_frame BasicLatinHost.canonicalize
              BasicLatinHost.toLowerCase BasicLatinHost.regExpFirstMatch
              2 0 0 Examples.driftedDocument Examples.position
              PositionService.defaultMinConfidence Examples.driftedResult)
    as (updated & Hp & Hc & Hf & Hs & _).
  - vm_compute. reflexivity.
  - vm_compute. reflexivity.
  - exists updated. repeat split; try assumption.
    revert Hp. vm_compute. intros [= <-]. reflexivity.
Defined.

Lemma context_hash_noninterference_witness :
  Props.differOnlyInHash Examples.position Examples.rehashedPosition
  /\ Props.sameUpToHash
       (BasicLatinHost.findAnnotationPosition 2 0 7 Examples.driftedDocument
          Examples.position PositionService.defaultMinConfidence)
       (BasicLatinHost.findAnnotationPosition 2 3 5 Examples.driftedDocument
          Examples.rehashedPosition PositionService.defaultMinConfidence).
Proof.
  assert (H : Props.differOnlyInHash Examples.position Examples.rehashedPosition)
    by (repeat split).
  split; [exact H|].
  exact (proj1 (@context_hash_noninterference BasicLatinHost.canonicalize
                  BasicLatinHost.toLowerCase BasicLatinHost.regExpFirstMatch
                  2 0 7 3 5 Examples.driftedDocument Examples.position
                  Examples.rehashedPosition PositionService.defaultMinConfidence H)).
Defined.


(** * Further properties *)

(** ** Substring search *)

Lemma isPrefix_app (p s : jsstring) :
  isPrefix p s = true <-> exists rest, s = p ++ rest.
Proof.
  revert s. induction p as [|x p IH]; intros s; simpl.
  - split; [intros _; now exists s | reflexivity].
  - destruct s as [|y s]; split.
    + discriminate.
    + intros [rest E]. discriminate.
    + intro H. apply andb_true_iff in H as [Hx Hp]. apply Z.eqb_eq in Hx.
      apply IH in Hp as [rest ->]. subst. now exists rest.
    + intros [rest E]. injection E as -> ->. rewrite Z.eqb_refl. simpl.
      apply IH. now exists rest.
Qed.

Lemma isPrefix_firstn (p s : jsstring) :
  isPrefix p s = true -> firstn (List.length p) s = p.
Proof.
  intro H. apply isPrefix_app in H as [rest ->].
  rewrite firstn_app, Nat.sub_diag, firstn_all. simpl. now rewrite app_nil_r.
Qed.

Lemma isPrefix_length (p s : jsstring) :
  isPrefix p s = true -> (List.length p <= List.length s)%nat.
Proof.
  intro H. apply isPrefix_app in H as [rest ->]. rewrite length_app. lia.
Qed.

Lemma indexOfFrom_spec (target : jsstring) :
  forall s i,
    0 <= i ->
    (indexOfFrom s target i = -1
     /\ forall k, (k <= List.length s)%nat -> isPrefix target (skipn k s) = false)
    \/ (exists k : nat,
          indexOfFrom s target i = i + Z.of_nat k
          /\ (k <= List.length s)%nat
          /\ isPrefix target (skipn k s) = true
          /\ forall j, (j < k)%nat -> isPrefix target (skipn j s) = false).
Proof.
  induction s as [|c s IH]; intros i Hi.
  - simpl. destruct (isPrefix target []) eqn:E.
    + right. exists O. rewrite Z.add_0_r. repeat split; auto. intros j Hj. lia.
    + left. split; [reflexivity|]. intros k Hk. now rewrite skipn_nil.
  - cbn [indexOfFrom]. destruct (isPrefix target (c :: s)) eqn:E.
    + right. exists O. rewrite Z.add_0_r. repeat split; auto.
      * simpl. lia.
      * intros j Hj. lia.
    + destruct (IH (i + 1) ltac:(lia)) as [[Hn Hall]|(k & Hk & Hle & Hp & Hbefore)].
      * left. split; [exact Hn|]. intros [|k] Hk; [exact E|].
        simpl. apply Hall. simpl in Hk. lia.
      * right. exists (S k). repeat split.
        -- rewrite Hk. lia.
        -- simpl. lia.
        -- exact Hp.
        -- intros [|j] Hj; [exact E|]. simpl. apply Hbefore. lia.
Qed.

(** [indexOf] gives the first offset where the target occurs, and [-1]
    exactly when it occurs nowhere. *)
Lemma indexOf_spec (s target : jsstring) :
  (indexOf s target = -1
   /\ forall k, (k <= List.length s)%nat -> isPrefix target (skipn k s) = false)
  \/ (exists k : nat,
        indexOf s target = Z.of_nat k
        /\ (k <= List.length s)%nat
        /\ isPrefix target (skipn k s) = true
        /\ forall j, (j < k)%nat -> isPrefix target (skipn j s) = false).
Proof.
  unfold indexOf. destruct (@indexOfFrom_spec target s 0 ltac:(lia)) as [H|H];
    [left; exact H|right]. exact H.
Qed.

Lemma slice_plain (s : jsstring) (a b : Z) :
  0 <= a -> 0 <= b ->
  slice s a b = firstn (Z.to_nat (Z.min b (len s) - Z.min a (len s)))
                  (skipn (Z.to_nat (Z.min a (len s))) s).
Proof.
  intros Ha Hb. unfold slice, clampIndex.
  destruct (Z.ltb_spec a 0); [lia|]. destruct (Z.ltb_spec b 0); [lia|]. reflexivity.
Qed.

Lemma slice_at_occurrence (s target : jsstring) (k : nat) :
  isPrefix target (skipn k s) = true ->
  slice s (Z.of_nat k) (Z.of_nat k + len target) = target.
Proof.
  intro H. pose proof (isPrefix_length _ _ H) as Hl. rewrite length_skipn in Hl.
  pose proof (len_nonneg target).
  rewrite slice_plain by lia. unfold len in *.
  destruct (Nat.le_gt_cases k (List.length s)) as [Hk|Hk].
  - rewrite !Z.min_l by lia.
    replace (Z.to_nat (Z.of_nat k + Z.of_nat (List.length target) - Z.of_nat k))
      with (List.length target) by lia.
    rewrite Nat2Z.id. now apply isPrefix_firstn.
  - rewrite skipn_all2 in H by lia.
    destruct target; [|discriminate]. simpl List.length. simpl Z.of_nat.
    rewrite Z.add_0_r, Z.sub_diag. reflexivity.
Qed.

Lemma firstn_isPrefix (n : nat) (l t : jsstring) :
  firstn n l = t -> isPrefix t l = true.
Proof.
  intro H. apply isPrefix_app. exists (skipn n l). rewrite <- H.
  symmetry. apply firstn_skipn.
Qed.

Lemma isPrefix_of_firstn (t l : jsstring) (n : nat) :
  isPrefix t (firstn n l) = true -> isPrefix t l = true.
Proof.
  intro H. apply isPrefix_app in H as [rest E]. apply isPrefix_app.
  exists (rest ++ skipn n l). rewrite app_assoc, <- E. symmetry. apply firstn_skipn.
Qed.

(** An occurrence at offset [j], said with [slice]. *)
Lemma occurrence_slice (s target : jsstring) (j : nat) :
  (j <= List.length s)%nat ->
  slice s (Z.of_nat j) (Z.of_nat j + len target) = target ->
  isPrefix target (skipn j s) = true.
Proof.
  intros Hj H. pose proof (len_nonneg target).
  rewrite slice_plain in H by lia. unfold len in *.
  rewrite (Z.min_l (Z.of_nat j)) in H by lia. rewrite Nat2Z.id in H.
  now apply firstn_isPrefix in H.
Qed.

(** ** StructuralAnalyzer: searching for the stored text *)

(** An occurrence inside a slice of the text is an occurrence in the text. *)
Lemma occurrence_in_slice (text target : jsstring) (a b : Z) (k : nat) :
  0 <= a ->
  isPrefix target (skipn k (slice text a b)) = true ->
  slice text (a + Z.of_nat k) (a + Z.of_nat k + len target) = target.
Proof.
  intros Ha H. pose proof (len_nonneg target). pose proof (len_nonneg text).
  unfold slice at 1 in H. unfold clampIndex in H.
  destruct (Z.ltb_spec a 0); [lia|].
  set (n := Z.to_nat _) in H.
  rewrite skipn_firstn_comm in H. apply isPrefix_of_firstn in H.
  rewrite skipn_skipn in H.
  destruct (Z.le_gt_cases a (len text)) as [Hle|Hgt].
  - rewrite Z.min_l in H by lia.
    replace (a + Z.of_nat k) with (Z.of_nat (k + Z.to_nat a)) by lia.
    now apply slice_at_occurrence.
  - rewrite Z.min_r in H by lia. rewrite skipn_all2 in H by (unfold len; lia).
    destruct target; [|discriminate].
    unfold slice, clampIndex, len in *. simpl List.length. simpl Z.of_nat.
    rewrite Z.add_0_r.
    destruct (Z.ltb_spec (a + Z.of_nat k) 0); [lia|].
    rewrite Z.sub_diag. reflexivity.
Qed.

Lemma occurrence_within_slice (text target : jsstring) (a b : Z) (j : nat) :
  0 <= a <= Z.of_nat j ->
  Z.of_nat j + len target <= b -> b <= len text ->
  slice text (Z.of_nat j) (Z.of_nat j + len target) = target ->
  (j - Z.to_nat a <= List.length (slice text a b))%nat
  /\ isPrefix target (skipn (j - Z.to_nat a) (slice text a b)) = true.
Proof.
  intros Ha Hb Hlen H. pose proof (len_nonneg target).
  assert (Hj : (j <= List.length text)%nat) by (unfold len in *; lia).
  apply occurrence_slice in H; [|exact Hj].
  rewrite (@slice_plain text a b) by lia. unfold len in *.
  rewrite !Z.min_l by lia.
  split.
  - rewrite length_firstn, length_skipn. lia.
  - rewrite skipn_firstn_comm, skipn_skipn.
    replace (j - Z.to_nat a + Z.to_nat a)%nat with j by lia.
    apply isPrefix_app in H as [rest E]. apply isPrefix_app.
    rewrite E.
    exists (firstn (Z.to_nat (b - a) - (j - Z.to_nat a) - List.length target) rest).
    rewrite firstn_app.
    rewrite firstn_all2 by lia. reflexivity.
Qed.

Lemma findByElementPath_found (textContent elementPath targetText : jsstring)
    (r : TextRange.t) :
  StructuralAnalyzer.findByElementPath textContent elementPath targetText = Some r ->
  exists k : nat,
    r = {| TextRange.startOffset := Z.of_nat k;
           TextRange.endOffset := Z.of_nat k + len targetText;
           TextRange.text := targetText;
           TextRange.confidence := Some (9 # 10) |}
    /\ Z.of_nat k + len targetText <= len textContent
    /\ slice textContent (Z.of_nat k) (Z.of_nat k + len targetText) = targetText.
Proof.
  unfold StructuralAnalyzer.findByElementPath.
  destruct (indexOf_spec textContent targetText)
    as [[E Hall]|(k & E & Hk & Hp & Hbefore)]; rewrite E; [discriminate|].
  destruct (Z.eqb_spec (Z.of_nat k) (-1)); [lia|]. cbn [negb].
  intros [= <-]. exists k. split; [reflexivity|]. split.
  - pose proof (isPrefix_length _ _ Hp) as Hl. rewrite length_skipn in Hl.
    unfold len. lia.
  - now apply slice_at_occurrence.
Qed.

Lemma findByParagraphIndex_spec (textContent : jsstring) (paragraphIndex : Z)
    (targetText : jsstring) :
  let searchStart := Z.max 0 (paragraphIndex * 300 - 100) in
  let searchEnd := Z.min (len textContent) (paragraphIndex * 300 + 600) in
  match StructuralAnalyzer.findByParagraphIndex textContent paragraphIndex targetText with
  | Some r =>
      TextRange.text r = targetText
      /\ TextRange.confidence r = Some (8 # 10)
      /\ searchStart <= TextRange.startOffset r
      /\ TextRange.endOffset r = TextRange.startOffset r + len targetText
      /\ slice textContent (TextRange.startOffset r) (TextRange.endOffset r) = targetText
      /\ forall j : nat,
           searchStart <= Z.of_nat j < TextRange.startOffset r ->
           Z.of_nat j + len targetText <= searchEnd ->
           slice textContent (Z.of_nat j) (Z.of_nat j + len targetText) <> targetText
  | None =>
      forall j : nat,
        searchStart <= Z.of_nat j ->
        Z.of_nat j + len targetText <= searchEnd ->
        slice textContent (Z.of_nat j) (Z.of_nat j + len targetText) <> targetText
  end.
Proof.
  cbv zeta. unfold StructuralAnalyzer.findByParagraphIndex.
  set (searchStart := Z.max 0 (paragraphIndex * 300 - 100)).
  set (searchEnd := Z.min (len textContent) (paragraphIndex * 300 + 600)).
  assert (Hss : 0 <= searchStart) by (unfold searchStart; lia).
  assert (Hse : searchEnd <= len textContent) by (unfold searchEnd; lia).
  pose proof (len_nonneg targetText) as Ht.
  destruct (indexOf_spec (slice textContent searchStart searchEnd) targetText)
    as [[E Hall]|(k & E & Hk & Hp & Hbefore)]; rewrite E.
  - simpl. intros j Hj1 Hj2 H.
    destruct (@occurrence_within_slice textContent targetText searchStart searchEnd j)
      as [Hle Hocc]; try lia; try assumption.
    rewrite Hall in Hocc by exact Hle. discriminate.
  - destruct (Z.eqb_spec (Z.of_nat k) (-1)); [lia|]. simpl.
    repeat split; try lia.
    + apply occurrence_in_slice with (b := searchEnd); assumption.
    + intros j Hj1 Hj2 H.
      destruct (@occurrence_within_slice textContent targetText searchStart searchEnd j)
        as [Hle Hocc]; try lia; try assumption.
      rewrite Hbefore in Hocc by lia. discriminate.
Qed.

(** X2. A selection of at most 300 characters that lies in the document
    (0 <= start <= end <= length, the slice equal to selectedText) is found
    again by StructuralAnalyzer.findByStructuralPath from the locator that
    calculatePosition builds: the paragraph index floor(start / 300) puts
    the selection inside the search window, and the returned range carries
    the selected text with confidence 0.8 and starts at the first
    occurrence in the window, which is not after the selection. *)
Theorem analyze_then_findByStructuralPath (now : Z) (textId textContent : jsstring)
    (selection : SelectionData.t) :
  0 <= SelectionData.startOffset selection <= SelectionData.endOffset selection ->
  SelectionData.endOffset selection <= len textContent ->
  SelectionData.endOffset selection - SelectionData.startOffset selection <= 300 ->
  slice textContent (SelectionData.startOffset selection)
    (SelectionData.endOffset selection) = SelectionData.selectedText selection ->
  exists r,
    StructuralAnalyzer.findByStructuralPath textContent
      (PositionService.calculatePosition now textId selection) = Some r
    /\ TextRange.text r = SelectionData.selectedText selection
    /\ TextRange.confidence r = Some (8 # 10)
    /\ 0 <= TextRange.startOffset r <= SelectionData.startOffset selection
    /\ slice textContent (TextRange.startOffset r) (TextRange.endOffset r)
       = SelectionData.selectedText selection.
Proof.
  intros Hoff Hend Hshort Hslice.
  unfold StructuralAnalyzer.findByStructuralPath, PositionService.calculatePosition.
  cbn [AnnotationPosition.structural AnnotationPosition.primary
       StructuralAnalyzer.analyze StructuralPath.paragraphIndex Primary.selectedText].
  set (s := SelectionData.startOffset selection) in *.
  set (e := SelectionData.endOffset selection) in *.
  set (target := SelectionData.selectedText selection) in *.
  unfold StructuralAnalyzer.calculateParagraphIndex.
  pose proof (@findByParagraphIndex_spec textContent (s / 300) target) as W.
  cbv zeta in W.
  assert (Hlen : len target = e - s) by (rewrite <- Hslice; apply len_slice; lia).
  pose proof (Z.div_mod s 300 ltac:(lia)) as Hdm.
  pose proof (Z.mod_pos_bound s 300 ltac:(lia)) as Hmod.
  assert (Hocc : slice textContent (Z.of_nat (Z.to_nat s))
                   (Z.of_nat (Z.to_nat s) + len target) = target).
  { rewrite Z2Nat.id by lia. rewrite Hlen.
    replace (s + (e - s)) with e by lia. exact Hslice. }
  destruct (StructuralAnalyzer.findByParagraphIndex textContent (s / 300) target)
    as [r|].
  - destruct W as (Ht & Hc & Hstart & Hendr & Hs & Hfirst).
    exists r. repeat split; try assumption; try lia.
    destruct (Z.le_gt_cases (TextRange.startOffset r) s) as [Hle|Hgt]; [exact Hle|].
    exfalso. apply (Hfirst (Z.to_nat s)); [lia|lia|exact Hocc].
  - exfalso. apply (W (Z.to_nat s)); [lia|lia|exact Hocc].
Qed.

(** X3. StructuralAnalyzer.findByElementPath does not look at its
    elementPath argument.  It returns the first occurrence of targetText
    in the whole document, as the range [k, k + targetText.length) inside
    the document with text targetText and confidence 0.9, and it returns
    null exactly when targetText occurs nowhere in the document. *)
Theorem findByElementPath_first_occurrence
    (textContent elementPath targetText : jsstring) :
  (forall otherPath,
     StructuralAnalyzer.findByElementPath textContent otherPath targetText
     = StructuralAnalyzer.findByElementPath textContent elementPath targetText)
  /\ match StructuralAnalyzer.findByElementPath textContent elementPath targetText with
     | Some r =>
         exists k : nat,
           r = {| TextRange.startOffset := Z.of_nat k;
                  TextRange.endOffset := Z.of_nat k + len targetText;
                  TextRange.text := targetText;
                  TextRange.confidence := Some (9 # 10) |}
           /\ Z.of_nat k + len targetText <= len textContent
           /\ slice textContent (Z.of_nat k) (Z.of_nat k + len targetText) = targetText
           /\ forall j : nat, (j < k)%nat ->
                slice textContent (Z.of_nat j) (Z.of_nat j + len targetText)
                <> targetText
     | None =>
         forall j : nat, (j <= List.length textContent)%nat ->
           slice textContent (Z.of_nat j) (Z.of_nat j + len targetText) <> targetText
     end.
Proof.
  split; [reflexivity|].
  unfold StructuralAnalyzer.findByElementPath.
  destruct (indexOf_spec textContent targetText)
    as [[E Hall]|(k & E & Hk & Hp & Hbefore)]; rewrite E.
  - simpl. intros j Hj H. apply occurrence_slice in H; [|exact Hj].
    rewrite Hall in H by exact Hj. discriminate.
  - destruct (Z.eqb_spec (Z.of_nat k) (-1)); [lia|]. simpl.
    exists k. split; [reflexivity|]. split.
    + pose proof (isPrefix_length _ _ Hp) as Hl. rewrite length_skipn in Hl.
      unfold len. destruct targetText; simpl in *; lia.
    + split; [now apply slice_at_occurrence|].
      intros j Hj H. apply occurrence_slice in H; [|lia].
      rewrite Hbefore in H by exact Hj. discriminate.
Qed.


(** ** Choosing the best of several *)

Section Best.

Variable A : Type.
Variable score : A -> Q.

(** A left-to-right scan that replaces the incumbent only by a strictly
    better element ends with the earliest element of maximal score. *)
Lemma scan_keeps_first_maximum (l : list A) :
  forall first,
    let best :=
      fold_left (fun best current =>
                   if Qgt_bool (score current) (score best) then current else best)
        l first in
    (best = first /\ forall m, In m l -> (score m <= score first)%Q)
    \/ (exists pre post,
          l = pre ++ best :: post
          /\ (score first < score best)%Q
          /\ (forall m, In m pre -> (score m < score best)%Q)
          /\ (forall m, In m post -> (score m <= score best)%Q)).
Proof.
  induction l as [|x l IH]; intro first; cbv zeta.
  - left. split; [reflexivity|]. intros m [].
  - cbn [fold_left]. destruct (Qgt_bool (score x) (score first)) eqn:E.
    + apply Qgt_bool_iff in E. right.
      destruct (IH x) as [[Hb Hall]|(pre & post & Hl & Hlt & Hpre & Hpost)].
      * exists [], l. cbv zeta in Hb. rewrite Hb. repeat split; try assumption.
        intros m [].
      * cbv zeta in Hl. exists (x :: pre), post. repeat split.
        -- simpl. f_equal. exact Hl.
        -- eapply Qlt_trans; eassumption.
        -- intros m [<-|Hm]; [exact Hlt|now apply Hpre].
        -- exact Hpost.
    + apply Qgt_bool_false_iff in E.
      destruct (IH first) as [[Hb Hall]|(pre & post & Hl & Hlt & Hpre & Hpost)].
      * left. split; [exact Hb|]. intros m [<-|Hm]; [exact E|now apply Hall].
      * right. exists (x :: pre), post. repeat split.
        -- simpl. f_equal. exact Hl.
        -- exact Hlt.
        -- intros m [<-|Hm]; [|now apply Hpre].
           eapply Qle_lt_trans; eassumption.
        -- exact Hpost.
Qed.

End Best.

Lemma selectBestMatch_member (m0 : TextMatch.t) (rest : list TextMatch.t)
    (position : AnnotationPosition.t) :
  exists best,
    TextMatchingAlgorithm.selectBestMatch (m0 :: rest) position = Returns best
    /\ In best (m0 :: rest).
Proof.
  destruct rest as [|m1 rest]; [exists m0; split; [reflexivity|now left]|].
  unfold TextMatchingAlgorithm.selectBestMatch.
  pose proof (@scan_keeps_first_maximum _
                (fun m => TextMatchingAlgorithm.calculateMatchScore m position)
                (m0 :: m1 :: rest) m0) as H.
  cbv zeta in H.
  destruct H as [[Hb Hall]|(pre & post & Hl & _)].
  - exists m0. split; [f_equal; exact Hb|now left].
  - eexists. split; [reflexivity|]. rewrite Hl at 2. apply in_or_app. right. now left.
Qed.


(** X6. The reduce over matches in findAnnotationPosition picks the
    earliest match of maximal confidence: every match before the chosen one
    has strictly lower confidence, every match after it has no higher
    confidence, so among equally confident candidates the strategy that ran
    first wins. *)
Theorem bestOf_first_maximum (first : AnnotationMatch.t)
    (others : list AnnotationMatch.t) :
  exists pre post,
    first :: others = pre ++ PositionService.bestOf first others :: post
    /\ (forall m, In m pre ->
          (AnnotationMatch.confidence m
           < AnnotationMatch.confidence (PositionService.bestOf first others))%Q)
    /\ (forall m, In m post ->
          (AnnotationMatch.confidence m
           <= AnnotationMatch.confidence (PositionService.bestOf first others))%Q).
Proof.
  unfold PositionService.bestOf.
  pose proof (@scan_keeps_first_maximum _ (fun m => AnnotationMatch.confidence m)
                others first) as H.
  cbv zeta in H.
  destruct H as [[Hb Hall]|(pre & post & Hl & Hlt & Hpre & Hpost)].
  - exists [], others. rewrite Hb. repeat split; [intros m []|exact Hall].
  - exists (first :: pre), post. repeat split.
    + simpl. f_equal. exact Hl.
    + intros m [<-|Hm]; [exact Hlt|now apply Hpre].
    + exact Hpost.
Qed.

(** ** The matches of the context pattern *)

Section ContextMatches.

Variable canonicalize : Z -> Z.

Lemma findMatchesLoop_shape (text : jsstring)
    (pattern : TextMatchingAlgorithm.ContextPattern.t) :
  forall fuel lastIndex acc found,
    0 <= lastIndex ->
    TextMatchingAlgorithm.findMatchesLoop canonicalize fuel text pattern lastIndex acc
    = Returns found ->
    exists new,
      found = acc ++ new
      /\ Forall (fun m =>
                   lastIndex <= TextMatch.startOffset m
                   /\ TextMatch.startOffset m <= TextMatch.endOffset m
                   /\ TextMatch.endOffset m <= len text
                   /\ TextMatch.text m
                      = slice text (TextMatch.startOffset m) (TextMatch.endOffset m)
                   /\ len (TextMatchingAlgorithm.ContextPattern.before pattern)
                      + len (TextMatchingAlgorithm.ContextPattern.after pattern)
                      <= TextMatch.endOffset m - TextMatch.startOffset m) new
      /\ ForallOrdPairs (fun m1 m2 => TextMatch.endOffset m1 <= TextMatch.startOffset m2)
           new.
Proof.
  induction fuel as [|fuel IH]; intros lastIndex acc found H0 H; [discriminate|].
  cbn [TextMatchingAlgorithm.findMatchesLoop] in H.
  destruct (TextMatchingAlgorithm.regExpExec canonicalize pattern text lastIndex)
    as [[index l]|] eqn:E.
  - apply regExpExec_bounds in E; [|exact H0]. destruct E as (Hi & Hl & Hp).
    pose proof (len_nonneg (TextMatchingAlgorithm.ContextPattern.before pattern)).
    pose proof (len_nonneg (TextMatchingAlgorithm.ContextPattern.after pattern)).
    apply IH in H; [|lia]. destruct H as (new & -> & Hall & Hord).
    eexists (_ :: new). split; [rewrite <- app_assoc; reflexivity|]. split.
    + constructor.
      * simpl. repeat split; try lia.
      * eapply Forall_impl; [|exact Hall]. simpl. intros m Hm. repeat split; try apply Hm.
        lia.
    + constructor; [|exact Hord].
      eapply Forall_impl; [|exact Hall]. simpl. intros m Hm. lia.
  - injection H as <-. exists []. rewrite app_nil_r. repeat split; constructor.
Qed.

Lemma findMatches_shape (fuel : nat) (text : jsstring)
    (pattern : TextMatchingAlgorithm.ContextPattern.t) (found : list TextMatch.t) :
  TextMatchingAlgorithm.findMatches canonicalize fuel text pattern = Returns found ->
  Forall (fun m =>
            0 <= TextMatch.startOffset m <= TextMatch.endOffset m
            /\ TextMatch.endOffset m <= len text
            /\ TextMatch.text m
               = slice text (TextMatch.startOffset m) (TextMatch.endOffset m)
            /\ len (TextMatchingAlgorithm.ContextPattern.before pattern)
               + len (TextMatchingAlgorithm.ContextPattern.after pattern)
               <= len (TextMatch.text m)) found
  /\ ForallOrdPairs (fun m1 m2 => TextMatch.endOffset m1 <= TextMatch.startOffset m2)
       found.
Proof.
  unfold TextMatchingAlgorithm.findMatches. intro H.
  apply findMatchesLoop_shape in H; [|lia].
  destruct H as (new & -> & Hall & Hord). simpl. split; [|exact Hord].
  eapply Forall_impl; [|exact Hall]. simpl.
  intros m (H1 & H2 & H3 & H4 & H5). repeat split; try lia; try assumption.
  rewrite H4, len_slice; lia.
Qed.

(** Locating the stored text inside a match that lies in the document. *)
Lemma locateExactText_within (textContent : jsstring) (m : TextMatch.t)
    (targetText : jsstring) :
  0 <= TextMatch.startOffset m <= TextMatch.endOffset m ->
  TextMatch.endOffset m <= len textContent ->
  TextMatch.text m
  = slice textContent (TextMatch.startOffset m) (TextMatch.endOffset m) ->
  exists r,
    TextMatchingAlgorithm.locateExactText textContent m targetText = Some r
    /\ TextMatch.startOffset m <= TextRange.startOffset r
    /\ TextRange.startOffset r <= TextRange.endOffset r
    /\ TextRange.endOffset r <= TextMatch.endOffset m
    /\ slice textContent (TextRange.startOffset r) (TextRange.endOffset r)
       = TextRange.text r
    /\ ((TextRange.text r = targetText /\ TextRange.confidence r = Some (95 # 100))
        \/ (TextRange.text r = TextMatch.text m
            /\ TextRange.confidence r = Some (7 # 10)
            /\ TextRange.startOffset r = TextMatch.startOffset m
            /\ TextRange.endOffset r = TextMatch.endOffset m
            /\ indexOf (TextMatch.text m) targetText = -1)).
Proof.
  intros Hoff Hend Htext. unfold TextMatchingAlgorithm.locateExactText.
  rewrite <- Htext.
  pose proof (len_nonneg targetText) as Ht.
  destruct (indexOf_spec (TextMatch.text m) targetText)
    as [[E Hall]|(k & E & Hk & Hp & Hbefore)]; rewrite E.
  - simpl. eexists. split; [reflexivity|]. simpl.
    repeat split; try lia. { now rewrite Htext. }
    right. repeat split. 
  - destruct (Z.eqb_spec (Z.of_nat k) (-1)); [lia|]. simpl.
    eexists. split; [reflexivity|]. simpl.
    pose proof (isPrefix_length _ _ Hp) as Hl. rewrite length_skipn in Hl.
    assert (Hm : len (TextMatch.text m)
                 = TextMatch.endOffset m - TextMatch.startOffset m)
      by (rewrite Htext; apply len_slice; lia).
    unfold len in *.
    repeat split; try lia.
    + rewrite Htext in Hp.
      apply occurrence_in_slice with (b := TextMatch.endOffset m); [lia|exact Hp].
    + left. split; reflexivity.
Qed.

Lemma findByContextMatch_within (fuel : nat) (textContent : jsstring)
    (position : AnnotationPosition.t) (found : option TextRange.t) :
  TextMatchingAlgorithm.findByContextMatch canonicalize fuel textContent position
  = Returns found ->
  match found with
  | Some r =>
      0 <= TextRange.startOffset r <= TextRange.endOffset r
      /\ TextRange.endOffset r <= len textContent
      /\ slice textContent (TextRange.startOffset r) (TextRange.endOffset r)
         = TextRange.text r
      /\ ((TextRange.text r
           = Primary.selectedText (AnnotationPosition.primary position)
           /\ TextRange.confidence r = Some (95 # 100))
          \/ (TextRange.confidence r = Some (7 # 10)
              /\ indexOf (TextRange.text r)
                   (Primary.selectedText (AnnotationPosition.primary position)) = -1
              /\ len (ContextInfo.before (AnnotationPosition.context position))
                 + len (ContextInfo.after (AnnotationPosition.context position))
                 <= len (TextRange.text r)))
  | None =>
      TextMatchingAlgorithm.findMatches canonicalize fuel textContent
        (TextMatchingAlgorithm.buildContextPattern (AnnotationPosition.context position))
      = Returns []
  end.
Proof.
  unfold TextMatchingAlgorithm.findByContextMatch.
  destruct (TextMatchingAlgorithm.findMatches canonicalize fuel textContent
              (TextMatchingAlgorithm.buildContextPattern
                 (AnnotationPosition.context position))) as [ms|msg|] eqn:E;
    simpl; try discriminate.
  pose proof (findMatches_shape _ _ _ E) as [Hall _].
  destruct ms as [|m0 rest].
  - simpl. intros [= <-]. reflexivity.
  - change (Z.of_nat (List.length (m0 :: rest)) =? 0) with false. cbv iota.
    destruct (selectBestMatch_member m0 rest position) as (best & Hsel & Hin).
    rewrite Hsel. cbn [bind].
    rewrite Forall_forall in Hall. specialize (Hall best Hin).
    destruct Hall as (H1 & H2 & H3 & H4).
    destruct (@locateExactText_within textContent best
                (Primary.selectedText (AnnotationPosition.primary position))
                H1 H2 H3) as (r & Hr & Ha & Hb & Hc & Hd & He).
    rewrite Hr. intros [= <-]. repeat split; try lia; try assumption.
    destruct He as [He|(He1 & He2 & He3 & He4 & He5)]; [left; exact He|right].
    rewrite He1. repeat split; assumption.
Qed.

End ContextMatches.

(** ** Normalization and similarity in the service *)

Lemma streq_sym (a b : jsstring) : streq a b = streq b a.
Proof.
  destruct (streq a b) eqn:E.
  - apply streq_spec in E. subst. symmetry. apply streq_refl.
  - apply streq_false in E. symmetry. apply streq_false. congruence.
Qed.

Lemma collapseSpaces_no_space (s : jsstring) (inRun : bool) :
  Forall (fun c => isSpace c = false) s -> collapseSpaces inRun s = s.
Proof.
  revert inRun. induction s as [|c s IH]; intros inRun H; [reflexivity|].
  inversion H as [|? ? Hc Hs]; subst. simpl. rewrite Hc. f_equal. now apply IH.
Qed.

Lemma trimStart_no_space (s : jsstring) :
  Forall (fun c => isSpace c = false) s -> trimStart s = s.
Proof.
  destruct s as [|c s]; intro H; [reflexivity|].
  inversion H as [|? ? Hc Hs]; subst. simpl. now rewrite Hc.
Qed.

Lemma trim_no_space (s : jsstring) :
  Forall (fun c => isSpace c = false) s -> trim s = s.
Proof.
  intro H. unfold trim. rewrite (trimStart_no_space H).
  rewrite trimStart_no_space by (apply Forall_rev; exact H).
  apply rev_involutive.
Qed.

Lemma lowerBasic_idempotent (c : Z) : lowerBasic (lowerBasic c) = lowerBasic c.
Proof.
  unfold lowerBasic.
  destruct ((65 <=? c) && (c <=? 90)) eqn:E; [|now rewrite E].
  apply andb_true_iff in E as [E1 E2]. apply Z.leb_le in E1, E2.
  destruct ((65 <=? c + 32) && (c + 32 <=? 90)) eqn:E'; [|reflexivity].
  apply andb_true_iff in E' as [E3 E4]. apply Z.leb_le in E3, E4. lia.
Qed.

Lemma lowerBasic_keeps_class (c : Z) :
  isWord c || isCJK c = true -> isWord (lowerBasic c) || isCJK (lowerBasic c) = true.
Proof.
  unfold isWord, isCJK, lowerBasic. intro H.
  destruct ((65 <=? c) && (c <=? 90)) eqn:E; [|cbv iota; rewrite E; exact H].
  apply andb_true_iff in E as [E1 E2]. apply Z.leb_le in E1, E2.
  repeat rewrite ?orb_true_iff, ?andb_true_iff, ?Z.leb_le, ?Z.eqb_eq. lia.
Qed.

(** What is left after normalization: lower-case letters, digits,
    underscores and CJK ideographs. *)
Lemma normalizeText_alphabet (text : jsstring) :
  Forall (fun c => (isWord c || isCJK c = true) /\ lowerBasic c = c)
    (PositionService.normalizeText text).
Proof.
  unfold PositionService.normalizeText. apply trim_Forall.
  apply Forall_map. apply Forall_forall. intros c Hc.
  apply filter_In in Hc as [_ Hc]. split.
  - now apply lowerBasic_keeps_class.
  - apply lowerBasic_idempotent.
Qed.

Lemma class_not_space (c : Z) : isWord c || isCJK c = true -> isSpace c = false.
Proof.
  unfold isWord, isCJK, isSpace. intro H.
  repeat rewrite ?orb_true_iff, ?andb_true_iff, ?Z.leb_le, ?Z.eqb_eq in H.
  repeat rewrite ?orb_false_iff, ?andb_false_iff, ?Z.leb_gt, ?Z.eqb_neq. lia.
Qed.

(** X7. PositionService.normalizeText is idempotent, and what it returns
    consists of digits, the underscore, lower-case Basic Latin letters and
    CJK ideographs only: all white space is removed, not collapsed. *)
Theorem normalizeText_idempotent (text : jsstring) :
  PositionService.normalizeText (PositionService.normalizeText text)
  = PositionService.normalizeText text
  /\ Forall (fun c => ((48 <=? c) && (c <=? 57)) || (c =? 95)
                      || ((97 <=? c) && (c <=? 122)) || isCJK c = true)
       (PositionService.normalizeText text).
Proof.
  pose proof (normalizeText_alphabet text) as H.
  set (n := PositionService.normalizeText text) in *.
  split.
  - unfold PositionService.normalizeText.
    assert (Hns : Forall (fun c => isSpace c = false) n).
    { eapply Forall_impl; [|exact H]. intros c [Hc _]. now apply class_not_space. }
    rewrite (collapseSpaces_no_space false Hns).
    assert (Hf : filter (fun c => isWord c || isCJK c) n = n).
    { clear Hns. induction H as [|c l [Hc _] _ IH]; [reflexivity|].
      simpl. rewrite Hc. now f_equal. }
    rewrite Hf.
    assert (Hm : map lowerBasic n = n).
    { clear Hns Hf. induction H as [|c l [_ Hc] _ IH]; [reflexivity|].
      simpl. now rewrite Hc, IH. }
    rewrite Hm. now apply trim_no_space.
  - eapply Forall_impl; [|exact H]. intros c [Hc Hl].
    unfold isWord, isCJK, lowerBasic in *.
    destruct ((65 <=? c) && (c <=? 90)) eqn:E; [lia|].
    apply andb_false_iff in E. rewrite !Z.leb_gt in E.
    repeat rewrite ?orb_true_iff, ?andb_true_iff, ?Z.leb_le, ?Z.eqb_eq in Hc.
    repeat rewrite ?orb_true_iff, ?andb_true_iff, ?Z.leb_le, ?Z.eqb_eq. lia.
Qed.

Lemma calculateTextSimilarity_zero (a b : jsstring) :
  streq a b = false ->
  streq (PositionService.normalizeText a) (PositionService.normalizeText b) = false ->
  PositionService.calculateTextSimilarity a b = (ofZ 0 / ofZ 2)%Q.
Proof.
  intros E1 E2. unfold PositionService.calculateTextSimilarity.
  rewrite E1, E2.
  rewrite !splitSpaces_no_space by apply normalizeText_no_space.
  unfold setOf at 3. simpl. unfold setOf at 1. simpl. rewrite E2. simpl.
  unfold setOf. simpl. rewrite streq_sym, E2. reflexivity.
Qed.

(** X8. PositionService.calculateTextSimilarity is symmetric and takes
    three values only: 1 on identical strings, 0.95 on different strings
    with the same normalization, and 0 otherwise.  Since normalization
    removes all white space, the Jaccard branch always compares two
    one-word sets that differ. *)
Theorem calculateTextSimilarity_three_values (text1 text2 : jsstring) :
  PositionService.calculateTextSimilarity text1 text2
  = PositionService.calculateTextSimilarity text2 text1
  /\ (text1 = text2 -> PositionService.calculateTextSimilarity text1 text2 = 1%Q)
  /\ (text1 <> text2 ->
      PositionService.normalizeText text1 = PositionService.normalizeText text2 ->
      PositionService.calculateTextSimilarity text1 text2 = (95 # 100)%Q)
  /\ (PositionService.normalizeText text1 <> PositionService.normalizeText text2 ->
      (PositionService.calculateTextSimilarity text1 text2 == 0)%Q).
Proof.
  repeat split.
  - destruct (streq text1 text2) eqn:E1.
    + apply streq_spec in E1. now subst.
    + destruct (streq (PositionService.normalizeText text1)
                  (PositionService.normalizeText text2)) eqn:E2.
      * unfold PositionService.calculateTextSimilarity.
        rewrite E1, (streq_sym text2 text1), E1, E2, streq_sym, E2. reflexivity.
      * rewrite (calculateTextSimilarity_zero _ _ E1 E2).
        rewrite calculateTextSimilarity_zero;
          [reflexivity|now rewrite streq_sym|now rewrite streq_sym].
  - intros ->. unfold PositionService.calculateTextSimilarity.
    now rewrite streq_refl.
  - intros Hne Hn. unfold PositionService.calculateTextSimilarity.
    apply streq_false in Hne. rewrite Hne, Hn, streq_refl. reflexivity.
  - intros Hn. assert (Hne : text1 <> text2) by congruence.
    apply streq_false in Hne, Hn. rewrite (calculateTextSimilarity_zero _ _ Hne Hn).
    reflexivity.
Qed.

(** ** Validation and scoring *)

Lemma half_le_ratio (l o : Z) :
  0 < o -> ((5 # 10) <= ofZ l / ofZ o)%Q <-> o <= 2 * l.
Proof.
  intro Ho. rewrite ofZ_le_div by exact Ho.
  unfold Qle, Qmult, ofZ, inject_Z. cbn [Qnum Qden]. rewrite ?Pos.mul_1_r. lia.
Qed.

Lemma ratio_le_two (l o : Z) :
  0 < o -> (ofZ l / ofZ o <= 2)%Q <-> l <= 2 * o.
Proof.
  intro Ho. rewrite ofZ_div_le by exact Ho.
  unfold Qle, Qmult, ofZ, inject_Z. cbn [Qnum Qden]. rewrite ?Pos.mul_1_r. lia.
Qed.

(** X9. validatePosition accepts a candidate exactly when its text and the
    stored text are both non-empty, neither is more than twice as long as
    the other, and the two have the same normalization (which includes
    the case of identical texts). *)
Theorem validatePosition_iff (result : TextRange.t) (position : AnnotationPosition.t) :
  let text := TextRange.text result in
  let original := Primary.selectedText (AnnotationPosition.primary position) in
  PositionService.validatePosition result position = true
  <-> (0 < len text /\ 0 < len original
       /\ len original <= 2 * len text /\ len text <= 2 * len original
       /\ PositionService.normalizeText text = PositionService.normalizeText original).
Proof.
  cbv zeta. unfold PositionService.validatePosition.
  set (text := TextRange.text result).
  set (original := Primary.selectedText (AnnotationPosition.primary position)).
  pose proof (len_nonneg text). pose proof (len_nonneg original).
  destruct (Z.eqb_spec (len text) 0); [split; [discriminate|lia]|].
  destruct (Z.eqb_spec (len original) 0); [split; [discriminate|lia]|].
  assert (Ho : 0 < len original) by lia.
  destruct (Qgt_bool (5 # 10) (ofZ (len text) / ofZ (len original))) eqn:H1.
  { cbn [orb]. split; [discriminate|]. intros (_ & _ & Hh & _). exfalso.
    apply Qgt_bool_iff in H1. apply (half_le_ratio (len text) Ho) in Hh.
    eapply Qlt_not_le; eassumption. }
  destruct (Qgt_bool (ofZ (len text) / ofZ (len original)) 2) eqn:H2.
  { cbn [orb]. split; [discriminate|]. intros (_ & _ & _ & Hh & _). exfalso.
    apply Qgt_bool_iff in H2. apply (ratio_le_two (len text) Ho) in Hh.
    eapply Qlt_not_le; eassumption. }
  cbn [orb]. apply Qgt_bool_false_iff in H1, H2.
  apply (half_le_ratio (len text) Ho) in H1.
  apply (ratio_le_two (len text) Ho) in H2.
  destruct (streq text original) eqn:E1.
  - apply streq_spec in E1.
    unfold PositionService.calculateTextSimilarity.
    rewrite E1, streq_refl. split; [|reflexivity]. intros _. repeat split; lia.
  - destruct (streq (PositionService.normalizeText text)
                (PositionService.normalizeText original)) eqn:E2.
    + unfold PositionService.calculateTextSimilarity. rewrite E1, E2.
      apply streq_spec in E2. split; [|reflexivity]. intros _. repeat split; try lia.
      exact E2.
    + rewrite (calculateTextSimilarity_zero _ _ E1 E2).
      apply streq_false in E2. split; [discriminate|]. intros (_ & _ & _ & _ & E).
      contradiction.
Qed.

Lemma accuracy_bounds (offsetDiff : Z) (maxAllowedDiff : Q) :
  0 <= offsetDiff -> (0 < maxAllowedDiff)%Q ->
  (0 <= qmax 0 (1 - ofZ offsetDiff / maxAllowedDiff) <= 1)%Q.
Proof.
  intros Hd Hm. split; [apply qmax_ge_l|].
  unfold qmax. destruct (Qle_bool 0 _); [|discriminate].
  assert (Hq : (0 <= ofZ offsetDiff / maxAllowedDiff)%Q).
  { apply Qle_shift_div_l; [exact Hm|]. rewrite Qmult_0_l.
    unfold ofZ. rewrite <- (Zle_Qle 0). exact Hd. }
  lra.
Qed.

Lemma calculatePositionAccuracy_bounds (result : TextRange.t)
    (position : AnnotationPosition.t) :
  (0 <= PositionService.calculatePositionAccuracy result position <= 1)%Q.
Proof.
  unfold PositionService.calculatePositionAccuracy. cbv zeta.
  set (M := qmax _ 10).
  assert (HM : (0 < M)%Q).
  { eapply Qlt_le_trans; [|apply qmax_ge_r]. reflexivity. }
  pose proof (@accuracy_bounds
                (Z.abs (TextRange.startOffset result
                        - Primary.startOffset (AnnotationPosition.primary position)))
                M (Z.abs_nonneg _) HM) as [Ha1 Ha2].
  pose proof (@accuracy_bounds
                (Z.abs (TextRange.endOffset result
                        - Primary.endOffset (AnnotationPosition.primary position)))
                M (Z.abs_nonneg _) HM) as [Hb1 Hb2].
  split.
  - apply Qle_shift_div_l; [reflexivity|]. lra.
  - apply Qle_shift_div_r; [reflexivity|]. lra.
Qed.

Lemma calculateLengthConsistency_bounds (result : TextRange.t)
    (position : AnnotationPosition.t) :
  (0 <= PositionService.calculateLengthConsistency result position <= 1)%Q.
Proof.
  unfold PositionService.calculateLengthConsistency.
  set (o := len (Primary.selectedText (AnnotationPosition.primary position))).
  set (l := len (TextRange.text result)).
  pose proof (len_nonneg (Primary.selectedText (AnnotationPosition.primary position))).
  pose proof (len_nonneg (TextRange.text result)).
  destruct (Z.eqb_spec o 0).
  - destruct (l =? 0); split; discriminate.
  - assert (Hmax : 0 < Z.max l o) by (unfold o, l in *; lia).
    pose proof (ofZ_pos Hmax) as Hp. split.
    + apply Qle_shift_div_l; [exact Hp|]. rewrite Qmult_0_l.
      unfold ofZ. rewrite <- (Zle_Qle 0). unfold o, l in *. lia.
    + apply Qle_shift_div_r; [exact Hp|]. rewrite Qmult_1_l.
      unfold ofZ. rewrite <- Zle_Qle. lia.
Qed.

Lemma calculateTextSimilarity_bounds (text1 text2 : jsstring) :
  (0 <= PositionService.calculateTextSimilarity text1 text2 <= 1)%Q.
Proof.
  destruct (calculateTextSimilarity_values text1 text2) as [E|[E|E]]; rewrite E;
    split; discriminate.
Qed.

Lemma calculateMatchConfidence_range (result : TextRange.t)
    (position : AnnotationPosition.t) :
  (8 # 100 <= PositionService.calculateMatchConfidence result position <= 98 # 100)%Q.
Proof.
  pose proof (calculateTextSimilarity_bounds (TextRange.text result)
                (Primary.selectedText (AnnotationPosition.primary position))) as [Hs1 Hs2].
  pose proof (calculatePositionAccuracy_bounds result position) as [Hp1 Hp2].
  pose proof (calculateLengthConsistency_bounds result position) as [Hl1 Hl2].
  unfold PositionService.calculateMatchConfidence,
    PositionService.calculateContextMatch. cbv zeta.
  split.
  - apply qmin_ge; [lra|discriminate].
  - unfold qmin. destruct (Qle_bool _ 1) eqn:E; [lra|].
    exfalso. assert (Hx : Qgt_bool
      (0 + PositionService.calculateTextSimilarity (TextRange.text result)
             (Primary.selectedText (AnnotationPosition.primary position)) * (4 # 10)
       + PositionService.calculatePositionAccuracy result position * (3 # 10)
       + PositionService.calculateLengthConsistency result position * (2 # 10)
       + (8 # 10) * (1 # 10)) 1 = true) by (unfold Qgt_bool; now rewrite E).
    apply Qgt_bool_iff in Hx. lra.
Qed.

(** X10. For every candidate and locator, calculatePositionAccuracy and
    calculateLengthConsistency lie between 0 and 1, and
    calculateMatchConfidence lies between 0.08 and 0.98: the cap
    Math.min(confidence, 1.0) is never active, and the confidence is always
    the blend 0.4 * similarity + 0.3 * accuracy + 0.2 * consistency + 0.08
    (numbers taken as exact rationals). *)
Theorem calculateMatchConfidence_bounds (result : TextRange.t)
    (position : AnnotationPosition.t) :
  (0 <= PositionService.calculatePositionAccuracy result position <= 1)%Q
  /\ (0 <= PositionService.calculateLengthConsistency result position <= 1)%Q
  /\ (8 # 100 <= PositionService.calculateMatchConfidence result position <= 98 # 100)%Q
  /\ (PositionService.calculateMatchConfidence result position
      == PositionService.calculateTextSimilarity (TextRange.text result)
           (Primary.selectedText (AnnotationPosition.primary position)) * (4 # 10)
         + PositionService.calculatePositionAccuracy result position * (3 # 10)
         + PositionService.calculateLengthConsistency result position * (2 # 10)
         + (8 # 100))%Q.
Proof.
  split; [apply calculatePositionAccuracy_bounds|].
  split; [apply calculateLengthConsistency_bounds|].
  split; [apply calculateMatchConfidence_range|].
  pose proof (calculateTextSimilarity_bounds (TextRange.text result)
                (Primary.selectedText (AnnotationPosition.primary position))) as [Hs1 Hs2].
  pose proof (calculatePositionAccuracy_bounds result position) as [Hp1 Hp2].
  pose proof (calculateLengthConsistency_bounds result position) as [Hl1 Hl2].
  unfold PositionService.calculateMatchConfidence,
    PositionService.calculateContextMatch. cbv zeta.
  rewrite qmin_le_l; lra.
Qed.

(** ** Sets of words and Jaccard similarity *)

Lemma has_In (xs : list jsstring) (x : jsstring) : has xs x = true <-> In x xs.
Proof.
  unfold has. rewrite existsb_exists. split.
  - intros (y & Hy & E). apply streq_spec in E. now subst.
  - intro H. exists x. split; [exact H|apply streq_refl].
Qed.

Lemma setOfAux_In (xs seen : list jsstring) (x : jsstring) :
  In x (setOfAux seen xs) <-> In x seen \/ In x xs.
Proof.
  revert seen. induction xs as [|y xs IH]; intro seen; simpl.
  - rewrite <- in_rev. tauto.
  - destruct (has seen y) eqn:E; rewrite IH; simpl.
    + apply has_In in E. split; [tauto|]. intros [H|[<-|H]]; tauto.
    + tauto.
Qed.

Lemma setOfAux_NoDup (xs seen : list jsstring) :
  NoDup seen -> NoDup (setOfAux seen xs).
Proof.
  revert seen. induction xs as [|y xs IH]; intros seen H; simpl.
  - now apply NoDup_rev.
  - destruct (has seen y) eqn:E; apply IH; [exact H|].
    constructor; [|exact H]. intro Hin. apply has_In in Hin. congruence.
Qed.

Lemma setOf_In (xs : list jsstring) (x : jsstring) : In x (setOf xs) <-> In x xs.
Proof.
  unfold setOf. rewrite setOfAux_In. split.
  - intros [[]|H]; exact H.
  - intro H. now right.
Qed.

Lemma setOf_NoDup (xs : list jsstring) : NoDup (setOf xs).
Proof. apply setOfAux_NoDup. constructor. Qed.

Lemma size_setOf_incl (xs ys : list jsstring) :
  incl xs ys -> size (setOf xs) <= size (setOf ys).
Proof.
  intro H. unfold size. apply Nat2Z.inj_le.
  apply NoDup_incl_length; [apply setOf_NoDup|].
  intros x Hx. apply (proj2 (setOf_In ys x)). apply H.
  exact (proj1 (setOf_In xs x) Hx).
Qed.

Lemma size_setOf_same (xs ys : list jsstring) :
  incl xs ys -> incl ys xs -> size (setOf xs) = size (setOf ys).
Proof.
  intros H1 H2. apply Z.le_antisymm; now apply size_setOf_incl.
Qed.

Lemma size_setOf_positive (xs : list jsstring) : xs <> [] -> 0 < size (setOf xs).
Proof.
  destruct xs as [|x xs]; [contradiction|]. intros _.
  assert (H : In x (setOf (x :: xs))) by (apply (proj2 (setOf_In (x :: xs) x)); now left).
  unfold size. destruct (setOf (x :: xs)); [contradiction|]. simpl. lia.
Qed.

(** The quotient the source computes from two arrays of words. *)
Lemma jaccard_symmetric (words1 words2 : list jsstring) :
  size (setOf (filter (has words2) words1)) = size (setOf (filter (has words1) words2))
  /\ size (setOf (words1 ++ words2)) = size (setOf (words2 ++ words1)).
Proof.
  split; apply size_setOf_same; intros x Hx.
  - apply filter_In in Hx as [H1 H2]. apply has_In in H2.
    apply filter_In. split; [exact H2|now apply has_In].
  - apply filter_In in Hx as [H1 H2]. apply has_In in H2.
    apply filter_In. split; [exact H2|now apply has_In].
  - apply in_app_or in Hx. apply in_or_app. tauto.
  - apply in_app_or in Hx. apply in_or_app. tauto.
Qed.

Lemma jaccard_bounds (words1 words2 : list jsstring) :
  let intersection := setOf (filter (has words2) words1) in
  let union := setOf (words1 ++ words2) in
  (0 <= ofZ (size intersection) / ofZ (if size union =? 0 then 1 else size union) <= 1)%Q.
Proof.
  cbv zeta.
  assert (Hle : size (setOf (filter (has words2) words1))
                <= size (setOf (words1 ++ words2))).
  { apply size_setOf_incl. intros x Hx. apply filter_In in Hx as [Hx _].
    apply in_or_app. now left. }
  assert (H0 : 0 <= size (setOf (filter (has words2) words1))) by (unfold size; lia).
  set (i := size _) in *. set (u := size (setOf (words1 ++ words2))) in *.
  assert (Hd : 0 < (if u =? 0 then 1 else u)) by (destruct (Z.eqb_spec u 0); lia).
  pose proof (ofZ_pos Hd) as Hp. split.
  - apply Qle_shift_div_l; [exact Hp|]. rewrite Qmult_0_l.
    unfold ofZ. now rewrite <- (Zle_Qle 0).
  - apply Qle_shift_div_r; [exact Hp|]. rewrite Qmult_1_l.
    unfold ofZ. rewrite <- Zle_Qle. destruct (Z.eqb_spec u 0); lia.
Qed.

(** X11. TextMatchingAlgorithm.calculateTextSimilarity is symmetric in
    its two arguments, takes values between 0 and 1, and is 1 on identical
    strings. *)
Theorem textSimilarity_symmetric_bounded (text1 text2 : jsstring) :
  TextMatchingAlgorithm.calculateTextSimilarity text1 text2
  = TextMatchingAlgorithm.calculateTextSimilarity text2 text1
  /\ (0 <= TextMatchingAlgorithm.calculateTextSimilarity text1 text2 <= 1)%Q
  /\ TextMatchingAlgorithm.calculateTextSimilarity text1 text1 = 1%Q.
Proof.
  split; [|split].
  - unfold TextMatchingAlgorithm.calculateTextSimilarity.
    rewrite (streq_sym text2 text1).
    destruct (streq text1 text2); [reflexivity|].
    rewrite (streq_sym (TextMatchingAlgorithm.normalizeText text2)).
    destruct (streq _ _); [reflexivity|].
    destruct (jaccard_symmetric
                (setOf (splitSpaces (TextMatchingAlgorithm.normalizeText text1)))
                (setOf (splitSpaces (TextMatchingAlgorithm.normalizeText text2))))
      as [Hi Hu].
    now rewrite Hi, Hu.
  - unfold TextMatchingAlgorithm.calculateTextSimilarity.
    destruct (streq text1 text2); [split; discriminate|].
    destruct (streq _ _); [split; discriminate|].
    apply jaccard_bounds.
  - unfold TextMatchingAlgorithm.calculateTextSimilarity. now rewrite streq_refl.
Qed.

Lemma splitCharAux_nonempty (sep : Z) (s cur : jsstring) : splitCharAux sep cur s <> [].
Proof.
  revert cur. induction s as [|c s IH]; intro cur; simpl; [discriminate|].
  destruct (c =? sep); [discriminate|apply IH].
Qed.

(** X12. compareFingerprints is symmetric, and every fingerprint matches
    itself (also the empty one, whose only shingle is the empty string). *)
Theorem compareFingerprints_symmetric_reflexive (fp1 fp2 : jsstring) :
  TextMatchingAlgorithm.compareFingerprints fp1 fp2
  = TextMatchingAlgorithm.compareFingerprints fp2 fp1
  /\ TextMatchingAlgorithm.compareFingerprints fp1 fp1 = true.
Proof.
  split.
  - unfold TextMatchingAlgorithm.compareFingerprints.
    destruct (jaccard_symmetric (setOf (splitChar 124 fp1)) (setOf (splitChar 124 fp2)))
      as [Hi Hu].
    now rewrite Hi, Hu.
  - unfold TextMatchingAlgorithm.compareFingerprints.
    set (S := setOf (splitChar 124 fp1)).
    assert (Hpos : 0 < size S).
    { unfold S. assert (Hne : splitChar 124 fp1 <> []) by apply splitCharAux_nonempty.
      destruct (splitChar 124 fp1) as [|x xs] eqn:E; [contradiction|].
      assert (H : In x (setOf (x :: xs))) by (apply (proj2 (setOf_In (x :: xs) x)); now left).
      unfold size. destruct (setOf (x :: xs)); [contradiction|]. simpl. lia. }
    assert (Hi : size (setOf (filter (has S) S)) = size S).
    { transitivity (size (setOf S)).
      - apply size_setOf_same; intros x Hx.
        + now apply filter_In in Hx as [Hx _].
        + apply filter_In. split; [exact Hx|now apply has_In].
      - unfold S. apply size_setOf_same; intros x Hx.
        + exact (proj1 (setOf_In _ x) Hx).
        + exact (proj2 (setOf_In _ x) Hx). }
    assert (Hu : size (setOf (S ++ S)) = size S).
    { transitivity (size (setOf S)).
      - apply size_setOf_same; intros x Hx.
        + apply in_app_or in Hx. tauto.
        + apply in_or_app. now left.
      - unfold S. apply size_setOf_same; intros x Hx.
        + exact (proj1 (setOf_In _ x) Hx).
        + exact (proj2 (setOf_In _ x) Hx). }
    rewrite Hi, Hu. destruct (Z.eqb_spec (size S) 0); [lia|].
    apply Qgt_bool_iff.
    rewrite (ofZ_div_self Hpos). reflexivity.
Qed.

(** ** The hash *)

Lemma toInt32_range (z : Z) : - 2 ^ 31 <= HashUtil.toInt32 z < 2 ^ 31.
Proof.
  unfold HashUtil.toInt32.
  pose proof (Z.mod_pos_bound (z + 2 ^ 31) (2 ^ 32) ltac:(lia)). lia.
Qed.

Lemma fold_step_range (input : jsstring) (hash : Z) :
  - 2 ^ 31 <= hash < 2 ^ 31 ->
  - 2 ^ 31 <= fold_left HashUtil.step input hash < 2 ^ 31.
Proof.
  revert hash. induction input as [|c input IH]; intros hash H; simpl; [exact H|].
  apply IH. unfold HashUtil.step. apply toInt32_range.
Qed.

Lemma digitChar_hex (d : Z) :
  0 <= d < 16 -> Props.isHexDigit (digitChar d) = true.
Proof.
  intro H. unfold Props.isHexDigit, digitChar.
  destruct (Z.ltb_spec d 10); apply orb_true_iff; [left|right];
    apply andb_true_iff; split; apply Z.leb_le; lia.
Qed.

Lemma digitValue_digitChar (d : Z) : 0 <= d < 16 -> Props.digitValue (digitChar d) = d.
Proof.
  intro H. unfold Props.digitValue, digitChar.
  destruct (Z.ltb_spec d 10).
  - destruct (Z.ltb_spec (48 + d) 58); lia.
  - destruct (Z.ltb_spec (87 + d) 58); lia.
Qed.

Lemma digitsAux_hex (fuel : nat) :
  forall n acc,
    0 <= n -> Forall (fun c => Props.isHexDigit c = true) acc ->
    Forall (fun c => Props.isHexDigit c = true) (digitsAux fuel 16 n acc).
Proof.
  induction fuel as [|fuel IH]; intros n acc Hn Hacc; simpl; [exact Hacc|].
  destruct (Z.ltb_spec n 16).
  - constructor; [apply digitChar_hex; lia|exact Hacc].
  - apply IH; [apply Z.div_pos; lia|].
    constructor; [|exact Hacc]. apply digitChar_hex. apply Z.mod_pos_bound. lia.
Qed.

Lemma digitsAux_length (fuel : nat) :
  forall n acc (k : nat),
    0 <= n < 16 ^ Z.of_nat (S k) ->
    (List.length acc < List.length (digitsAux (S fuel) 16 n acc)
     <= S k + List.length acc)%nat.
Proof.
  induction fuel as [|fuel IH]; intros n acc k Hn.
  - cbn [digitsAux]. destruct (n <? 16); simpl; lia.
  - remember (S fuel) as f eqn:Ef. cbn [digitsAux]. subst f.
    destruct (Z.ltb_spec n 16); [simpl; lia|].
    destruct k as [|k]; [change (16 ^ Z.of_nat 1) with 16 in Hn; lia|].
    assert (Hq : 0 <= n / 16 < 16 ^ Z.of_nat (S k)).
    { split; [apply Z.div_pos; lia|]. apply Z.div_lt_upper_bound; [lia|].
      replace (Z.of_nat (S (S k))) with (Z.succ (Z.of_nat (S k))) in Hn by lia.
      rewrite Z.pow_succ_r in Hn by lia. lia. }
    specialize (IH (n / 16) (digitChar (n mod 16) :: acc) k Hq).
    change (List.length (digitChar (n mod 16) :: acc)) with (S (List.length acc)) in IH.
    lia.
Qed.

Lemma digitsAux_value (fuel : nat) :
  forall n acc,
    0 <= n < 2 ^ Z.of_nat fuel ->
    fold_left (fun v c => v * 16 + Props.digitValue c) (digitsAux fuel 16 n acc) 0
    = fold_left (fun v c => v * 16 + Props.digitValue c) acc n.
Proof.
  induction fuel as [|fuel IH]; intros n acc Hn.
  - simpl in *. replace n with 0 by lia. reflexivity.
  - cbn [digitsAux]. destruct (Z.ltb_spec n 16).
    + cbn [fold_left]. rewrite digitValue_digitChar by lia. reflexivity.
    + rewrite IH.
      * cbn [fold_left]. rewrite digitValue_digitChar by (apply Z.mod_pos_bound; lia).
        f_equal. pose proof (Z.div_mod n 16 ltac:(lia)). lia.
      * split; [apply Z.div_pos; lia|]. apply Z.div_lt_upper_bound; [lia|].
        rewrite Nat2Z.inj_succ, Z.pow_succ_r in Hn by lia. lia.
Qed.

Lemma natToString_hex (n : Z) :
  0 <= n <= 2 ^ 31 ->
  Forall (fun c => Props.isHexDigit c = true) (natToString 16 n)
  /\ 1 <= len (natToString 16 n) <= 8
  /\ Props.hexValue (natToString 16 n) = n.
Proof.
  intro Hn. unfold natToString. split; [|split].
  - apply digitsAux_hex; [lia|constructor].
  - assert (Hr : 0 <= n < 16 ^ Z.of_nat 8)
      by (change (16 ^ Z.of_nat 8) with (2 ^ 32); lia).
    pose proof (@digitsAux_length (Z.to_nat (Z.log2 n)) n [] 7 Hr) as H.
    change (List.length (@nil Z)) with O in H. unfold len. lia.
  - unfold Props.hexValue. rewrite digitsAux_value; [reflexivity|].
    split; [lia|]. rewrite Nat2Z.inj_succ, Z2Nat.id by apply Z.log2_nonneg.
    destruct (Z.eq_dec n 0) as [->|Hz]; [reflexivity|].
    apply Z.log2_spec. lia.
Qed.

Lemma slice_whole (s : jsstring) (b : Z) : len s <= b -> slice s 0 b = s.
Proof.
  intro H. pose proof (len_nonneg s). unfold slice, clampIndex.
  destruct (Z.ltb_spec 0 0); [lia|]. destruct (Z.ltb_spec b 0); [lia|].
  rewrite (Z.min_l 0), (Z.min_r b) by lia. simpl skipn. rewrite Z.sub_0_r.
  unfold len. rewrite Nat2Z.id. apply firstn_all.
Qed.

Lemma sha256_hex (input : jsstring) :
  Forall (fun c => Props.isHexDigit c = true) (HashUtil.sha256 input)
  /\ 1 <= len (HashUtil.sha256 input) <= 8.
Proof.
  pose proof (@fold_step_range input 0 ltac:(lia)) as Hr.
  assert (Ha : 0 <= Z.abs (fold_left HashUtil.step input 0) <= 2 ^ 31) by lia.
  destruct (natToString_hex Ha) as (Hhex & Hlen & _). split; assumption.
Qed.

(** X13. HashUtil.sha256 keeps its running hash within the signed 32-bit
    range [-2^31, 2^31), and the string it returns is the absolute value of
    the final hash written with one to eight lower-case hexadecimal digits,
    from which that absolute value can be read back.
    Hence md5, which keeps the first eight characters, returns the same
    string as sha256, and ContextAnalyzer.generateHash computes the same
    function. *)
Theorem sha256_is_a_32_bit_hash (input : jsstring) :
  let hash := fold_left HashUtil.step input 0 in
  - 2 ^ 31 <= hash < 2 ^ 31
  /\ Forall (fun c => Props.isHexDigit c = true) (HashUtil.sha256 input)
  /\ 1 <= len (HashUtil.sha256 input) <= 8
  /\ Props.hexValue (HashUtil.sha256 input) = Z.abs hash
  /\ HashUtil.md5 input = HashUtil.sha256 input
  /\ ContextAnalyzer.generateHash input = HashUtil.sha256 input.
Proof.
  cbv zeta.
  pose proof (@fold_step_range input 0 ltac:(lia)) as Hr.
  assert (Ha : 0 <= Z.abs (fold_left HashUtil.step input 0) <= 2 ^ 31) by lia.
  destruct (natToString_hex Ha) as (Hhex & Hlen & Hval).
  split; [exact Hr|]. split; [exact Hhex|]. split; [exact Hlen|].
  split; [exact Hval|]. split; [|reflexivity].
  unfold HashUtil.md5. apply slice_whole.
  unfold HashUtil.sha256. lia.
Qed.

(** ** The captured context *)

Lemma slice_slice_prefix (s : jsstring) (a b n : Z) :
  0 <= a <= b -> b <= len s -> 0 <= n ->
  slice (slice s a b) 0 n = slice s a (Z.min b (a + n)).
Proof.
  intros Ha Hb Hn.
  rewrite (@slice_plain (slice s a b) 0 n) by lia.
  rewrite len_slice by lia.
  rewrite !slice_plain by lia.
  rewrite (Z.min_l 0) by lia. simpl skipn. rewrite Z.sub_0_r.
  rewrite (Z.min_l a), (Z.min_l b) by lia.
  rewrite (Z.min_l (Z.min b (a + n))) by lia.
  rewrite firstn_firstn. f_equal. lia.
Qed.

Lemma slice_slice_suffix (s : jsstring) (a b n : Z) :
  0 <= a <= b -> b <= len s -> 0 < n ->
  sliceFrom (slice s a b) (- n) = slice s (Z.max a (b - n)) b.
Proof.
  intros Ha Hb Hn. unfold sliceFrom.
  unfold slice at 1. rewrite len_slice by lia. unfold clampIndex.
  destruct (Z.ltb_spec (- n) 0); [|lia].
  destruct (Z.ltb_spec (b - a) 0); [lia|].
  rewrite (Z.min_l (b - a)) by lia.
  rewrite !slice_plain by lia.
  rewrite (Z.min_l a), (Z.min_l b), (Z.min_l (Z.max a (b - n))) by lia.
  rewrite skipn_firstn_comm, skipn_skipn.
  replace (Z.to_nat (Z.max (b - a + - n) 0) + Z.to_nat a)%nat
    with (Z.to_nat (Z.max a (b - n))) by lia.
  rewrite firstn_firstn. f_equal. lia.
Qed.

Lemma firstn_plus (A : Type) (n m : nat) (l : list A) :
  firstn n l ++ firstn m (skipn n l) = firstn (n + m) l.
Proof.
  revert l. induction n as [|n IH]; intro l; [reflexivity|].
  destruct l as [|x l]; simpl; [now rewrite firstn_nil|]. now rewrite IH.
Qed.

Lemma slice_app (s : jsstring) (a b c : Z) :
  0 <= a <= b -> b <= c -> c <= len s ->
  slice s a b ++ slice s b c = slice s a c.
Proof.
  intros Ha Hb Hc. rewrite !slice_plain by lia.
  rewrite !Z.min_l by lia.
  replace (Z.to_nat b) with (Z.to_nat (b - a) + Z.to_nat a)%nat by lia.
  rewrite <- skipn_skipn.
  set (t := skipn (Z.to_nat a) s).
  replace (Z.to_nat (c - a)) with (Z.to_nat (b - a) + Z.to_nat (c - b))%nat by lia.
  apply firstn_plus.
Qed.

(** X14. For a range inside the document (0 <= start <= end <= length),
    ContextAnalyzer.analyzeContext returns as [before] the 50 characters in
    front of the range (fewer at the beginning of the document: min(50,
    start) of them), as [after] the 50 characters behind it (min(50,
    length - end) of them), and as [hash] the hash of the document slice
    from 100 characters before the range to 100 characters after it. *)
Theorem analyzeContext_windows (textContent : jsstring) (startOffset endOffset : Z) :
  0 <= startOffset <= endOffset -> endOffset <= len textContent ->
  let context := ContextAnalyzer.analyzeContext textContent startOffset endOffset in
  ContextInfo.before context
  = slice textContent (Z.max 0 (startOffset - 50)) startOffset
  /\ ContextInfo.after context
     = slice textContent endOffset (Z.min (len textContent) (endOffset + 50))
  /\ len (ContextInfo.before context) = Z.min 50 startOffset
  /\ len (ContextInfo.after context) = Z.min 50 (len textContent - endOffset)
  /\ ContextInfo.hash context
     = HashUtil.sha256
         (slice textContent (Z.max 0 (startOffset - 100))
            (Z.min (len textContent) (endOffset + 100))).
Proof.
  intros Hs He. cbv zeta. unfold ContextAnalyzer.analyzeContext.
  cbn [ContextInfo.before ContextInfo.after ContextInfo.hash].
  assert (Hb : sliceFrom (slice textContent (Z.max 0 (startOffset - 100)) startOffset)
                 (-50)
               = slice textContent (Z.max 0 (startOffset - 50)) startOffset).
  { change (-50) with (- (50)).
    rewrite (@slice_slice_suffix textContent (Z.max 0 (startOffset - 100))
               startOffset 50) by lia.
    f_equal. lia. }
  assert (Ha : slice (slice textContent endOffset
                        (Z.min (len textContent) (endOffset + 100))) 0 50
               = slice textContent endOffset
                   (Z.min (len textContent) (endOffset + 50))).
  { rewrite slice_slice_prefix by lia. f_equal. lia. }
  rewrite Hb, Ha. repeat split.
  - rewrite len_slice; lia.
  - rewrite len_slice; lia.
  - unfold ContextAnalyzer.generateHash, HashUtil.sha256.
    rewrite !slice_app by lia. reflexivity.
Qed.

(** ** The confidence of a new locator *)

(** X15. calculatePositionConfidence lies between 0.5 and 1; without an
    elementPath it is at most 0.9; and it is exactly 0.5 for a selection of
    at most 10 characters with at most 20 characters of context on either
    side and no elementPath. *)
Theorem calculatePositionConfidence_bounds (selectionData : SelectionData.t) :
  let confidence := PositionService.calculatePositionConfidence selectionData in
  (5 # 10 <= confidence <= 1)%Q
  /\ (truthyString (SelectionData.elementPath selectionData) = false ->
      (confidence <= 9 # 10)%Q)
  /\ (len (SelectionData.selectedText selectionData) <= 10 ->
      len (SelectionData.contextBefore selectionData) <= 20 ->
      len (SelectionData.contextAfter selectionData) <= 20 ->
      truthyString (SelectionData.elementPath selectionData) = false ->
      confidence = (5 # 10)%Q).
Proof.
  cbv zeta. unfold PositionService.calculatePositionConfidence. cbv zeta.
  destruct (Z.gtb_spec (len (SelectionData.selectedText selectionData)) 10);
    destruct (Z.gtb_spec (len (SelectionData.selectedText selectionData)) 50);
    destruct (Z.gtb_spec (len (SelectionData.contextBefore selectionData)) 20);
    destruct (Z.gtb_spec (len (SelectionData.contextAfter selectionData)) 20);
    destruct (truthyString (SelectionData.elementPath selectionData));
    (split; [split; discriminate|]); (split; [intro; try discriminate|]);
    intros; try lia; try discriminate; reflexivity.
Qed.

(** ** The score of a context match *)

(** X16. calculatePositionSimilarity and calculateLengthSimilarity lie
    between 0 and 1 for every match and locator, and so does
    calculateMatchScore. *)
Theorem calculateMatchScore_bounds (m : TextMatch.t) (position : AnnotationPosition.t) :
  (0 <= TextMatchingAlgorithm.calculatePositionSimilarity m position <= 1)%Q
  /\ (0 <= TextMatchingAlgorithm.calculateLengthSimilarity m position <= 1)%Q
  /\ (0 <= TextMatchingAlgorithm.calculateMatchScore m position <= 1)%Q.
Proof.
  assert (Hp : (0 <= TextMatchingAlgorithm.calculatePositionSimilarity m position <= 1)%Q).
  { unfold TextMatchingAlgorithm.calculatePositionSimilarity. cbv zeta.
    apply accuracy_bounds; [apply Z.abs_nonneg|].
    eapply Qlt_le_trans; [|apply qmax_ge_l]. reflexivity. }
  assert (Hl : (0 <= TextMatchingAlgorithm.calculateLengthSimilarity m position <= 1)%Q).
  { unfold TextMatchingAlgorithm.calculateLengthSimilarity.
    set (o := len (Primary.selectedText (AnnotationPosition.primary position))).
    set (l := len (TextMatch.text m)).
    pose proof (len_nonneg (Primary.selectedText (AnnotationPosition.primary position))).
    pose proof (len_nonneg (TextMatch.text m)).
    destruct (Z.eqb_spec o 0).
    - destruct (l =? 0); split; discriminate.
    - assert (Hmax : 0 < Z.max l o) by (unfold o, l in *; lia).
      pose proof (ofZ_pos Hmax) as Hpos. split.
      + apply Qle_shift_div_l; [exact Hpos|]. rewrite Qmult_0_l.
        unfold ofZ. rewrite <- (Zle_Qle 0). unfold o, l in *. lia.
      + apply Qle_shift_div_r; [exact Hpos|]. rewrite Qmult_1_l.
        unfold ofZ. rewrite <- Zle_Qle. lia. }
  assert (Ht : (0 <= TextMatchingAlgorithm.calculateTextSimilarity (TextMatch.text m)
                       (Primary.selectedText (AnnotationPosition.primary position))
                <= 1)%Q).
  { unfold TextMatchingAlgorithm.calculateTextSimilarity.
    destruct (streq _ _); [split; discriminate|].
    destruct (streq _ _); [split; discriminate|].
    apply jaccard_bounds. }
  split; [exact Hp|]. split; [exact Hl|].
  unfold TextMatchingAlgorithm.calculateMatchScore. cbv zeta. lra.
Qed.

(** ** Locators made by calculatePosition *)

(** X17. On a locator built by calculatePosition,
    PositionService.findByStructuralPath returns null without searching
    when the selection has no elementPath and floor(startOffset / 300) is
    0, and in every other case it is findByParagraphIndex with
    paragraphIndex floor(startOffset / 300): analyze always sets
    paragraphIndex, so the search by elementPath is never reached. *)
Theorem structural_path_of_calculatePosition (now : Z) (textId textContent : jsstring)
    (selection : SelectionData.t) :
  PositionService.findByStructuralPath textContent
    (PositionService.calculatePosition now textId selection)
  = if negb (truthyString (SelectionData.elementPath selection))
       && (SelectionData.startOffset selection / 300 =? 0)
    then None
    else StructuralAnalyzer.findByParagraphIndex textContent
           (SelectionData.startOffset selection / 300)
           (SelectionData.selectedText selection).
Proof.
  unfold PositionService.findByStructuralPath, PositionService.calculatePosition,
    StructuralAnalyzer.findByStructuralPath, StructuralAnalyzer.analyze,
    StructuralAnalyzer.calculateParagraphIndex.
  cbn [AnnotationPosition.structural AnnotationPosition.primary
       StructuralPath.elementPath StructuralPath.paragraphIndex Primary.selectedText
       truthyNumber].
  destruct (SelectionData.elementPath selection) as [[|c path]|];
    cbn [truthyString negb andb]; try rewrite negb_involutive; reflexivity.
Qed.

(** *** The stored fingerprint *)

Lemma splitCharAux_plain (sep : Z) (x rest cur : jsstring) :
  ~ In sep x ->
  splitCharAux sep cur (x ++ rest) = splitCharAux sep (rev x ++ cur) rest.
Proof.
  revert cur. induction x as [|c x IH]; intros cur H; [reflexivity|].
  simpl. destruct (Z.eqb_spec c sep) as [->|Hc]; [exfalso; apply H; now left|].
  rewrite IH by (intro Hin; apply H; now right).
  now rewrite <- app_assoc.
Qed.

(** Splitting what was joined gives the pieces back, when no piece holds
    the separator. *)
Lemma splitChar_join (sep : Z) (t : jsstring) (ts : list jsstring) :
  Forall (fun x => ~ In sep x) (t :: ts) ->
  splitChar sep (join [sep] (t :: ts)) = t :: ts.
Proof.
  unfold splitChar. revert t. induction ts as [|t' ts IH]; intros t H.
  - simpl. rewrite <- (app_nil_r t) at 1.
    rewrite splitCharAux_plain by (inversion H; assumption).
    simpl. now rewrite app_nil_r, rev_involutive.
  - change (join [sep] (t :: t' :: ts)) with (t ++ [sep] ++ join [sep] (t' :: ts)).
    rewrite splitCharAux_plain by (inversion H; assumption).
    simpl. rewrite Z.eqb_refl, app_nil_r, rev_involutive. f_equal.
    apply IH. now inversion H.
Qed.

Lemma splitSpacesAux_members (s cur : jsstring) (c : Z) :
  forall inRun word,
    In word (splitSpacesAux cur inRun s) -> In c word -> In c cur \/ In c s.
Proof.
  revert cur. induction s as [|x s IH]; intros cur inRun word Hw Hc.
  - simpl in Hw. destruct Hw as [<-|[]]. left. now apply in_rev.
  - simpl in Hw. destruct (isSpace x).
    + destruct inRun.
      * destruct (IH _ _ _ Hw Hc); [now left|right; now right].
      * destruct Hw as [<-|Hw]; [left; now apply in_rev|].
        destruct (IH _ _ _ Hw Hc) as [[]|H]. right. now right.
    + destruct (IH _ _ _ Hw Hc) as [[<-|H]|H];
        [right; now left|now left|right; now right].
Qed.

Lemma trigramsOf_members (words : list jsstring) (t : jsstring) :
  In t (TextMatchingAlgorithm.trigramsOf words) ->
  In 32 t /\ forall c, In c t -> c = 32 \/ exists word, In word words /\ In c word.
Proof.
  induction words as [|a words IH]; [intros []|].
  destruct words as [|b [|c words]]; [intros []|intros []|].
  intros [<-|H].
  - split; [apply in_or_app; right; now left|].
    intros x Hx. simpl in Hx.
    apply in_app_or in Hx as [Hx|[<-|Hx]];
      [right; exists a; split; [now left|exact Hx]|now left|].
    apply in_app_or in Hx as [Hx|[<-|Hx]];
      [right; exists b; split; [right; now left|exact Hx]|now left|].
    right. exists c. split; [right; right; now left|exact Hx].
  - destruct (IH H) as [H32 Hall]. split; [exact H32|].
    intros x Hx. destruct (Hall x Hx) as [->|(word & Hw & Hc)]; [now left|].
    right. exists word. split; [now right|exact Hc].
Qed.

Lemma hex_no_space (s : jsstring) :
  Forall (fun c => Props.isHexDigit c = true) s -> ~ In 32 s.
Proof.
  intros H Hin. rewrite Forall_forall in H. specialize (H _ Hin). discriminate.
Qed.

Section StoredFingerprint.

Variable toLowerCase : jsstring -> jsstring.
Hypothesis toLowerCase_no_bar : forall s, ~ In 124 s -> ~ In 124 (toLowerCase s).

(** A hash is no trigram of any text without a vertical bar. *)
Lemma compareFingerprints_hash (input candidate : jsstring) :
  ~ In 124 candidate ->
  TextMatchingAlgorithm.compareFingerprints (HashUtil.sha256 input)
    (TextMatchingAlgorithm.generateTextFingerprint toLowerCase candidate) = false.
Proof.
  intro Hbar.
  destruct (sha256_hex input) as (Hhex & Hlen).
  assert (Hsingle : splitChar 124 (HashUtil.sha256 input) = [HashUtil.sha256 input]).
  { rewrite <- (@splitChar_join 124 (HashUtil.sha256 input) []).
    - reflexivity.
    - constructor; [|constructor]. intro Hin. rewrite Forall_forall in Hhex.
      specialize (Hhex _ Hin). discriminate. }
  unfold TextMatchingAlgorithm.compareFingerprints,
    TextMatchingAlgorithm.generateTextFingerprint.
  rewrite Hsingle.
  set (words := filter (fun word => len word >? 2) (splitSpaces (toLowerCase candidate))).
  assert (Hwords : forall word, In word words -> ~ In 124 word).
  { intros word Hw Hc. apply filter_In in Hw as [Hw _].
    destruct (@splitSpacesAux_members (toLowerCase candidate) [] 124 false word Hw Hc)
      as [[]|H].
    now apply (toLowerCase_no_bar candidate Hbar). }
  assert (Hmiss : has (setOf (splitChar 124
                                (join [124] (TextMatchingAlgorithm.trigramsOf words))))
                    (HashUtil.sha256 input) = false).
  { apply not_true_is_false. intro Hhas.
    apply has_In in Hhas. apply (proj1 (setOf_In _ _)) in Hhas.
    destruct (TextMatchingAlgorithm.trigramsOf words) as [|t ts] eqn:Et.
    - simpl in Hhas. destruct Hhas as [E|[]].
      rewrite <- E in Hlen. unfold len in Hlen. simpl in Hlen. lia.
    - rewrite splitChar_join in Hhas.
      + rewrite <- Et in Hhas. apply trigramsOf_members in Hhas as [H32 _].
        now apply (hex_no_space Hhex).
      + apply Forall_forall. intros x Hx Hc. rewrite <- Et in Hx.
        apply trigramsOf_members in Hx as [_ Hall].
        destruct (Hall _ Hc) as [E|(word & Hw & Hcw)]; [discriminate|].
        now apply (Hwords word Hw). }
  change (setOf [HashUtil.sha256 input]) with [HashUtil.sha256 input].
  cbn [filter]. rewrite Hmiss.
  change (ofZ (size (setOf []))) with 0%Q.
  unfold Qdiv. reflexivity.
Qed.

End StoredFingerprint.

(** X18. The fingerprint that calculatePosition stores is a hash (a string
    of hexadecimal digits), while findByTextFingerprint compares it, split
    at vertical bars, with the trigrams of each window.  A trigram holds
    a space and a hash holds none, so no window passes
    compareFingerprints: on a document without a vertical bar (and a
    toLowerCase that introduces none) the fingerprint strategy returns null
    for every locator built by calculatePosition. *)
Theorem fingerprint_of_calculatePosition_never_matches
    (toLowerCase : jsstring -> jsstring) (now : Z) (textId textContent : jsstring)
    (selection : SelectionData.t) :
  (forall s, ~ In 124 s -> ~ In 124 (toLowerCase s)) ->
  ~ In 124 textContent ->
  TextMatchingAlgorithm.findByTextFingerprint toLowerCase textContent
    (PositionService.calculatePosition now textId selection) = None.
Proof.
  intros Hlower Hbar.
  unfold TextMatchingAlgorithm.findByTextFingerprint, PositionService.calculatePosition.
  cbn [AnnotationPosition.primary AnnotationPosition.fingerprint Primary.selectedText].
  unfold PositionService.generateTextFingerprint. cbv zeta.
  set (target := SelectionData.selectedText selection).
  set (input := join [124] _).
  pose proof (len_nonneg target). pose proof (len_nonneg textContent).
  pose proof (@fingerprintLoop_windows toLowerCase textContent target
                (HashUtil.sha256 input) (Z.max 1 (len target / 4))
                ltac:(lia) (S (Z.to_nat (len textContent))) 0 ltac:(lia)) as Hloop.
  destruct (TextMatchingAlgorithm.fingerprintLoop _ _ _ _ _ _ _ _) as [r|];
    [|reflexivity].
  exfalso. destruct Hloop as (j & _ & Hok & _).
  unfold Props.windowPasses in Hok. cbv zeta in Hok.
  rewrite compareFingerprints_hash in Hok; [discriminate|exact Hlower|].
  intro Hin. apply Hbar. eapply slice_incl. exact Hin.
Qed.

(** ** The substring fall-back of the fuzzy strategy *)

Lemma collapseSpaces_length (s : jsstring) (inRun : bool) :
  (List.length (collapseSpaces inRun s) <= List.length s)%nat.
Proof.
  revert inRun. induction s as [|c s IH]; intro inRun; simpl; [lia|].
  pose proof (IH true). pose proof (IH false).
  destruct (isSpace c); [destruct inRun|]; simpl; lia.
Qed.

Lemma trimStart_length (s : jsstring) : (List.length (trimStart s) <= List.length s)%nat.
Proof.
  induction s as [|c s IH]; [simpl; lia|]. cbn [trimStart].
  destruct (isSpace c); cbn [List.length]; lia.
Qed.

Lemma trim_length (s : jsstring) : (List.length (trim s) <= List.length s)%nat.
Proof.
  unfold trim. rewrite length_rev.
  pose proof (trimStart_length (rev (trimStart s))) as H1.
  rewrite length_rev in H1. pose proof (trimStart_length s). lia.
Qed.

Lemma normalizeText_length (text : jsstring) :
  len (TextMatchingAlgorithm.normalizeText text) <= len text.
Proof.
  unfold TextMatchingAlgorithm.normalizeText, len. cbv zeta.
  pose proof (trim_length
                (map lowerBasic
                   (filter (fun c => isWord c || isCJK c || isSpace c)
                      (collapseSpaces false text)))) as H1.
  rewrite length_map in H1.
  pose proof (filter_length_le (fun c => isWord c || isCJK c || isSpace c)
                (collapseSpaces false text)) as H2.
  pose proof (collapseSpaces_length text false) as H3. lia.
Qed.

(** X19. findBestSubstringMatch looks for the normalized target in the
    normalized document and uses the offset k of the first occurrence there
    as an offset into the original document: the returned range is
    [k, k + targetText.length) with the original document's slice at that
    range as text and confidence 0.8, where k is at most the length of the
    document; null is returned exactly when the normalized target does not
    occur in the normalized document. *)
Theorem findBestSubstringMatch_offsets (textContent targetText : jsstring) :
  let normalizedTarget := TextMatchingAlgorithm.normalizeText targetText in
  let normalizedContent := TextMatchingAlgorithm.normalizeText textContent in
  match TextMatchingAlgorithm.findBestSubstringMatch textContent targetText with
  | Some r =>
      exists k : nat,
        r = {| TextRange.startOffset := Z.of_nat k;
               TextRange.endOffset := Z.of_nat k + len targetText;
               TextRange.text :=
                 slice textContent (Z.of_nat k) (Z.of_nat k + len targetText);
               TextRange.confidence := Some (8 # 10) |}
        /\ Z.of_nat k + len normalizedTarget <= len normalizedContent
        /\ Z.of_nat k <= len textContent
        /\ slice normalizedContent (Z.of_nat k) (Z.of_nat k + len normalizedTarget)
           = normalizedTarget
        /\ forall j : nat, (j < k)%nat ->
             slice normalizedContent (Z.of_nat j) (Z.of_nat j + len normalizedTarget)
             <> normalizedTarget
  | None =>
      forall j : nat, (j <= List.length normalizedContent)%nat ->
        slice normalizedContent (Z.of_nat j) (Z.of_nat j + len normalizedTarget)
        <> normalizedTarget
  end.
Proof.
  cbv zeta. unfold TextMatchingAlgorithm.findBestSubstringMatch,
    TextMatchingAlgorithm.findOriginalPosition. cbv zeta.
  set (nt := TextMatchingAlgorithm.normalizeText targetText).
  set (nc := TextMatchingAlgorithm.normalizeText textContent).
  pose proof (normalizeText_length textContent) as Hlen. fold nc in Hlen.
  destruct (indexOf_spec nc nt) as [[E Hall]|(k & E & Hk & Hp & Hbefore)]; rewrite E.
  - simpl. intros j Hj H. apply occurrence_slice in H; [|exact Hj].
    rewrite Hall in H by exact Hj. discriminate.
  - destruct (Z.eqb_spec (Z.of_nat k) (-1)); [lia|]. cbn [negb].
    exists k. split; [reflexivity|].
    pose proof (isPrefix_length _ _ Hp) as Hl. rewrite length_skipn in Hl.
    unfold len in *. split; [lia|]. split; [lia|].
    split; [now apply slice_at_occurrence|].
    intros j Hj H. apply occurrence_slice in H; [|lia].
    rewrite Hbefore in H by exact Hj. discriminate.
Qed.

(** ** What a finished call reports *)



Section Finished.

Variable canonicalize : Z -> Z.
Variable toLowerCase : jsstring -> jsstring.
Variable regExpFirstMatch : jsstring -> jsstring -> RegExpOutcome.





End Finished.

(** ** Outcomes of the context strategy *)

Section ContextStrategy.

Variable canonicalize : Z -> Z.

(** X22. findMatches never throws.  When it returns, every match lies
    within the text (0 <= start <= end <= length), carries the text's slice
    at its range, is at least as long as the two context literals together,
    and the matches are in text order without overlap.  It can fail to
    return only when both context literals are empty (or, in the model,
    when the fuel is less than the text's length plus 2). *)
Theorem findMatches_outcomes (fuel : nat) (text : jsstring)
    (pattern : TextMatchingAlgorithm.ContextPattern.t) :
  match TextMatchingAlgorithm.findMatches canonicalize fuel text pattern with
  | Returns found =>
      Forall (fun m =>
                0 <= TextMatch.startOffset m <= TextMatch.endOffset m
                /\ TextMatch.endOffset m <= len text
                /\ TextMatch.text m
                   = slice text (TextMatch.startOffset m) (TextMatch.endOffset m)
                /\ len (TextMatchingAlgorithm.ContextPattern.before pattern)
                   + len (TextMatchingAlgorithm.ContextPattern.after pattern)
                   <= len (TextMatch.text m)) found
      /\ ForallOrdPairs
           (fun m1 m2 => TextMatch.endOffset m1 <= TextMatch.startOffset m2) found
  | Throws _ => False
  | OutOfFuel =>
      (TextMatchingAlgorithm.ContextPattern.before pattern = []
       /\ TextMatchingAlgorithm.ContextPattern.after pattern = [])
      \/ (fuel < Z.to_nat (len text) + 2)%nat
  end.
Proof.
  destruct (TextMatchingAlgorithm.findMatches canonicalize fuel text pattern)
    as [found|msg|] eqn:E.
  - now apply findMatches_shape in E.
  - unfold TextMatchingAlgorithm.findMatches in E.
    now apply findMatchesLoop_no_throw in E.
  - pose proof (len_nonneg (TextMatchingAlgorithm.ContextPattern.before pattern)) as Hb.
    pose proof (len_nonneg (TextMatchingAlgorithm.ContextPattern.after pattern)) as Ha.
    destruct (Z.eq_dec (len (TextMatchingAlgorithm.ContextPattern.before pattern)
                        + len (TextMatchingAlgorithm.ContextPattern.after pattern)) 0)
      as [Hz|Hnz].
    + left. unfold len in *.
      destruct (TextMatchingAlgorithm.ContextPattern.before pattern);
        [|cbn [List.length] in *; lia].
      destruct (TextMatchingAlgorithm.ContextPattern.after pattern);
        [|cbn [List.length] in *; lia].
      split; reflexivity.
    + right. apply Nat.nle_gt. intro Hf.
      assert (Hpos : 0 < len (TextMatchingAlgorithm.ContextPattern.before pattern)
                         + len (TextMatchingAlgorithm.ContextPattern.after pattern))
        by lia.
      assert (Hf' : (Z.to_nat (len text - 0) + 2 <= fuel)%nat)
        by (rewrite Z.sub_0_r; exact Hf).
      destruct (@findMatchesLoop_returns canonicalize pattern text Hpos fuel 0 []
                  ltac:(lia) Hf') as [found E'].
      unfold TextMatchingAlgorithm.findMatches in E. rewrite E in E'. discriminate.
Qed.

(** X23. TextMatchingAlgorithm.findByContextMatch never throws: the throw
    in selectBestMatch is unreachable from it.  A returned range lies
    within the document and its text is the document's slice at that
    range; it is either an occurrence of the stored text with confidence
    0.95, or, when the stored text does not occur in the chosen context
    match, that whole match with confidence 0.7.  Null is returned only
    when the context pattern has no match. *)
Theorem findByContextMatch_range (fuel : nat) (textContent : jsstring)
    (position : AnnotationPosition.t) :
  let selectedText := Primary.selectedText (AnnotationPosition.primary position) in
  let context := AnnotationPosition.context position in
  match TextMatchingAlgorithm.findByContextMatch canonicalize fuel textContent position
  with
  | Returns (Some r) =>
      0 <= TextRange.startOffset r <= TextRange.endOffset r
      /\ TextRange.endOffset r <= len textContent
      /\ slice textContent (TextRange.startOffset r) (TextRange.endOffset r)
         = TextRange.text r
      /\ ((TextRange.text r = selectedText /\ TextRange.confidence r = Some (95 # 100))
          \/ (TextRange.confidence r = Some (7 # 10)
              /\ indexOf (TextRange.text r) selectedText = -1
              /\ len (ContextInfo.before context) + len (ContextInfo.after context)
                 <= len (TextRange.text r)))
  | Returns None =>
      TextMatchingAlgorithm.findMatches canonicalize fuel textContent
        (TextMatchingAlgorithm.buildContextPattern context)
      = Returns []
  | Throws _ => False
  | OutOfFuel =>
      TextMatchingAlgorithm.findMatches canonicalize fuel textContent
        (TextMatchingAlgorithm.buildContextPattern context)
      = OutOfFuel
  end.
Proof.
  cbv zeta.
  destruct (TextMatchingAlgorithm.findByContextMatch canonicalize fuel textContent
              position) as [found|msg|] eqn:E.
  - exact (findByContextMatch_within _ _ _ _ E).
  - unfold TextMatchingAlgorithm.findByContextMatch in E.
    destruct (TextMatchingAlgorithm.findMatches canonicalize fuel textContent
                (TextMatchingAlgorithm.buildContextPattern
                   (AnnotationPosition.context position))) as [ms|msg'|] eqn:Em;
      cbn [bind] in E.
    + destruct ms as [|m0 rest]; [discriminate|].
      change (Z.of_nat (List.length (m0 :: rest)) =? 0) with false in E. cbv iota in E.
      destruct (selectBestMatch_member m0 rest position) as (best & Hsel & _).
      rewrite Hsel in E. discriminate.
    + unfold TextMatchingAlgorithm.findMatches in Em.
      now apply findMatchesLoop_no_throw in Em.
    + discriminate.
  - unfold TextMatchingAlgorithm.findByContextMatch in E.
    destruct (TextMatchingAlgorithm.findMatches canonicalize fuel textContent
                (TextMatchingAlgorithm.buildContextPattern
                   (AnnotationPosition.context position))) as [ms|msg'|] eqn:Em;
      cbn [bind] in E; [|discriminate|reflexivity].
    destruct ms as [|m0 rest]; [discriminate|].
    change (Z.of_nat (List.length (m0 :: rest)) =? 0) with false in E. cbv iota in E.
    destruct (selectBestMatch_member m0 rest position) as (best & Hsel & _).
    rewrite Hsel in E. discriminate.
Qed.

End ContextStrategy.

(** ** Ranges and the document *)

Lemma slice_extent (s : jsstring) (a b : Z) :
  0 <= a -> slice s a b <> [] -> len (slice s a b) = b - a -> a < b <= len s.
Proof.
  intros Ha Hne Hlen.
  assert (Hpos : 0 < len (slice s a b)).
  { unfold len. destruct (slice s a b); [contradiction|]. simpl. lia. }
  assert (Hab : a < b) by lia.
  rewrite slice_plain in Hlen by lia.
  unfold len in Hlen. rewrite length_firstn, length_skipn in Hlen.
  unfold len in *. lia.
Qed.

Section InDocument.

Variable canonicalize : Z -> Z.
Variable toLowerCase : jsstring -> jsstring.
Variable regExpFirstMatch : jsstring -> jsstring -> RegExpOutcome.

Lemma candidate_range_within (fuel : nat) (textContent : jsstring)
    (position : AnnotationPosition.t) (m : PositioningMethod) (r : TextRange.t) :
  m <> fuzzy_match ->
  PositionService.runStrategy canonicalize toLowerCase regExpFirstMatch
    textContent position m fuel = Returns (Some r) ->
  TextRange.text r <> [] ->
  0 <= TextRange.startOffset r < TextRange.endOffset r
  /\ TextRange.endOffset r <= len textContent
  /\ slice textContent (TextRange.startOffset r) (TextRange.endOffset r)
     = TextRange.text r.
Proof.
  intros Hm Hrun Hne. destruct m; cbn [PositionService.runStrategy] in Hrun.
  - (* primary_position *)
    injection Hrun as Hrun. unfold PositionService.findByPrimaryPosition in Hrun.
    cbv zeta in Hrun.
    set (s := Primary.startOffset (AnnotationPosition.primary position)) in *.
    set (e := Primary.endOffset (AnnotationPosition.primary position)) in *.
    destruct (Z.ltb_spec s 0); [discriminate|].
    destruct (Z.gtb_spec e (len textContent)); [discriminate|].
    destruct (Z.geb_spec s e); [discriminate|]. cbn [orb] in Hrun.
    destruct (streq _ _); [|destruct (streq _ _); [|discriminate]];
      injection Hrun as <-; cbn; repeat split; lia.
  - (* context_match *)
    unfold PositionService.findByContextMatch in Hrun.
    pose proof (findByContextMatch_within _ _ _ _ Hrun) as (H1 & H2 & H3 & _).
    rewrite <- H3 in Hne.
    assert (Hl : len (slice textContent (TextRange.startOffset r) (TextRange.endOffset r))
                 = TextRange.endOffset r - TextRange.startOffset r)
      by (apply len_slice; lia).
    pose proof (@slice_extent _ _ _ (proj1 H1) Hne Hl). repeat split; try lia. exact H3.
  - (* text_fingerprint *)
    injection Hrun as Hrun.
    unfold PositionService.findByTextFingerprint,
      TextMatchingAlgorithm.findByTextFingerprint in Hrun. cbv zeta in Hrun.
    set (target := Primary.selectedText (AnnotationPosition.primary position)) in *.
    pose proof (len_nonneg target). pose proof (len_nonneg textContent).
    pose proof (@fingerprintLoop_windows toLowerCase textContent target
                  (AnnotationPosition.fingerprint position)
                  (Z.max 1 (len target / 4))
                  ltac:(lia) (S (Z.to_nat (len textContent))) 0 ltac:(lia)) as Hloop.
    rewrite Hrun in Hloop. destruct Hloop as (j & Hj & _ & _ & ->).
    unfold Props.windowRange in *. cbv zeta in *.
    cbn [TextRange.text TextRange.startOffset TextRange.endOffset] in *.
    assert (Hj0 : 0 <= 0 + Z.of_nat j * Z.max 1 (len target / 4)) by nia.
    assert (Hl : len (slice textContent (0 + Z.of_nat j * Z.max 1 (len target / 4))
                        (0 + Z.of_nat j * Z.max 1 (len target / 4) + len target))
                 = 0 + Z.of_nat j * Z.max 1 (len target / 4) + len target
                   - (0 + Z.of_nat j * Z.max 1 (len target / 4)))
      by (apply len_slice; lia).
    pose proof (@slice_extent _ _ _ Hj0 Hne Hl). repeat split; lia.
  - (* structural_path *)
    injection Hrun as Hrun. unfold PositionService.findByStructuralPath in Hrun.
    cbv zeta in Hrun. destruct (_ && _); [discriminate|].
    unfold StructuralAnalyzer.findByStructuralPath in Hrun. cbv zeta in Hrun.
    destruct (StructuralPath.paragraphIndex (AnnotationPosition.structural position))
      as [p|].
    + pose proof (findByParagraphIndex_spec textContent p
                    (Primary.selectedText (AnnotationPosition.primary position))) as W.
      cbv zeta in W. rewrite Hrun in W.
      destruct W as (Ht & _ & Hs & He & Hslice & _).
      rewrite <- Ht in Hslice, He.
      assert (Hr0 : 0 <= TextRange.startOffset r) by lia.
      rewrite <- Hslice in Hne.
      assert (Hl : len (slice textContent (TextRange.startOffset r)
                          (TextRange.endOffset r))
                   = TextRange.endOffset r - TextRange.startOffset r)
        by (rewrite Hslice; lia).
      pose proof (@slice_extent _ _ _ Hr0 Hne Hl). repeat split; try lia. exact Hslice.
    + destruct (StructuralPath.elementPath (AnnotationPosition.structural position))
        as [[|c path]|]; try discriminate.
      destruct (findByElementPath_found _ _ _ Hrun) as (k & -> & Hk & Hslice).
      cbn [TextRange.text TextRange.startOffset TextRange.endOffset] in *.
      pose proof (len_nonneg (Primary.selectedText (AnnotationPosition.primary position))).
      assert (0 < len (Primary.selectedText (AnnotationPosition.primary position))).
      { unfold len.
        destruct (Primary.selectedText (AnnotationPosition.primary position));
          [contradiction|]. simpl. lia. }
      repeat split; try lia. exact Hslice.
  - contradiction.
Qed.

(** X24. A validated candidate of any strategy other than fuzzy_match
    is a non-empty range inside the document whose text is the document's
    slice at that range. *)
Theorem validated_candidate_in_document (fuel : nat) (textContent : jsstring)
    (position : AnnotationPosition.t) (m : PositioningMethod) (r : TextRange.t) :
  m <> fuzzy_match ->
  PositionService.runStrategy canonicalize toLowerCase regExpFirstMatch
    textContent position m fuel = Returns (Some r) ->
  PositionService.validatePosition r position = true ->
  0 <= TextRange.startOffset r < TextRange.endOffset r
  /\ TextRange.endOffset r <= len textContent
  /\ slice textContent (TextRange.startOffset r) (TextRange.endOffset r)
     = TextRange.text r.
Proof.
  intros Hm Hrun Hv. apply (@candidate_range_within fuel textContent position m r Hm Hrun).
  intro E. unfold PositionService.validatePosition in Hv. rewrite E in Hv.
  discriminate.
Qed.

(** X25. Resolution is stable.  If a strategy other than fuzzy_match
    returned a candidate that validatePosition accepts, then resolving the
    locator updated with that candidate against the same document, with any
    threshold up to 0.98, succeeds at the first strategy: primary_position
    is the only method attempted, the reported confidence is 0.98, the
    offsets and text of the locator stay as they are, and its
    metadata.confidence becomes 1. *)
Theorem accepted_candidate_resolves_by_primary_position
    (fuel fuel' : nat) (startTime now : Z) (textContent : jsstring)
    (position : AnnotationPosition.t) (m : PositioningMethod) (r : TextRange.t)
    (minConfidence : Q) :
  m <> fuzzy_match ->
  PositionService.runStrategy canonicalize toLowerCase regExpFirstMatch
    textContent position m fuel = Returns (Some r) ->
  PositionService.validatePosition r position = true ->
  (minConfidence <= 98 # 100)%Q ->
  exists res updated,
    PositionService.findAnnotationPosition canonicalize toLowerCase regExpFirstMatch
      fuel' startTime now textContent (PositionService.updatePosition position r)
      minConfidence
    = PositionService.Finished res
    /\ PositioningResult.success res = true
    /\ ResultMetadata.strategiesUsed (PositioningResult.metadata res)
       = [primary_position]
    /\ (ResultMetadata.confidence (PositioningResult.metadata res) == 98 # 100)%Q
    /\ PositioningResult.position res = Some updated
    /\ AnnotationPosition.primary updated
       = AnnotationPosition.primary (PositionService.updatePosition position r)
    /\ Metadata.confidence (AnnotationPosition.metadata updated) = 1%Q.
Proof.
  intros Hm Hrun Hv Hmin.
  assert (Hne : TextRange.text r <> []).
  { intro E. unfold PositionService.validatePosition in Hv. rewrite E in Hv.
    discriminate. }
  destruct (@candidate_range_within fuel textContent position m r Hm Hrun Hne)
    as (Hoff & Hend & Hslice).
  set (updated := PositionService.updatePosition position r).
  set (range := {| TextRange.startOffset := TextRange.startOffset r;
                   TextRange.endOffset := TextRange.endOffset r;
                   TextRange.text :=
                     slice textContent (TextRange.startOffset r) (TextRange.endOffset r);
                   TextRange.confidence := Some 1%Q |}).
  assert (Hfound : PositionService.findByPrimaryPosition textContent updated
                   = Some range).
  { unfold PositionService.findByPrimaryPosition, updated,
      PositionService.updatePosition.
    cbn [AnnotationPosition.primary Primary.startOffset Primary.endOffset
         Primary.selectedText].
    destruct (Z.ltb_spec (TextRange.startOffset r) 0); [lia|].
    destruct (Z.gtb_spec (TextRange.endOffset r) (len textContent)); [lia|].
    destruct (Z.geb_spec (TextRange.startOffset r) (TextRange.endOffset r)); [lia|].
    cbn [orb]. rewrite Hslice, streq_refl. unfold range. now rewrite Hslice. }
  assert (Hlen : 0 < len (TextRange.text range)).
  { cbn [range TextRange.text]. rewrite len_slice; lia. }
  destruct (@exact_candidate range updated) as [Hvalid Hc];
    [exact Hslice|reflexivity|reflexivity|exact Hlen|].
  assert (Hge : Qge_bool (PositionService.calculateMatchConfidence range updated)
                  minConfidence = true)
    by (apply Qge_bool_iff; rewrite Hc; exact Hmin).
  unfold PositionService.findAnnotationPosition, PositionService.strategies.
  cbn [PositionService.strategyLoop PositionService.Strategy.execute
       PositionService.Strategy.method PositionService.runStrategy].
  rewrite Hfound, Hvalid, Hge.
  eexists. eexists. split; [reflexivity|].
  split; [reflexivity|]. split; [reflexivity|]. split; [exact Hc|].
  split; [reflexivity|]. split; [|reflexivity].
  cbn [PositionService.updatePosition AnnotationPosition.primary range
       TextRange.startOffset TextRange.endOffset TextRange.text updated].
  now rewrite Hslice.
Qed.

End InDocument.

(** ** Normalization in the matching algorithm *)

Lemma trimStart_idempotent (s : jsstring) : trimStart (trimStart s) = trimStart s.
Proof.
  induction s as [|c s IH]; [reflexivity|]. cbn [trimStart].
  destruct (isSpace c) eqn:E; [exact IH|]. cbn [trimStart]. now rewrite E.
Qed.

Lemma trimStart_head (s t : jsstring) (c : Z) :
  trimStart s = c :: t -> isSpace c = false.
Proof.
  induction s as [|x s IH]; [discriminate|]. cbn [trimStart].
  destruct (isSpace x) eqn:E; [exact IH|]. intros [= <- _]. exact E.
Qed.

Lemma trimStart_suffix (s : jsstring) : exists p, s = p ++ trimStart s.
Proof.
  induction s as [|c s [p IH]]; [now exists []|]. cbn [trimStart].
  destruct (isSpace c); [|now exists []].
  exists (c :: p). simpl. now f_equal.
Qed.

Lemma trimStart_fixed (s : jsstring) :
  match s with [] => True | c :: _ => isSpace c = false end -> trimStart s = s.
Proof. destruct s as [|c s]; [reflexivity|]. intro H. cbn [trimStart]. now rewrite H. Qed.

Lemma trim_ends (s : jsstring) :
  trimStart (trim s) = trim s /\ trimStart (rev (trim s)) = rev (trim s).
Proof.
  unfold trim. split.
  - destruct (trimStart_suffix (rev (trimStart s))) as [p Hp].
    set (x := trimStart (rev (trimStart s))) in *.
    apply trimStart_fixed.
    destruct (rev x) as [|c t] eqn:E; [exact I|].
    assert (Hs : trimStart s = c :: t ++ rev p).
    { rewrite <- (rev_involutive (trimStart s)), Hp, rev_app_distr, E. reflexivity. }
    exact (trimStart_head _ Hs).
  - rewrite rev_involutive. apply trimStart_idempotent.
Qed.

Lemma trim_fixed (s : jsstring) :
  trimStart s = s -> trimStart (rev s) = rev s -> trim s = s.
Proof. intros H1 H2. unfold trim. rewrite H1, H2. apply rev_involutive. Qed.

Lemma collapseSpaces_idempotent (s : jsstring) :
  forall inRun,
    collapseSpaces inRun (collapseSpaces inRun s) = collapseSpaces inRun s.
Proof.
  assert (H32 : isSpace 32 = true) by reflexivity.
  induction s as [|c s IH]; intro inRun; [reflexivity|]. cbn [collapseSpaces].
  destruct (isSpace c) eqn:E.
  - destruct inRun; [apply IH|]. cbn [collapseSpaces]. rewrite H32. now rewrite IH.
  - cbn [collapseSpaces]. rewrite E. now rewrite IH.
Qed.

Lemma collapseSpaces_snoc (s : jsstring) (c : Z) :
  isSpace c = false ->
  forall inRun, collapseSpaces inRun (s ++ [c]) = collapseSpaces inRun s ++ [c].
Proof.
  intro Hc. induction s as [|x s IH]; intro inRun.
  - simpl. now rewrite Hc.
  - cbn [app collapseSpaces]. destruct (isSpace x); [destruct inRun|];
      rewrite IH; reflexivity.
Qed.

Lemma collapseSpaces_Forall (P : Z -> Prop) (s : jsstring) :
  P 32 -> Forall P s -> forall inRun, Forall P (collapseSpaces inRun s).
Proof.
  intros H32 H. induction H as [|c s Hc Hs IH]; intro inRun; [constructor|].
  cbn [collapseSpaces]. destruct (isSpace c); [destruct inRun|];
    try constructor; auto.
Qed.

Lemma collapseSpaces_ends (s : jsstring) :
  trimStart s = s -> trimStart (rev s) = rev s ->
  trimStart (collapseSpaces false s) = collapseSpaces false s
  /\ trimStart (rev (collapseSpaces false s)) = rev (collapseSpaces false s).
Proof.
  intros H1 H2. split.
  - destruct s as [|c s]; [reflexivity|].
    pose proof (trimStart_head _ H1) as Hc.
    cbn [collapseSpaces]. rewrite Hc. cbn [trimStart]. now rewrite Hc.
  - destruct (rev s) as [|c r] eqn:E.
    + apply (f_equal (@rev Z)) in E. rewrite rev_involutive in E. subst. reflexivity.
    + pose proof (trimStart_head _ H2) as Hc.
      assert (Hs : s = rev r ++ [c]).
      { rewrite <- (rev_involutive s), E. reflexivity. }
      rewrite Hs, (@collapseSpaces_snoc (rev r) c Hc), rev_app_distr.
      cbn [rev app trimStart]. now rewrite Hc.
Qed.

Lemma lowerBasic_keeps_kept (c : Z) :
  isWord c || isCJK c || isSpace c = true ->
  isWord (lowerBasic c) || isCJK (lowerBasic c) || isSpace (lowerBasic c) = true.
Proof.
  intro H. unfold lowerBasic.
  destruct ((65 <=? c) && (c <=? 90)) eqn:E; [|exact H].
  apply andb_true_iff in E as [E1 E2]. apply Z.leb_le in E1, E2.
  unfold isWord.
  repeat rewrite ?orb_true_iff, ?andb_true_iff, ?Z.leb_le, ?Z.eqb_eq. lia.
Qed.

(** What a pass leaves: word characters in lower case, CJK ideographs and
    white space, with no white space at either end. *)
Lemma normalizeText_clean (text : jsstring) :
  let n := TextMatchingAlgorithm.normalizeText text in
  Forall (fun c => (isWord c || isCJK c || isSpace c = true) /\ lowerBasic c = c) n
  /\ trimStart n = n /\ trimStart (rev n) = rev n.
Proof.
  cbv zeta. unfold TextMatchingAlgorithm.normalizeText. cbv zeta. split.
  - apply trim_Forall. apply Forall_map. apply Forall_forall. intros c Hc.
    apply filter_In in Hc as [_ Hc]. split.
    + now apply lowerBasic_keeps_kept.
    + apply lowerBasic_idempotent.
  - apply trim_ends.
Qed.

Lemma normalizeText_on_clean (n : jsstring) :
  Forall (fun c => (isWord c || isCJK c || isSpace c = true) /\ lowerBasic c = c) n ->
  trimStart n = n -> trimStart (rev n) = rev n ->
  TextMatchingAlgorithm.normalizeText n = collapseSpaces false n.
Proof.
  intros Hall H1 H2. unfold TextMatchingAlgorithm.normalizeText. cbv zeta.
  assert (Hc : Forall (fun c => (isWord c || isCJK c || isSpace c = true)
                                /\ lowerBasic c = c) (collapseSpaces false n))
    by (apply collapseSpaces_Forall; [split; reflexivity|exact Hall]).
  assert (Hf : filter (fun c => isWord c || isCJK c || isSpace c)
                 (collapseSpaces false n) = collapseSpaces false n).
  { induction Hc as [|c l [Hk _] _ IH]; [reflexivity|].
    cbn [filter]. rewrite Hk. now f_equal. }
  rewrite Hf.
  assert (Hm : map lowerBasic (collapseSpaces false n) = collapseSpaces false n).
  { clear Hf. induction Hc as [|c l [_ Hl] _ IH]; [reflexivity|].
    cbn [map]. now rewrite Hl, IH. }
  rewrite Hm.
  destruct (collapseSpaces_ends H1 H2) as [E1 E2]. now apply trim_fixed.
Qed.

(** X26. TextMatchingAlgorithm.normalizeText is not idempotent (removing
    punctuation between two spaces leaves a double space, as in [a , b]),
    but it settles after two passes: the second pass only collapses the
    white space left by the first, and a third pass changes nothing. *)
Theorem normalizeText_settles_in_two_passes (text : jsstring) :
  let once := TextMatchingAlgorithm.normalizeText text in
  let twice := TextMatchingAlgorithm.normalizeText once in
  twice = collapseSpaces false once
  /\ TextMatchingAlgorithm.normalizeText twice = twice
  /\ exists other,
       TextMatchingAlgorithm.normalizeText (TextMatchingAlgorithm.normalizeText other)
       <> TextMatchingAlgorithm.normalizeText other.
Proof.
  cbv zeta.
  destruct (normalizeText_clean text) as (Hall & H1 & H2).
  pose proof (normalizeText_on_clean Hall H1 H2) as E.
  split; [exact E|]. split.
  - rewrite E. rewrite normalizeText_on_clean.
    + apply collapseSpaces_idempotent.
    + apply collapseSpaces_Forall; [split; reflexivity|exact Hall].
    + apply (collapseSpaces_ends H1 H2).
    + apply (collapseSpaces_ends H1 H2).
  - exists (lit "a , b"). vm_compute. discriminate.
Qed.

(** ** The fuel of the [exec] loop *)

Section Fuel.

Variable canonicalize : Z -> Z.
Variable toLowerCase : jsstring -> jsstring.
Variable regExpFirstMatch : jsstring -> jsstring -> RegExpOutcome.





End Fuel.

(** ** A range beyond the document *)

(** X27. The fuzzy strategy can report a range that ends beyond the
    document.  For the stored text [b!] and the two-character document
    [ab], the substring fall-back finds the normalized text at offset 1 and
    returns the range [1, 3) with the text [b]; the candidate is validated,
    scores 0.83, and the call succeeds with a locator whose endOffset 3
    exceeds the document's length 2. *)
Theorem fuzzy_range_can_leave_document :
  exists res updated,
    BasicLatinHost.findAnnotationPosition 3 0 0 Examples.shortDocument
      Examples.punctuatedPosition PositionService.defaultMinConfidence
    = PositionService.Finished res
    /\ PositioningResult.success res = true
    /\ map (fun m => AnnotationMatch.method m) (PositioningResult.matches res)
       = [fuzzy_match]
    /\ (ResultMetadata.confidence (PositioningResult.metadata res) == 83 # 100)%Q
    /\ PositioningResult.position res = Some updated
    /\ Primary.startOffset (AnnotationPosition.primary updated) = 1
    /\ Primary.endOffset (AnnotationPosition.primary updated) = 3
    /\ Primary.selectedText (AnnotationPosition.primary updated) = lit "b"
    /\ len Examples.shortDocument = 2.
Proof.
  eexists. eexists. split; [vm_compute; reflexivity|].
  cbn. repeat split.
Qed.

(** ** Further instances on the examples *)

Lemma lowerBasic_no_bar (s : jsstring) :
  ~ In 124 s -> ~ In 124 (BasicLatinHost.toLowerCase s).
Proof.
  unfold BasicLatinHost.toLowerCase. intros H Hin.
  apply in_map_iff in Hin as (c & Hc & Hin). apply H.
  unfold lowerBasic in Hc.
  destruct ((65 <=? c) && (c <=? 90)) eqn:E; [|now subst].
  apply andb_true_iff in E. rewrite !Z.leb_le in E. lia.
Qed.

Lemma analyze_then_findByStructuralPath_witness :
  exists r,
    StructuralAnalyzer.findByStructuralPath Examples.document Examples.position = Some r
    /\ TextRange.text r = slice Examples.document 4 6
    /\ TextRange.confidence r = Some (8 # 10).
Proof.
  destruct (@analyze_then_findByStructuralPath 0 (lit "text-1") Examples.document
              Examples.selection) as (r & E & Ht & Hc & _).
  - simpl. lia.
  - vm_compute. discriminate.
  - simpl. lia.
  - reflexivity.
  - exists r. repeat split; assumption.
Defined.

Lemma analyzeContext_windows_witness :
  ContextInfo.before (ContextAnalyzer.analyzeContext Examples.document 4 6)
  = slice Examples.document 0 4
  /\ len (ContextInfo.after (ContextAnalyzer.analyzeContext Examples.document 4 6)) = 11.
Proof.
  destruct (@analyzeContext_windows Examples.document 4 6) as (Hb & _ & _ & Ha & _).
  - lia.
  - vm_compute. discriminate.
  - split; [exact Hb|exact Ha].
Defined.

Lemma fingerprint_of_calculatePosition_never_matches_witness :
  TextMatchingAlgorithm.findByTextFingerprint BasicLatinHost.toLowerCase
    Examples.document Examples.position = None.
Proof.
  apply (@fingerprint_of_calculatePosition_never_matches BasicLatinHost.toLowerCase
           0 (lit "text-1") Examples.document Examples.selection).
  - exact lowerBasic_no_bar.
  - vm_compute. intuition discriminate.
Defined.



Lemma validated_candidate_in_document_witness :
  0 <= TextRange.startOffset Examples.driftedCandidate
     < TextRange.endOffset Examples.driftedCandidate
  /\ TextRange.endOffset Examples.driftedCandidate <= len Examples.driftedDocument
  /\ slice Examples.driftedDocument (TextRange.startOffset Examples.driftedCandidate)
       (TextRange.endOffset Examples.driftedCandidate)
     = TextRange.text Examples.driftedCandidate.
Proof.
  apply (@validated_candidate_in_document BasicLatinHost.canonicalize
           BasicLatinHost.toLowerCase BasicLatinHost.regExpFirstMatch
           2 Examples.driftedDocument Examples.position context_match
           Examples.driftedCandidate).
  - discriminate.
  - vm_compute. reflexivity.
  - reflexivity.
Defined.

Lemma accepted_candidate_resolves_by_primary_position_witness :
  exists res,
    BasicLatinHost.findAnnotationPosition 0 0 0 Examples.driftedDocument
      (PositionService.updatePosition Examples.position Examples.driftedCandidate)
      PositionService.defaultMinConfidence
    = PositionService.Finished res
    /\ ResultMetadata.strategiesUsed (PositioningResult.metadata res)
       = [primary_position].
Proof.
  destruct (@accepted_candidate_resolves_by_primary_position
              BasicLatinHost.canonicalize BasicLatinHost.toLowerCase
              BasicLatinHost.regExpFirstMatch 2 0 0 0 Examples.driftedDocument
              Examples.position context_match Examples.driftedCandidate
              PositionService.defaultMinConfidence)
    as (res & updated & E & _ & Hu & _).
  - discriminate.
  - vm_compute. reflexivity.
  - reflexivity.
  - vm_compute. discriminate.
  - exists res. split; [exact E|exact Hu].
Defined.

